(** * Telegram analytics platform: registry, reclaimer, cache admission,
    truncated-JSON salvage, file retention guard and scrape serializer.

  A shallow embedding of the Python sources
    services/memory_manager.py, routers/reports.py, routers/parser.py,
    services/report_generator.py and services/file_cleaner.py.

  Conventions.
  - Clock readings ([time.time()], [st_mtime]) are integers of type [Z]
    in one fixed unit (seconds); every operation that reads the clock
    takes the reading as its argument [now].
  - Python objects live in a heap indexed by locations, because the
    reclaimer writes into payload dictionaries in place and two ids may
    hold the same dictionary.
  - Library functions the sources call ([json.loads], [int],
    the regular expressions of [sanitize_json_response]) are parameters. *)

From stdpp Require Import base gmap strings list.
From Stdlib Require Import ZArith Lia Ascii.

Local Open Scope Z_scope.
Set Warnings "-register-all,-clear-no-such-hyp".

(* ===================================================================== *)
(** ** Python values                                                      *)
(* ===================================================================== *)

Module Py.

(** The JSON-like fragment of Python objects the registry looks at.
    A [dict] keeps insertion order, hence an association list. *)
Inductive pyval : Type :=
| PyNone
| PyBool (b : bool)
| PyInt (z : Z)
| PyStr (s : string)
| PyList (items : list pyval)
| PyDict (entries : list (string * pyval)).

(** [bool(v)] *)
Definition truthy (v : pyval) : bool :=
  match v with
  | PyNone => false
  | PyBool b => b
  | PyInt z => negb (z =? 0)
  | PyStr s => negb (String.eqb s "")
  | PyList items => match items with [] => false | _ => true end
  | PyDict entries => match entries with [] => false | _ => true end
  end.

(** [d.get(key)] / [key in d] *)
Fixpoint dict_get (d : list (string * pyval)) (key : string) : option pyval :=
  match d with
  | [] => None
  | (k, v) :: rest => if String.eqb k key then Some v else dict_get rest key
  end.

(** [d[key] = v] *)
Fixpoint dict_set (d : list (string * pyval)) (key : string) (v : pyval)
  : list (string * pyval) :=
  match d with
  | [] => [(key, v)]
  | (k, w) :: rest =>
      if String.eqb k key then (k, v) :: rest else (k, w) :: dict_set rest key v
  end.

(** [v == s] for a string literal [s]: only a [str] equals a [str]. *)
Definition eq_str (v : pyval) (s : string) : bool :=
  match v with
  | PyStr s' => String.eqb s' s
  | _ => false
  end.

(** [v in [s1, s2, ...]] for a list of string literals. *)
Definition in_strs (v : pyval) (l : list string) : bool :=
  existsb (eq_str v) l.

End Py.

(* ===================================================================== *)
(** ** services/memory_manager.py                                         *)
(* ===================================================================== *)

Module MemoryManager.
Import Py.

Definition loc := positive.

(** Module state: the two global dictionaries, and the object heap their
    payload references point into. *)
Record registry : Type := Registry {
  heap : loc → pyval;
  task_memory : gmap string loc;
  memory_ttl : gmap string Z
}.

Definition heap_write (h : loc → pyval) (l : loc) (v : pyval) : loc → pyval :=
  λ l', if decide (l' = l) then v else h l'.

Definition empty_registry (h : loc → pyval) : registry :=
  Registry h ∅ ∅.

Definition TASK_TTL_RULES : gmap string Z :=
  <["completed" := 300]> (<["processing" := 0]>
    (<["error" := 300]> (<["pending" := 0]> ∅))).

(** [safe_set_task(task_id, data, status)]; [data = None] is Python's
    [None], [Some l] a reference to the payload object. *)
Definition safe_set_task (now : Z) (task_id : string) (data : option loc)
    (status : string) (st : registry) : registry :=
  match data with
  | None =>
      Registry (heap st) (delete task_id (task_memory st))
               (delete task_id (memory_ttl st))
  | Some l =>
      let tm := <[task_id := l]> (task_memory st) in
      let ttl_seconds := default 3600 (TASK_TTL_RULES !! status) in
      if 0 <? ttl_seconds then
        let expiry_time := now + ttl_seconds in
        Registry (heap st) tm (<[task_id := expiry_time]> (memory_ttl st))
      else
        Registry (heap st) tm (delete task_id (memory_ttl st))
  end.

Definition should_cleanup_by_status (status : pyval) : bool :=
  if in_strs status ["processing"; "pending"] then false
  else in_strs status ["completed"; "error"].

(** [task.get("status", "unknown") if isinstance(task, dict) else "unknown"] *)
Definition task_status (task : pyval) : pyval :=
  match task with
  | PyDict d => default (PyStr "unknown") (dict_get d "status")
  | _ => PyStr "unknown"
  end.

(** The test both the lazy and the periodic path apply to an id whose
    expiry has passed: [task = task_memory.get(task_id); if task: ...]. *)
Definition evictable (st : registry) (task_id : string) : bool :=
  match task_memory st !! task_id with
  | Some l =>
      let task := heap st l in
      truthy task && should_cleanup_by_status (task_status task)
  | None => false
  end.

(** [safe_get_task(task_id)]: result and new state. *)
Definition safe_get_task (now : Z) (task_id : string) (st : registry)
  : option loc * registry :=
  match memory_ttl st !! task_id with
  | Some expiry_time =>
      if (expiry_time <? now) && evictable st task_id then
        (None, Registry (heap st) (delete task_id (task_memory st))
                        (delete task_id (memory_ttl st)))
      else (task_memory st !! task_id, st)
  | None => (task_memory st !! task_id, st)
  end.

Definition safe_remove_task (now : Z) (task_id : string) (st : registry)
  : registry :=
  safe_set_task now task_id None "processing" st.

(** [if key in task and task[key]: task[key] = None] *)
Definition null_field (d : list (string * pyval)) (key : string)
  : list (string * pyval) :=
  match dict_get d key with
  | Some v => if truthy v then dict_set d key PyNone else d
  | None => d
  end.

(** Step 2 of the reclaimer on one payload object. *)
Definition clear_large_fields (task : pyval) : pyval :=
  match task with
  | PyDict d =>
      if truthy task then
        PyDict (foldl null_field (null_field d "file_content")
                      ["telegram_text"; "messages"; "report_data"])
      else task
  | _ => task
  end.

(** Body of the second loop for one id: clear, then pop from both maps. *)
Definition evict (st : registry) (task_id : string) : registry :=
  let h :=
    match task_memory st !! task_id with
    | Some l => heap_write (heap st) l (clear_large_fields (heap st l))
    | None => heap st
    end in
  Registry h (delete task_id (task_memory st)) (delete task_id (memory_ttl st)).

(** First loop: ids of [memory_ttl] whose expiry has passed and whose
    payload is truthy with an evictable status. *)
Definition is_expired (st : registry) (current_time : Z)
    (item : string * Z) : bool :=
  (item.2 <? current_time) && evictable st item.1.

Definition expired_tasks (st : registry) (current_time : Z) : list string :=
  map fst (List.filter (is_expired st current_time)
                       (map_to_list (memory_ttl st))).

(** [cleanup_expired_tasks()]: evicted count and new state.  The garbage
    collection and [malloc_trim] calls after the lock is released do not
    touch the registry. *)
Definition cleanup_expired_tasks (now : Z) (st : registry) : nat * registry :=
  let expired := expired_tasks st now in
  (length expired, foldl evict st expired).

Definition manual_cleanup := cleanup_expired_tasks.

(** Everything that can happen to the registry: the four entry points, and
    a write to a payload object by whoever else holds a reference to it. *)
Inductive op : Type :=
| OpSet (task_id : string) (data : option loc) (status : string)
| OpGet (task_id : string)
| OpRemove (task_id : string)
| OpCleanup
| OpWrite (l : loc) (v : pyval).

Definition step (st : registry) (ev : Z * op) : registry :=
  match ev.2 with
  | OpSet task_id data status => safe_set_task ev.1 task_id data status st
  | OpGet task_id => (safe_get_task ev.1 task_id st).2
  | OpRemove task_id => safe_remove_task ev.1 task_id st
  | OpCleanup => (cleanup_expired_tasks ev.1 st).2
  | OpWrite l v => Registry (heap_write (heap st) l v) (task_memory st) (memory_ttl st)
  end.

Definition run (trace : list (Z * op)) (st : registry) : registry :=
  foldl step st trace.

(** The time-driven removals only: a reclaim pass, or a read of any id. *)
Inductive timed_op : Type :=
| Reclaim
| Read (task_id : string).

Definition timed_step (st : registry) (ev : Z * timed_op) : registry :=
  match ev.2 with
  | Reclaim => (cleanup_expired_tasks ev.1 st).2
  | Read task_id => (safe_get_task ev.1 task_id st).2
  end.

(** *** A small heap to run the registry on: a job being processed at
    location 1 and the same job once completed, with its rendered
    document, at location 2. *)
Definition sample_heap : loc → pyval :=
  λ l, if decide (l = 2%positive)
       then PyDict [("status", PyStr "completed");
                    ("file_content", PyStr "docx bytes");
                    ("user", PyInt 1)]
       else PyDict [("status", PyStr "processing"); ("user", PyInt 1)].

(** A heap whose payloads carry a rendered document and no status field
    of their own. *)
Definition statusless_heap : loc → pyval :=
  λ _, PyDict [("file_content", PyStr "docx bytes"); ("user", PyInt 1)].

End MemoryManager.


(* ===================================================================== *)
(** ** routers/reports.py: cache admission in [parse_and_generate_report] *)
(* ===================================================================== *)

Module Reports.
Import Py.

(** What [Path.exists], [Path.is_file] and [Path.stat] report for a path;
    [None] when the path does not exist. *)
Record path_info : Type := PathInfo {
  is_file : bool;
  st_mtime : Z
}.

Definition filesystem := string → option path_info.

(** [cache_path.exists() and cache_path.is_file()] *)
Definition exists_and_is_file (fs : filesystem) (cache_file : string) : bool :=
  match fs cache_file with
  | Some info => is_file info
  | None => false
  end.

(** [cache_path.stat().st_mtime], read only after the test above. *)
Definition mtime_of (fs : filesystem) (cache_file : string) : Z :=
  match fs cache_file with
  | Some info => st_mtime info
  | None => 0
  end.

(** [int(os.getenv("TODAY_CACHE_MAX_AGE_SEC", "300"))]; the builtin [int]
    is the parameter [py_int], [None] standing for its [ValueError]. *)
Definition today_cache_max_age (py_int : string → option Z)
    (environ : gmap string string) : option Z :=
  py_int (default "300" (environ !! "TODAY_CACHE_MAX_AGE_SEC")).

(** The block computing [use_cache] before the lock is taken.  [None]: the
    handler left through the [ValueError] of [int]. *)
Definition use_cache (py_int : string → option Z) (environ : gmap string string)
    (fs : filesystem) (cache_file : string) (period : pyval) (now : Z)
  : option bool :=
  if exists_and_is_file fs cache_file then
    if eq_str period "today" then
      match today_cache_max_age py_int environ with
      | Some max_age =>
          let age := now - mtime_of fs cache_file in
          Some (age <=? max_age)
      | None => None
      end
    else Some true
  else Some false.

(** The same test repeated once [PARSER_LOCK] is held. *)
Definition use_cache_after_wait (py_int : string → option Z)
    (environ : gmap string string) (fs : filesystem) (cache_file : string)
    (period : pyval) (now : Z) : option bool :=
  if exists_and_is_file fs cache_file then
    if eq_str period "today" then
      match today_cache_max_age py_int environ with
      | Some max_age =>
          let age := now - mtime_of fs cache_file in
          Some (age <=? max_age)
      | None => None
      end
    else Some true
  else Some false.

(** A reader of plain decimal digit strings, one possible [py_int]. *)
Definition digit_value (c : ascii) : option Z :=
  let n := Z.of_nat (nat_of_ascii c) in
  if (48 <=? n) && (n <=? 57) then Some (n - 48) else None.

Fixpoint decimal_digits (acc : Z) (s : string) : option Z :=
  match s with
  | EmptyString => Some acc
  | String c s' =>
      match digit_value c with
      | Some d => decimal_digits (10 * acc + d) s'
      | None => None
      end
  end.

Definition decimal_int (s : string) : option Z :=
  match s with
  | EmptyString => None
  | _ => decimal_digits 0 s
  end.

End Reports.

(* ===================================================================== *)
(** ** services/file_cleaner.py                                           *)
(* ===================================================================== *)

Module FileCleaner.

Definition TARGET_DIRECTORY : string := "/data/raw_parses".

Definition FORBIDDEN_PATHS : list string :=
  ["/data/temp"; "/data/telegram_parser_session"].

(** [s.split("/")] *)
Fixpoint split_slash (s : string) : list string :=
  match s with
  | EmptyString => [EmptyString]
  | String c s' =>
      if Ascii.eqb c "/" then EmptyString :: split_slash s'
      else match split_slash s' with
           | comp :: rest => String c comp :: rest
           | [] => [String c EmptyString]
           end
  end.

(** ["/".join(comps)] *)
Fixpoint join_slash (comps : list string) : string :=
  match comps with
  | [] => EmptyString
  | [comp] => comp
  | comp :: rest => comp +:+ "/" +:+ join_slash rest
  end.

(** [posixpath.normpath] of the Python standard library, statement by
    statement: one or two leading slashes are kept (three or more count as
    one), empty and ["."] components are dropped, [".."] pops the previous
    component where there is one to pop. *)
Definition initial_slashes (path : string) : nat :=
  if String.prefix "/" path then
    if String.prefix "//" path && negb (String.prefix "///" path) then 2%nat
    else 1%nat
  else 0%nat.

Definition is_empty (comps : list string) : bool :=
  match comps with [] => true | _ => false end.

Definition normpath_step (initial : nat) (new_comps : list string)
    (comp : string) : list string :=
  if String.eqb comp EmptyString || String.eqb comp "." then new_comps
  else if negb (String.eqb comp "..")
          || ((initial =? 0)%nat && is_empty new_comps)
          || (negb (is_empty new_comps)
              && String.eqb (List.last new_comps EmptyString) "..")
       then new_comps ++ [comp]
       else if negb (is_empty new_comps) then removelast new_comps
            else new_comps.

Definition normpath (path : string) : string :=
  if String.eqb path EmptyString then "."
  else
    let initial := initial_slashes path in
    let comps := foldl (normpath_step initial) [] (split_slash path) in
    let joined := join_slash comps in
    let result :=
      match initial with
      | O => joined
      | S O => "/" +:+ joined
      | _ => "//" +:+ joined
      end in
    if String.eqb result EmptyString then "." else result.

(** [os.path.join(root, filename)] for two arguments. *)
Definition path_join (root filename : string) : string :=
  if String.prefix "/" filename then filename
  else if String.eqb root EmptyString then filename
  else match String.get (String.length root - 1) root with
       | Some c => if Ascii.eqb c "/" then root +:+ filename
                   else root +:+ "/" +:+ filename
       | None => root +:+ "/" +:+ filename
       end.

Definition is_path_safe (filepath : string) : bool :=
  let normalized_path := normpath filepath in
  if negb (String.prefix TARGET_DIRECTORY normalized_path) then false
  else if existsb (λ forbidden, String.prefix forbidden normalized_path)
                  FORBIDDEN_PATHS then false
  else true.

(** What the comment above the first test of [is_path_safe] asks for: the
    normalized path is the directory itself or lies below it. *)
Definition inside_directory (directory normalized_path : string) : bool :=
  String.eqb normalized_path directory
  || String.prefix (directory +:+ "/") normalized_path.

(** [os.stat]: modification time and size, [None] for [OSError]. *)
Record stat_result : Type := StatResult {
  st_mtime : Z;
  st_size : Z
}.

(** [datetime.fromtimestamp(file_mtime, tz)]: it returns, raises
    [OSError], or raises [ValueError] or [OverflowError] (a modification
    time outside the years of [datetime]), which are no [OSError]. *)
Inductive fromtimestamp_outcome : Type :=
| Rendered
| RaisesOSError
| RaisesValueError.

(** The entry the outer handler of [cleanup_old_files] appends. *)
Definition SCAN_ERROR : string := "scan".

(** The counters and lists of [cleanup_old_files], and with them the paths
    [os.remove] was called on and did not fail for, in call order.
    [errors] has one entry for each message the source appends: the path
    the message names, [SCAN_ERROR] for the message of the outer handler;
    the texts of the exceptions are not kept. *)
Record cleanup_result : Type := CleanupResult {
  deleted_count : nat;
  freed_bytes : Z;
  deleted_files : list string;
  errors : list string;
  removed_files : list string
}.

(** How the body of the inner loop is left: on to the next file, or by an
    exception that the inner handler does not catch. *)
Inductive visit_outcome : Type :=
| Continues (acc : cleanup_result)
| Escapes (acc : cleanup_result).

Definition result_of (o : visit_outcome) : cleanup_result :=
  match o with
  | Continues acc => acc
  | Escapes acc => acc
  end.

(** Body of the inner loop of [cleanup_old_files] for one file; [os_stat]
    and [os_remove] answer [None] and [false] where the calls raise
    [OSError].  The counters are updated right after [os.remove];
    [fromtimestamp] is evaluated after that, for the entry that is then
    appended to [deleted_files]. *)
Definition visit_file (os_stat : string → option stat_result)
    (os_remove : string → bool) (fromtimestamp : Z → fromtimestamp_outcome)
    (cutoff_timestamp : Z)
    (acc : cleanup_result) (filepath : string) : visit_outcome :=
  if negb (is_path_safe filepath) then Continues acc
  else
    match os_stat filepath with
    | Some stat_info =>
        if st_mtime stat_info <? cutoff_timestamp then
          if os_remove filepath then
            let count := S (deleted_count acc) in
            let bytes := freed_bytes acc + st_size stat_info in
            let removed := removed_files acc ++ [filepath] in
            match fromtimestamp (st_mtime stat_info) with
            | Rendered =>
                Continues (CleanupResult count bytes
                             (deleted_files acc ++ [filepath])
                             (errors acc) removed)
            | RaisesOSError =>
                Continues (CleanupResult count bytes (deleted_files acc)
                             (errors acc ++ [filepath]) removed)
            | RaisesValueError =>
                Escapes (CleanupResult count bytes (deleted_files acc)
                           (errors acc) removed)
            end
          else
            Continues (CleanupResult (deleted_count acc) (freed_bytes acc)
                         (deleted_files acc) (errors acc ++ [filepath])
                         (removed_files acc))
        else Continues acc
    | None =>
        Continues (CleanupResult (deleted_count acc) (freed_bytes acc)
                     (deleted_files acc) (errors acc ++ [filepath])
                     (removed_files acc))
    end.

(** [for filename in files: ...] for one directory of the walk. *)
Fixpoint visit_files (os_stat : string → option stat_result)
    (os_remove : string → bool) (fromtimestamp : Z → fromtimestamp_outcome)
    (cutoff_timestamp : Z) (root : string) (files : list string)
    (acc : cleanup_result) : visit_outcome :=
  match files with
  | [] => Continues acc
  | filename :: rest =>
      match visit_file os_stat os_remove fromtimestamp cutoff_timestamp acc
                       (path_join root filename) with
      | Continues acc' =>
          visit_files os_stat os_remove fromtimestamp cutoff_timestamp
                      root rest acc'
      | Escapes acc' => Escapes acc'
      end
  end.

(** [for root, dirs, files in os.walk(TARGET_DIRECTORY): ...] *)
Fixpoint visit_walk (os_stat : string → option stat_result)
    (os_remove : string → bool) (fromtimestamp : Z → fromtimestamp_outcome)
    (cutoff_timestamp : Z) (walk : list (string * list string))
    (acc : cleanup_result) : visit_outcome :=
  match walk with
  | [] => Continues acc
  | entry :: rest =>
      match visit_files os_stat os_remove fromtimestamp cutoff_timestamp
                        entry.1 entry.2 acc with
      | Continues acc' =>
          visit_walk os_stat os_remove fromtimestamp cutoff_timestamp
                     rest acc'
      | Escapes acc' => Escapes acc'
      end
  end.

(** [cleanup_old_files()]; [walk] is what [os.walk(TARGET_DIRECTORY)]
    yields, as pairs of a directory and the file names in it.  An
    exception that escapes the inner handler ends the walk in the outer
    one. *)
Definition cleanup_old_files (target_exists : bool)
    (walk : list (string * list string))
    (os_stat : string → option stat_result) (os_remove : string → bool)
    (fromtimestamp : Z → fromtimestamp_outcome)
    (cutoff_timestamp : Z) : cleanup_result :=
  if negb target_exists then
    CleanupResult 0 0 [] ["Directory not found: " +:+ TARGET_DIRECTORY] []
  else
    match visit_walk os_stat os_remove fromtimestamp cutoff_timestamp walk
                     (CleanupResult 0 0 [] [] []) with
    | Continues acc => acc
    | Escapes acc =>
        CleanupResult (deleted_count acc) (freed_bytes acc)
                      (deleted_files acc) (errors acc ++ [SCAN_ERROR])
                      (removed_files acc)
    end.

End FileCleaner.

(* ===================================================================== *)
(** ** services/report_generator.py: the truncated-JSON fallback          *)
(* ===================================================================== *)

Module ReportGenerator.

(** A Python [str] as the sequence of its characters. *)
Definition text := list ascii.

Definition dquote : ascii := "034"%char.
Definition backslash : ascii := "092"%char.
Definition lbrace : ascii := "{"%char.
Definition rbrace : ascii := "}"%char.
Definition lbracket : ascii := "["%char.
Definition rbracket : ascii := "]"%char.

(** The seven characters of the literal searched for first: items, quoted. *)
Definition items_key : text :=
  dquote :: String.list_ascii_of_string "items" ++ [dquote].

Fixpoint starts_with (sub s : text) : bool :=
  match sub, s with
  | [], _ => true
  | _ :: _, [] => false
  | a :: sub', b :: s' => Ascii.eqb a b && starts_with sub' s'
  end.

(** Leftmost occurrence of [sub] in [s], where [s] starts at index [i]. *)
Fixpoint find_in (sub s : text) (i : nat) : option nat :=
  if starts_with sub s then Some i
  else match s with
       | [] => None
       | _ :: s' => find_in sub s' (S i)
       end.

(** [s.find(sub, start)], [None] for [-1]. *)
Definition str_find (s sub : text) (start : nat) : option nat :=
  find_in sub (drop start s) start.

(** Rightmost occurrence, for [s.rfind(sub)]. *)
Fixpoint rfind_in (sub s : text) (i : nat) : option nat :=
  match s with
  | [] => if starts_with sub s then Some i else None
  | _ :: s' =>
      match rfind_in sub s' (S i) with
      | Some j => Some j
      | None => if starts_with sub s then Some i else None
      end
  end.

Definition str_rfind (s sub : text) : option nat := rfind_in sub s 0.

(** [s[start:stop]] for indices within range. *)
Definition slice (s : text) (start stop : nat) : text :=
  take (stop - start) (drop start s).

Section Fallback.
Context {Value : Type}.

(** [json.loads]; [None] stands for [json.JSONDecodeError]. *)
Variable json_loads : text → option Value.

(** The three library steps of [sanitize_json_response]: [str.strip] and
    the two [re.sub] calls that drop the opening and the closing code
    fence. *)
Variable py_strip : text → text.
Variable drop_opening_fence : text → text.
Variable drop_closing_fence : text → text.

Definition sanitize_json_response (raw : text) : text :=
  match raw with
  | [] => raw
  | _ =>
      let text1 := py_strip raw in
      let text2 := drop_opening_fence text1 in
      let text3 := drop_closing_fence text2 in
      let text4 :=
        match str_find text3 [lbrace] 0, str_rfind text3 [rbrace] with
        | Some first_brace, Some last_brace =>
            if (first_brace <? last_brace)%nat
            then slice text3 first_brace (last_brace + 1)
            else text3
        | _, _ => text3
        end in
      py_strip text4
  end.

(** The [while i < n] loop of [extract_items_from_truncated_json]: [rest]
    is [whole[i:]], the other arguments are the loop variables.  A [break]
    returns [results] at once. *)
Fixpoint scan (whole rest : text) (i : nat) (in_string escape : bool)
    (brace_depth : nat) (current_start : option nat) (results : list Value)
  : list Value :=
  match rest with
  | [] => results
  | ch :: rest' =>
      if in_string then
        if escape then
          scan whole rest' (S i) true false brace_depth current_start results
        else if Ascii.eqb ch backslash then
          scan whole rest' (S i) true true brace_depth current_start results
        else if Ascii.eqb ch dquote then
          scan whole rest' (S i) false escape brace_depth current_start results
        else
          scan whole rest' (S i) true escape brace_depth current_start results
      else if Ascii.eqb ch dquote then
        scan whole rest' (S i) true escape brace_depth current_start results
      else if Ascii.eqb ch lbrace then
        scan whole rest' (S i) false escape (S brace_depth)
             (if (brace_depth =? 0)%nat then Some i else current_start) results
      else if Ascii.eqb ch rbrace then
        if (0 <? brace_depth)%nat then
          let brace_depth' := (brace_depth - 1)%nat in
          match (brace_depth' =? 0)%nat, current_start with
          | true, Some start =>
              let obj_text := slice whole start (i + 1) in
              let results' :=
                match json_loads obj_text with
                | Some obj => results ++ [obj]
                | None => results
                end in
              scan whole rest' (S i) false escape brace_depth' None results'
          | _, _ =>
              scan whole rest' (S i) false escape brace_depth' current_start results
          end
        else
          scan whole rest' (S i) false escape brace_depth current_start results
      else if Ascii.eqb ch rbracket then
        if (brace_depth =? 0)%nat then results
        else scan whole rest' (S i) false escape brace_depth current_start results
      else
        scan whole rest' (S i) false escape brace_depth current_start results
  end.

(** The records one brace pair contributes: its parse, or nothing when
    [json.loads] rejects it. *)
Definition salvaged (obj_text : text) : list Value :=
  match json_loads obj_text with
  | Some obj => [obj]
  | None => []
  end.

Definition extract_items_from_truncated_json (whole : text) : list Value :=
  match str_find whole items_key 0 with
  | None => []
  | Some key_pos =>
      match str_find whole [lbracket] key_pos with
      | None => []
      | Some bracket_pos =>
          scan whole (drop (bracket_pos + 1) whole) (bracket_pos + 1)
               false false 0 None []
      end
  end.

(** What [generate_report_data] hands back once the provider has answered:
    the parsed response or the salvaged records, each with the generation
    date added, or the [ValueError] with the text it quotes. *)
Inductive report : Type :=
| ParsedReport (report_data : Value) (generation_date : text)
| SalvagedReport (items : list Value) (generation_date : text).

Inductive outcome : Type :=
| Returned (r : report)
| RaisedValueError (error_text : text).

Definition generate_report_data (raw_response today : text) : outcome :=
  let clean_response := sanitize_json_response raw_response in
  match json_loads clean_response with
  | Some report_data => Returned (ParsedReport report_data today)
  | None =>
      let raw_text :=
        match raw_response with
        | [] => []
        | _ => sanitize_json_response raw_response
        end in
      let parsed_items := extract_items_from_truncated_json raw_text in
      match parsed_items with
      | [] =>
          RaisedValueError
            (match raw_text with
             | [] => String.list_ascii_of_string "No response"
             | _ => take 500 raw_text
             end)
      | _ => Returned (SalvagedReport parsed_items today)
      end
  end.

End Fallback.

(** *** The shape of a truncated items array

    These predicates describe texts, independently of the scanner. *)

(** The rest of a string literal after its opening quote, closing quote
    included; a backslash escapes the next character. *)
Inductive string_tail : text → Prop :=
| string_close : string_tail [dquote]
| string_escape c t : string_tail t → string_tail (backslash :: c :: t)
| string_char c t :
    c ≠ backslash → c ≠ dquote → string_tail t → string_tail (c :: t).

(** A string literal cut before its closing quote. *)
Inductive string_cut : text → Prop :=
| cut_here : string_cut []
| cut_after_backslash : string_cut [backslash]
| cut_escape c t : string_cut t → string_cut (backslash :: c :: t)
| cut_char c t :
    c ≠ backslash → c ≠ dquote → string_cut t → string_cut (c :: t).

(** Neither a quote nor a brace. *)
Definition plain (c : ascii) : Prop :=
  c ≠ dquote ∧ c ≠ lbrace ∧ c ≠ rbrace.

(** What may stand between two records of the array: neither a quote, a
    brace, nor the closing bracket. *)
Definition separator (c : ascii) : Prop :=
  plain c ∧ c ≠ rbracket.

(** Text between a pair of matching braces: plain characters, string
    literals and nested brace pairs. *)
Inductive balanced : text → Prop :=
| balanced_nil : balanced []
| balanced_plain c t : plain c → balanced t → balanced (c :: t)
| balanced_string s t :
    string_tail s → balanced t → balanced (dquote :: s ++ t)
| balanced_braces b t :
    balanced b → balanced t → balanced (lbrace :: b ++ rbrace :: t).

(** A complete record: a brace pair with balanced content. *)
Inductive complete_object : text → Prop :=
| complete_braces b : balanced b → complete_object (lbrace :: b ++ [rbrace]).

(** The content of a record whose closing brace never comes: the text ends
    inside the record, possibly inside a string or a nested record. *)
Inductive unfinished : text → Prop :=
| unfinished_end : unfinished []
| unfinished_plain c t : plain c → unfinished t → unfinished (c :: t)
| unfinished_string s t :
    string_tail s → unfinished t → unfinished (dquote :: s ++ t)
| unfinished_in_string s : string_cut s → unfinished (dquote :: s)
| unfinished_braces b t :
    balanced b → unfinished t → unfinished (lbrace :: b ++ rbrace :: t)
| unfinished_nested t : unfinished t → unfinished (lbrace :: t).

(** What follows the last complete record: separators up to the end of the
    text, the closing bracket of the array, or a record cut short. *)
Inductive array_tail : text → Prop :=
| tail_end s : Forall separator s → array_tail s
| tail_closed s r : Forall separator s → array_tail (s ++ rbracket :: r)
| tail_cut s t :
    Forall separator s → unfinished t → array_tail (s ++ lbrace :: t).

(** The text of an array body: each record preceded by its separators. *)
Definition array_body (records : list (text * text)) : text :=
  concat (map (λ so, so.1 ++ so.2) records).

(** *** A stand-in for [json.loads], to run the fallback on examples: it
    accepts a text exactly when its braces and brackets nest properly
    outside string literals, and hands the text back as the value. *)
Fixpoint nesting_ok (s : text) (in_string escape : bool) (stack : list ascii)
  : bool :=
  match s with
  | [] => negb in_string && match stack with [] => true | _ => false end
  | ch :: s' =>
      if in_string then
        if escape then nesting_ok s' true false stack
        else if Ascii.eqb ch backslash then nesting_ok s' true true stack
        else if Ascii.eqb ch dquote then nesting_ok s' false false stack
        else nesting_ok s' true false stack
      else if Ascii.eqb ch dquote then nesting_ok s' true false stack
      else if Ascii.eqb ch lbrace || Ascii.eqb ch lbracket then
        nesting_ok s' false false (ch :: stack)
      else if Ascii.eqb ch rbrace then
        match stack with
        | top :: stack' => Ascii.eqb top lbrace && nesting_ok s' false false stack'
        | [] => false
        end
      else if Ascii.eqb ch rbracket then
        match stack with
        | top :: stack' => Ascii.eqb top lbracket && nesting_ok s' false false stack'
        | [] => false
        end
      else nesting_ok s' false false stack
  end.

Definition loads_if_nested (s : text) : option text :=
  match s with
  | [] => None
  | _ => if nesting_ok s false false [] then Some s else None
  end.

(** *** A truncated response to run the fallback on.

    It opens an object with an items array holding two complete records
    (keys a and b) and a third record, with a nested object, cut inside a
    string. *)
Definition str (s : string) : text := String.list_ascii_of_string s.

Definition quoted (s : string) : text := dquote :: str s ++ [dquote].

Definition sample_record_a : text := str "{" ++ quoted "a" ++ str ":1}".

Definition sample_record_b : text := str "{" ++ quoted "b" ++ str ":2}".

Definition sample_cut_record : text :=
  quoted "c" ++ str ": {" ++ quoted "d" ++ str ":3}".

Definition sample_response : text :=
  str "{" ++ quoted "items" ++ str ": [" ++ sample_record_a ++ str ", "
    ++ sample_record_b ++ str ", {" ++ sample_cut_record
    ++ str ", " ++ quoted "e" ++ str ": " ++ [dquote] ++ str "x".

End ReportGenerator.

(* ===================================================================== *)
(** ** The scrape serializer: [PARSER_LOCK] and the three scraping routes *)
(* ===================================================================== *)

Module Serializer.

(** The request handlers that call [parse_telegram_channels]:
    [parse_and_generate_report] of routers/reports.py, and
    [parse_channels] and [parse_and_save] of routers/parser.py. *)
Inductive handler : Type :=
| ParseAndGenerate
| ParseChannels
| ParseAndSave.

(** Where a handler's coroutine stands between two suspension points. *)
Inductive pc : Type :=
| Start       (* request validated, cache file name computed *)
| AwaitLock   (* suspended on [async with PARSER_LOCK] *)
| Locked      (* lock held, cache about to be checked again *)
| Scraping    (* inside [parse_telegram_channels], session open *)
| Saving      (* scrape returned, result being written *)
| Done.       (* left the scraping part of the handler *)

(** What resolves a suspension: the cache test, the lock, the scrape or
    the write coming back. *)
Inductive outcome : Type :=
| Hit
| Miss
| Granted
| Returns
| Raises.

(** One handler's next position and the lock's next value; [None] when
    the outcome cannot occur at that position.

    [parse_and_generate_report]: a usable cache ends the scraping part at
    once; otherwise the handler waits on [async with PARSER_LOCK], is
    granted the lock only when it is free, tests the cache again, and on a
    second miss awaits [parse_telegram_channels] and then the write of the
    cache file.  Leaving the [async with] block, normally or by an
    exception, frees the lock.

    [parse_channels] awaits [parse_telegram_channels] directly (it has no
    cache; [Miss] stands for the request going ahead), [parse_and_save]
    does so unless its cache file exists.  Neither touches the lock. *)
Definition next (h : handler) (p : pc) (o : outcome) (locked : bool)
  : option (pc * bool) :=
  match h, p, o with
  | ParseAndGenerate, Start, Hit => Some (Done, locked)
  | ParseAndGenerate, Start, Miss => Some (AwaitLock, locked)
  | ParseAndGenerate, AwaitLock, Granted =>
      if locked then None else Some (Locked, true)
  | ParseAndGenerate, Locked, Hit => Some (Done, false)
  | ParseAndGenerate, Locked, Miss => Some (Scraping, locked)
  | ParseAndGenerate, Locked, Raises => Some (Done, false)
  | ParseAndGenerate, Scraping, Returns => Some (Saving, locked)
  | ParseAndGenerate, Scraping, Raises => Some (Done, false)
  | ParseAndGenerate, Saving, Returns => Some (Done, false)
  | ParseAndGenerate, Saving, Raises => Some (Done, false)
  | ParseChannels, Start, Miss => Some (Scraping, locked)
  | ParseChannels, Scraping, Returns => Some (Done, locked)
  | ParseChannels, Scraping, Raises => Some (Done, locked)
  | ParseAndSave, Start, Hit => Some (Done, locked)
  | ParseAndSave, Start, Miss => Some (Scraping, locked)
  | ParseAndSave, Scraping, Returns => Some (Saving, locked)
  | ParseAndSave, Scraping, Raises => Some (Done, locked)
  | ParseAndSave, Saving, Returns => Some (Done, locked)
  | ParseAndSave, Saving, Raises => Some (Done, locked)
  | _, _, _ => None
  end.

(** The event loop's view: the lock and every request in flight. *)
Record state : Type := State {
  locked : bool;
  tasks : list (handler * pc)
}.

(** The event loop resumes request [ev.1] with outcome [ev.2]; an event
    that cannot occur leaves the state as it is. *)
Definition exec (st : state) (ev : nat * outcome) : state :=
  match tasks st !! ev.1 with
  | Some (h, p) =>
      match next h p ev.2 (locked st) with
      | Some (p', locked') => State locked' (<[ev.1 := (h, p')]> (tasks st))
      | None => st
      end
  | None => st
  end.

Definition admitted (handlers : list handler) : state :=
  State false (map (λ h, (h, Start)) handlers).

Definition is_scraping (t : handler * pc) : bool :=
  match t.2 with Scraping => true | _ => false end.

Definition holds_lock (t : handler * pc) : bool :=
  match t with
  | (ParseAndGenerate, (Locked | Scraping | Saving)) => true
  | _ => false
  end.

Definition count (f : handler * pc → bool) (l : list (handler * pc)) : nat :=
  length (List.filter f l).

(** The counter of the spec's test: requests inside the external-call
    body. *)
Definition scraping (st : state) : nat := count is_scraping (tasks st).

(** While only [parse_and_generate_report] requests are in flight, the
    lock is held exactly when one request stands between acquiring it and
    leaving the block. *)
Definition gate_invariant (st : state) : Prop :=
  Forall (λ t, t.1 = ParseAndGenerate) (tasks st) ∧
  count holds_lock (tasks st) = Nat.b2n (locked st).

End Serializer.

(* ===================================================================== *)
(** ** services/memory_manager.py: registry statistics                    *)
(* ===================================================================== *)

Module MemoryStats.
Import MemoryManager.

(** The two registry counters of the dictionary [get_memory_stats]
    returns; its other entries ([gc_counts], the [psutil] figures, the
    note) do not depend on the registry. *)
Record memory_stats : Type := MemoryStatsRecord {
  active_tasks_in_ram : nat;
  tasks_with_ttl : nat
}.

Definition get_memory_stats (st : registry) : memory_stats :=
  MemoryStatsRecord (size (task_memory st)) (size (memory_ttl st)).

(** The keys the reclaimer clears in a payload before dropping it. *)
Definition large_fields : list string :=
  ["file_content"; "telegram_text"; "messages"; "report_data"].

End MemoryStats.

(* ===================================================================== *)
(** ** Wall-clock datetimes of one time zone                              *)
(* ===================================================================== *)

Module WallClock.

(** A [datetime] that carries the zone [Europe/Moscow], as the number of
    microseconds of its wall-clock reading since midnight of 0001-01-01,
    the first day [datetime] has.  Python compares and subtracts two aware
    datetimes of one [tzinfo] on their wall-clock readings, and adds a
    [timedelta] to the reading, so this number is all the sources' date
    arithmetic looks at.  An aware datetime of another zone is given by
    the reading of its instant on this wall clock.  The range of years of
    [datetime] is checked where a [timedelta] is subtracted
    ([minus_timedelta]). *)
Definition datetime := Z.

Definition MICROS_PER_SECOND : Z := 1000000.
Definition MICROS_PER_HOUR : Z := 3600 * MICROS_PER_SECOND.
Definition MICROS_PER_DAY : Z := 24 * MICROS_PER_HOUR.

(** [dt.replace(hour=0, minute=0, second=0, microsecond=0)] *)
Definition midnight (dt : datetime) : datetime :=
  dt - dt mod MICROS_PER_DAY.

(** [dt.replace(hour=hour, minute=0, second=0, microsecond=0)]; [None] is
    the [ValueError] for an hour outside 0..23. *)
Definition replace_hour (dt : datetime) (hour : Z) : option datetime :=
  if (0 <=? hour) && (hour <=? 23)
  then Some (midnight dt + hour * MICROS_PER_HOUR)
  else None.

(** [timedelta(days=n)] *)
Definition days_delta (n : Z) : Z := n * MICROS_PER_DAY.

(** One past the last reading of [datetime]: 9999-12-31 is day 3652059
    ([date.max.toordinal()]). *)
Definition MAX_READING : Z := 3652059 * MICROS_PER_DAY.

Definition in_datetime_range (dt : Z) : bool :=
  (0 <=? dt) && (dt <? MAX_READING).

(** [dt - delta] for a [timedelta] of [delta] microseconds; [None] is the
    [OverflowError] of a result outside the years 1 to 9999. *)
Definition minus_timedelta (dt : datetime) (delta : Z) : option datetime :=
  if in_datetime_range (dt - delta) then Some (dt - delta) else None.

End WallClock.

(* ===================================================================== *)
(** ** services/file_cleaner.py: the daily schedule                       *)
(* ===================================================================== *)

Module FileSchedule.
Import WallClock.

(** [calculate_seconds_until_target_time(target_hour)] with the clock
    reading [now]; the result is [delta] in microseconds, of which the
    source returns [delta.total_seconds()]. *)
Definition calculate_seconds_until_target_time (now : datetime)
    (target_hour : Z) : option Z :=
  match replace_hour now target_hour with
  | Some target_today =>
      let target_time :=
        if target_today <=? now then target_today + days_delta 1
        else target_today in
      let delta := target_time - now in
      Some delta
  | None => None
  end.

End FileSchedule.

(* ===================================================================== *)
(** ** Cache file names: routers/reports.py and routers/parser.py         *)
(* ===================================================================== *)

Module CacheFiles.
Import Py.

(** ["/data" if os.environ.get("AMVERA") else "data"] *)
Definition base_path (environ : gmap string string) : string :=
  match environ !! "AMVERA" with
  | Some v => if String.eqb v EmptyString then "data" else "/data"
  | None => "data"
  end.

(** [suffix = "" if channel_source == "source_1" else f"_{channel_source}"],
    for a [channel_source] that is a string. *)
Definition source_suffix (channel_source : string) : string :=
  if String.eqb channel_source "source_1" then EmptyString
  else "_" +:+ channel_source.

(** [days and days > 1], for [days] an integer or absent. *)
Definition several_days (days : option Z) : bool :=
  match days with
  | Some n => negb (n =? 0) && (1 <? n)
  | None => false
  end.

(** The cache file of [parse_and_generate_report]; [start_str] and
    [end_str] are the [strftime("%Y-%m-%d")] texts of the window. *)
Definition cache_file (environ : gmap string string) (channel_source : string)
    (period : pyval) (days : option Z) (start_str end_str : string) : string :=
  let suffix := source_suffix channel_source in
  if eq_str period "today" then
    base_path environ +:+ ("/temp/today_cache" +:+ (suffix +:+ ".json"))
  else if eq_str period "yesterday" then
    base_path environ +:+ ("/raw_parses/" +:+ (start_str +:+ (suffix +:+ ".json")))
  else
    let filename :=
      if several_days days
      then start_str +:+ ("_to_" +:+ (end_str +:+ (suffix +:+ ".json")))
      else start_str +:+ (suffix +:+ ".json") in
    base_path environ +:+ ("/raw_parses/" +:+ filename).

(** The default [output_file] of [parse_and_save]. *)
Definition output_file (environ : gmap string string)
    (period : pyval) (days : option Z) (start_str end_str : string) : string :=
  if eq_str period "today" then
    base_path environ +:+ "/temp/today_cache.json"
  else
    let filename :=
      if several_days days
      then start_str +:+ ("_to_" +:+ (end_str +:+ ".json"))
      else start_str +:+ ".json" in
    base_path environ +:+ ("/raw_parses/" +:+ filename).

(** No path separator in a text. *)
Fixpoint no_slash (s : string) : bool :=
  match s with
  | EmptyString => true
  | String c s' => negb (Ascii.eqb c "/") && no_slash s'
  end.

(** A path component that [normpath] keeps as it is: not empty, not a dot
    or two dots, and free of separators. *)
Definition plain_component (comp : string) : Prop :=
  no_slash comp = true ∧ comp ≠ EmptyString ∧ comp ≠ "." ∧ comp ≠ "..".

End CacheFiles.

(* ===================================================================== *)
(** ** services/telegram_parser.py                                        *)
(* ===================================================================== *)

Module TelegramParser.
Import Py WallClock.

(** What the loop of [parse_channel] reads of one item of
    [client.iter_messages]: whether it is a [Message] (and not a service
    item), its id, its date, and its text (empty for no text). *)
Record tg_message : Type := TgMessage {
  is_message : bool;
  message_id : Z;
  message_date : datetime;
  message_text : string
}.

(** One step of the asynchronous iterator: the next item, or an exception
    raised while fetching it. *)
Inductive fetched : Type :=
| Got (message : tg_message)
| Failed.

(** The dictionary appended to [collected_messages]; the date is kept as
    the datetime whose [isoformat()] the source stores. *)
Record collected : Type := Collected {
  channel_name : string;
  collected_id : Z;
  publication_date : datetime;
  text : string
}.

Definition has_text (m : tg_message) : bool :=
  is_message m && negb (String.eqb (message_text m) EmptyString).

(** A bound of the window as a caller passes it.  [calculate_date_range]
    gives datetimes that carry a zone; [datetime.fromisoformat] of a text
    of the request gives one without an offset when the text has none. *)
Inductive window_bound : Type :=
| WithOffset (dt : datetime)
| WithoutOffset (reading : Z).

(** [message_date < bound] and [message_date >= bound] for the date of a
    message, which carries a zone; [None] is the [TypeError] of comparing
    it with a datetime that has no offset. *)
Definition date_lt (message_date : datetime) (bound : window_bound)
  : option bool :=
  match bound with
  | WithOffset dt => Some (message_date <? dt)
  | WithoutOffset _ => None
  end.

Definition date_ge (message_date : datetime) (bound : window_bound)
  : option bool :=
  match bound with
  | WithOffset dt => Some (dt <=? message_date)
  | WithoutOffset _ => None
  end.

(** The [async for] loop; [None] when an exception leaves it.  A message
    older than [start_date] ends the loop ([break]), one at or after
    [end_date] is passed over ([continue]). *)
Fixpoint iter_messages (channel : string) (start_date end_date : window_bound)
    (stream : list fetched) : option (list collected) :=
  match stream with
  | [] => Some []
  | Failed :: _ => None
  | Got m :: rest =>
      match date_lt (message_date m) start_date with
      | None => None
      | Some true => Some []
      | Some false =>
          match date_ge (message_date m) end_date with
          | None => None
          | Some true => iter_messages channel start_date end_date rest
          | Some false =>
              match iter_messages channel start_date end_date rest with
              | Some later =>
                  if has_text m then
                    Some (Collected channel (message_id m) (message_date m)
                                    (message_text m) :: later)
                  else Some later
              | None => None
              end
          end
      end
  end.

(** [parse_channel]: every exception gives the empty list. *)
Definition parse_channel (channel : string)
    (start_date end_date : window_bound)
    (stream : list fetched) : list collected :=
  default [] (iter_messages channel start_date end_date stream).

Definition source_map : list (string * string) :=
  [("source_1", "source_1.json"); ("source_2", "source_2.json");
   ("source_3", "source_3.json"); ("source_4", "source_4.json");
   ("source_5", "source_5.json"); ("source_6", "source_6.json")].

(** [source_map.get(channel_source, "source_1.json")] *)
Fixpoint map_get (m : list (string * string)) (key default_value : string)
  : string :=
  match m with
  | [] => default_value
  | (k, v) :: rest =>
      if String.eqb k key then v else map_get rest key default_value
  end.

(** [f"/data/{file_name}" if "AMVERA" in os.environ else file_name] *)
Definition channels_path (environ : gmap string string)
    (channel_source : string) : string :=
  let file_name := map_get source_map channel_source "source_1.json" in
  match environ !! "AMVERA" with
  | Some _ => "/data/" +:+ file_name
  | None => file_name
  end.

Inductive parse_outcome : Type :=
| Parsed (messages : list collected)
| FileNotFoundError (path : string)
| JsonValueError (path : string)
| CredentialsValueError.

(** [parse_telegram_channels]: [read_channels] is the channel file read
    and decoded ([None]: no such file, [Some None]: not JSON), [api_id]
    and [api_hash] the module constants, [streams] what the client yields
    for each channel. *)
Definition parse_telegram_channels (environ : gmap string string)
    (read_channels : string → option (option (list string)))
    (api_id : Z) (api_hash : string) (streams : string → list fetched)
    (start_date end_date : window_bound) (channel_source : string)
  : parse_outcome :=
  let path := channels_path environ channel_source in
  match read_channels path with
  | None => FileNotFoundError path
  | Some None => JsonValueError path
  | Some (Some channels) =>
      if (api_id =? 0) || String.eqb api_hash EmptyString
      then CredentialsValueError
      else
        Parsed (concat (map (λ channel,
                               parse_channel channel start_date end_date
                                             (streams channel))
                            channels))
  end.

Inductive range_outcome : Type :=
| Range (start_date end_date : datetime)
| RangeValueError
| RangeTypeError
| RangeOverflowError.

(** What [timedelta(days=x)] makes of a [float]: a number of
    microseconds, an [OverflowError] (too many days, an infinity) or a
    [ValueError] (a NaN). *)
Inductive float_delta : Type :=
| FloatDelta (micros : Z)
| FloatOverflowError
| FloatValueError.

(** The [days] of a request: an object of the fragment [pyval], or a
    [float], of which the function reads whether it is zero and what
    [timedelta(days=...)] makes of it. *)
Inductive days_value : Type :=
| DaysObject (v : pyval)
| DaysFloat (is_zero : bool) (delta : float_delta).

(** [bool(days)] *)
Definition days_truthy (days : days_value) : bool :=
  match days with
  | DaysObject v => truthy v
  | DaysFloat is_zero _ => negb is_zero
  end.

Inductive timedelta_outcome : Type :=
| Delta (micros : Z)
| DeltaOverflowError
| DeltaValueError
| DeltaTypeError.

(** [timedelta(days=days)]: an integer (a [bool] counts as one) of at most
    nine digits or a float gives a [timedelta]; a string, a list, a
    dictionary or [None] is a [TypeError]. *)
Definition days_timedelta (days : days_value) : timedelta_outcome :=
  match days with
  | DaysObject (PyInt n) =>
      if (-999999999 <=? n) && (n <=? 999999999)
      then Delta (days_delta n) else DeltaOverflowError
  | DaysObject (PyBool b) => Delta (days_delta (if b then 1 else 0))
  | DaysObject _ => DeltaTypeError
  | DaysFloat _ (FloatDelta micros) => Delta micros
  | DaysFloat _ FloatOverflowError => DeltaOverflowError
  | DaysFloat _ FloatValueError => DeltaValueError
  end.

(** [calculate_date_range(days, period)] at the clock reading [now].
    [RangeValueError] is the [ValueError] of the last branch and the one
    [timedelta] raises for a NaN. *)
Definition calculate_date_range (now : datetime) (days : days_value)
    (period : pyval) : range_outcome :=
  if eq_str period "today" then Range (midnight now) now
  else if eq_str period "yesterday" then
    match minus_timedelta (midnight now) (days_delta 1) with
    | Some start_date => Range start_date (midnight now)
    | None => RangeOverflowError
    end
  else if days_truthy days then
    match days_timedelta days with
    | Delta delta =>
        match minus_timedelta (midnight now) delta with
        | Some start_date => Range start_date (midnight now)
        | None => RangeOverflowError
        end
    | DeltaOverflowError => RangeOverflowError
    | DeltaValueError => RangeValueError
    | DeltaTypeError => RangeTypeError
    end
  else RangeValueError.

(** Dates from newest to oldest, as [iter_messages] of the client hands
    the messages out. *)
Fixpoint newest_first (stream : list tg_message) : Prop :=
  match stream with
  | [] => True
  | m :: rest =>
      Forall (λ m', message_date m' ≤ message_date m) rest ∧ newest_first rest
  end.

(** The messages of a window that carry text, as collected entries. *)
Definition in_window (start_date end_date : datetime) (m : tg_message) : bool :=
  (start_date <=? message_date m) && (message_date m <? end_date).

Definition textual_in_window (channel : string)
    (start_date end_date : datetime) (stream : list tg_message)
  : list collected :=
  map (λ m, Collected channel (message_id m) (message_date m) (message_text m))
      (List.filter (λ m, in_window start_date end_date m && has_text m) stream).

(** A channel with a message of today at 10:00, two of yesterday (one
    without text) and one of the day before. *)
Definition example_stream : list tg_message :=
  [TgMessage true 14 (2 * MICROS_PER_DAY + 10 * MICROS_PER_HOUR) "d";
   TgMessage true 13 (1 * MICROS_PER_DAY + 20 * MICROS_PER_HOUR) "c";
   TgMessage true 12 (1 * MICROS_PER_DAY + 9 * MICROS_PER_HOUR) EmptyString;
   TgMessage true 11 (0 * MICROS_PER_DAY + 23 * MICROS_PER_HOUR) "a"].

End TelegramParser.

(* ===================================================================== *)
(** ** services/llm_providers.py: model aliases and the provider factory  *)
(* ===================================================================== *)

Module Providers.
Import Py.

(** [MODEL_MAPPING]: alias to the model ids of the two providers. *)
Record model_ids : Type := ModelIds {
  google : string;
  polza : string
}.

Definition MODEL_MAPPING : list (string * model_ids) :=
  [("flash_2_5", ModelIds "gemini-2.5-flash" "google/gemini-2.5-flash");
   ("flash_3_0", ModelIds "gemini-3-flash-preview" "google/gemini-3-flash-preview")].

Definition DEFAULT_MODEL_ALIAS : string := "flash_2_5".

(** [MODEL_MAPPING[alias]], [None] for [KeyError]. *)
Fixpoint mapping_get (m : list (string * model_ids)) (alias : string)
  : option model_ids :=
  match m with
  | [] => None
  | (k, v) :: rest => if String.eqb k alias then Some v else mapping_get rest alias
  end.

(** [BaseLLMProvider.__init__]: [model_alias or DEFAULT_MODEL_ALIAS], then
    the default again for an alias the mapping does not know. *)
Definition init_alias (model_alias : option string) : string :=
  let chosen :=
    match model_alias with
    | Some a => if String.eqb a EmptyString then DEFAULT_MODEL_ALIAS else a
    | None => DEFAULT_MODEL_ALIAS
    end in
  match mapping_get MODEL_MAPPING chosen with
  | Some _ => chosen
  | None => DEFAULT_MODEL_ALIAS
  end.

Inductive provider : Type :=
| GeminiProvider (model_alias : string)
| PolzaProvider (model_alias : string).

(** [get_provider(provider_mode, model_alias)]; [None] is the [ValueError]
    of [PolzaProvider.__init__] when [POLZA_API_KEY] is empty. *)
Definition get_provider (polza_api_key : string) (provider_mode : pyval)
    (model_alias : option string) : option provider :=
  if eq_str provider_mode "paid" then
    if String.eqb polza_api_key EmptyString then None
    else Some (PolzaProvider (init_alias model_alias))
  else Some (GeminiProvider (init_alias model_alias)).

(** The [model_id] property of the two classes; [None] for [KeyError]. *)
Definition model_id (p : provider) : option string :=
  match p with
  | GeminiProvider alias => google <$> mapping_get MODEL_MAPPING alias
  | PolzaProvider alias => polza <$> mapping_get MODEL_MAPPING alias
  end.

End Providers.

(* ===================================================================== *)
(** ** telegram_bot.py: access list, rate limit and the report dialogue   *)
(* ===================================================================== *)

Module TelegramBot.
Import Py.

(** [s.split(",")] *)
Fixpoint split_comma (s : string) : list string :=
  match s with
  | EmptyString => [EmptyString]
  | String c s' =>
      if Ascii.eqb c "," then EmptyString :: split_comma s'
      else match split_comma s' with
           | part :: rest => String c part :: rest
           | [] => [String c EmptyString]
           end
  end.

Section Access.

(** [str.strip] and the builtin [int] ([None] for its [ValueError]). *)
Variable py_strip : string → string.
Variable py_int : string → option Z.

(** The generator [int(uid.strip()) for uid in ... if uid.strip()] run to
    its end; [None] when one [int] raises. *)
Fixpoint read_ids (parts : list string) : option (list Z) :=
  match parts with
  | [] => Some []
  | uid :: rest =>
      if String.eqb (py_strip uid) EmptyString then read_ids rest
      else match py_int (py_strip uid) with
           | Some n =>
               match read_ids rest with
               | Some ids => Some (n :: ids)
               | None => None
               end
           | None => None
           end
  end.

(** [parse_allowed_users()], the set as the list of its members. *)
Definition parse_allowed_users (ALLOWED_USERS : string) : list Z :=
  if String.eqb ALLOWED_USERS EmptyString then []
  else default [] (read_ids (split_comma ALLOWED_USERS)).

Definition is_user_allowed (ALLOWED_USERS : string) (user_id : Z) : bool :=
  match parse_allowed_users ALLOWED_USERS with
  | [] => true
  | allowed => existsb (Z.eqb user_id) allowed
  end.

(** [get_admin_user_id()] *)
Definition get_admin_user_id (ALLOWED_USERS : string) : option Z :=
  match parse_allowed_users ALLOWED_USERS with
  | [] => None
  | _ =>
      match split_comma ALLOWED_USERS with
      | first :: _ => py_int (py_strip first)
      | [] => None
      end
  end.

End Access.

(** *** Rate limit.  Readings of [monotonic()] in microseconds. *)

Definition RATE_LIMIT : Z := 600000.

(** [rate_limited(user_id)]: the answer and the new [_last_action_at]. *)
Definition rate_limited (now : Z) (user_id : Z) (last_action_at : gmap Z Z)
  : bool * gmap Z Z :=
  let last := default 0 (last_action_at !! user_id) in
  if now - last <? RATE_LIMIT then (true, last_action_at)
  else (false, <[user_id := now]> last_action_at).

(** The clock readings at which the actions of [user] were let through, in
    a sequence of calls [(now, user_id)]. *)
Fixpoint passed_times (user : Z) (last_action_at : gmap Z Z)
    (calls : list (Z * Z)) : list Z :=
  match calls with
  | [] => []
  | (now, user_id) :: rest =>
      let r := rate_limited now user_id last_action_at in
      if (user_id =? user) && negb r.1
      then now :: passed_times user r.2 rest
      else passed_times user r.2 rest
  end.

(** Each reading at least [RATE_LIMIT] after the one before it. *)
Fixpoint spaced (previous : Z) (times : list Z) : Prop :=
  match times with
  | [] => True
  | t :: rest => RATE_LIMIT ≤ t - previous ∧ spaced t rest
  end.

(** *** The dialogue

    One user's FSM context ([state] and [data] of aiogram's storage) and
    the handlers as functions on it.  The calls to the Telegram API are
    taken to return; the task that [model_callback] creates for
    [start_report_generation] is run before the next update is handled. *)

Inductive report_state : Type :=
| choosing_provider_mode
| choosing_channel_source
| choosing_report_type
| choosing_period
| entering_days
| choosing_model.

(** The FSM data of one user: the keys the handlers write. *)
Record fsm_data : Type := FsmData {
  provider_mode : option string;
  channel_source : option string;
  report_type : option string;
  period : option string;
  days : option Z;
  model_alias : option string;
  instruction_message_id : option Z
}.

Definition no_data : fsm_data :=
  FsmData None None None None None None None.

Record dialogue : Type := Dialogue {
  state : option report_state;
  data : fsm_data
}.

(** [state.clear()] *)
Definition cleared : dialogue := Dialogue None no_data.

(** What reaches the dispatcher.  A callback carries the answer of
    [rate_limited] for it and the id of the message it was pressed on; a
    model choice also carries the answer of [can_start_task]. *)
Inductive update : Type :=
| Command (name : string) (allowed : bool)
| Callback (callback_data : string) (limited : bool) (message_id : Z)
           (can_start : bool)
| TextMessage (message_text : string).

(** The JSON body sent to [/api/reports/parse-and-generate]. *)
Record api_params : Type := ApiParams {
  params_report_type : option string;
  params_period : option string;
  params_days : option Z;
  params_channel_source : option string;
  params_model_alias : string;
  params_provider_mode : string
}.

(** [s.replace(old, "")] for a non-empty [old]: [skip] characters of a
    match are still to be dropped. *)
Fixpoint remove_all (old : string) (skip : nat) (s : string) : string :=
  match s with
  | EmptyString => EmptyString
  | String c s' =>
      match skip with
      | S k => remove_all old k s'
      | O =>
          if String.prefix old s
          then remove_all old (String.length old - 1) s'
          else String c (remove_all old 0 s')
      end
  end.

(** [s.replace(old, "", 1)] for an [s] that starts with [old]. *)
Definition remove_first_prefix (old s : string) : string :=
  String.substring (String.length old) (String.length s - String.length old) s.

Definition truthy_text (s : option string) : bool :=
  match s with
  | Some t => negb (String.eqb t EmptyString)
  | None => false
  end.

Definition truthy_days (d : option Z) : bool :=
  match d with
  | Some n => negb (n =? 0)
  | None => false
  end.

(** [start_report_generation]: the request it sends, if any, and the
    dialogue it leaves.  Without a free task slot, or without period and
    days, it returns early and nothing is cleared. *)
Definition start_report_generation (can_start : bool) (d : dialogue)
  : option api_params * dialogue :=
  if negb can_start then (None, d)
  else
    let dt := data d in
    if truthy_text (period dt) || truthy_days (days dt) then
      let params :=
        ApiParams (report_type dt)
                  (if truthy_text (period dt) then period dt else None)
                  (if truthy_text (period dt) then None else days dt)
                  (if truthy_text (channel_source dt) then channel_source dt
                   else None)
                  (default "flash_2_5" (model_alias dt))
                  (default "free" (provider_mode dt)) in
      (Some params, cleared)
    else (None, d).

Section Dialogue.

Variable py_strip : string → string.
(** [str.isdigit] and the builtin [int]. *)
Variable py_isdigit : string → bool.
Variable py_int : string → option Z.

Definition in_state (d : dialogue) (s : report_state) : bool :=
  match state d, s with
  | Some choosing_provider_mode, choosing_provider_mode
  | Some choosing_channel_source, choosing_channel_source
  | Some choosing_report_type, choosing_report_type
  | Some choosing_period, choosing_period
  | Some entering_days, entering_days
  | Some choosing_model, choosing_model => true
  | _, _ => false
  end.

Definition with_state (s : report_state) (dt : fsm_data) : dialogue :=
  Dialogue (Some s) dt.

(** The callback handlers in the order they are registered; the first
    whose filter matches runs, and a rate-limited callback only gets its
    answer. *)
Definition on_callback (callback_data : string) (limited : bool)
    (message_id : Z) (can_start : bool) (d : dialogue)
  : option api_params * dialogue :=
  let dt := data d in
  if String.prefix "mode_" callback_data && in_state d choosing_provider_mode then
    if limited then (None, d)
    else (None, with_state choosing_channel_source
                  (FsmData (Some (remove_all "mode_" 0 callback_data))
                           (channel_source dt) (report_type dt) (period dt)
                           (days dt) (model_alias dt)
                           (instruction_message_id dt)))
  else if String.prefix "source_" callback_data
          && in_state d choosing_channel_source then
    if limited then (None, d)
    else (None, with_state choosing_report_type
                  (FsmData (provider_mode dt)
                           (Some (remove_first_prefix "source_" callback_data))
                           (report_type dt) (period dt) (days dt)
                           (model_alias dt) (instruction_message_id dt)))
  else if String.prefix "type_" callback_data
          && in_state d choosing_report_type then
    if limited then (None, d)
    else (None, with_state choosing_period
                  (FsmData (provider_mode dt) (channel_source dt)
                           (Some (remove_all "type_" 0 callback_data))
                           (period dt) (days dt) (model_alias dt)
                           (instruction_message_id dt)))
  else if String.prefix "period_" callback_data
          && in_state d choosing_period then
    if limited then (None, d)
    else
      let chosen := remove_all "period_" 0 callback_data in
      if String.eqb chosen "today" || String.eqb chosen "yesterday" then
        (None, with_state choosing_model
                 (FsmData (provider_mode dt) (channel_source dt)
                          (report_type dt) (Some chosen) (days dt)
                          (model_alias dt) (instruction_message_id dt)))
      else if String.eqb chosen "manual" then
        (None, with_state entering_days
                 (FsmData (provider_mode dt) (channel_source dt)
                          (report_type dt) (period dt) (days dt)
                          (model_alias dt) (Some message_id)))
      else (None, d)
  else if String.prefix "model_" callback_data
          && in_state d choosing_model then
    if limited then (None, d)
    else
      start_report_generation can_start
        (Dialogue (state d)
           (FsmData (provider_mode dt) (channel_source dt) (report_type dt)
                    (period dt) (days dt)
                    (Some (remove_all "model_" 0 callback_data))
                    (instruction_message_id dt)))
  else if String.eqb callback_data "nav_back_to_period" then
    if limited then (None, d) else (None, with_state choosing_period dt)
  else if String.eqb callback_data "nav_back_to_provider" then
    if limited then (None, d) else (None, with_state choosing_provider_mode dt)
  else if String.eqb callback_data "nav_back" then
    if limited then (None, d) else (None, with_state choosing_report_type dt)
  else if String.eqb callback_data "nav_reset" then
    if limited then (None, d)
    else (None, with_state choosing_provider_mode no_data)
  else if String.eqb callback_data "nav_start" then
    if limited then (None, d)
    else (None, with_state choosing_provider_mode no_data)
  else (None, d).

(** [days_input_handler] *)
Definition on_text (message_text : string) (d : dialogue) : dialogue :=
  if in_state d entering_days then
    let text := py_strip message_text in
    if negb (py_isdigit text) then d
    else
      match py_int text with
      | Some n =>
          if (n <? 1) || (365 <? n) then d
          else
            let dt := data d in
            with_state choosing_model
              (FsmData (provider_mode dt) (channel_source dt) (report_type dt)
                       (period dt) (Some n) (model_alias dt)
                       (instruction_message_id dt))
      | None => d
      end
  else d.

(** [/start] and [/cancel]; the other commands leave the dialogue alone.
    [/cancel] is modelled for a user without a running task. *)
Definition on_command (name : string) (allowed : bool) (d : dialogue)
  : dialogue :=
  if negb allowed then d
  else if String.eqb name "start" then
    with_state choosing_provider_mode no_data
  else if String.eqb name "cancel" then
    match state d with
    | Some _ => cleared
    | None => d
    end
  else d.

Definition handle (d : dialogue) (u : update)
  : option api_params * dialogue :=
  match u with
  | Command name allowed => (None, on_command name allowed d)
  | Callback callback_data limited message_id can_start =>
      on_callback callback_data limited message_id can_start d
  | TextMessage message_text => (None, on_text message_text d)
  end.

(** The requests a sequence of updates produces, and the dialogue left. *)
Fixpoint converse (d : dialogue) (updates : list update)
  : list api_params * dialogue :=
  match updates with
  | [] => ([], d)
  | u :: rest =>
      let r := handle d u in
      let r' := converse r.2 rest in
      (match r.1 with Some p => p :: r'.1 | None => r'.1 end, r'.2)
  end.

End Dialogue.

(** What the handlers store under [period] and [days]. *)
Definition period_written (dt : fsm_data) : Prop :=
  period dt = None ∨ period dt = Some "today" ∨ period dt = Some "yesterday".

Definition days_written (dt : fsm_data) : Prop :=
  match days dt with
  | Some n => 1 ≤ n ≤ 365
  | None => True
  end.

Definition stored_ok (d : dialogue) : Prop :=
  period_written (data d) ∧ days_written (data d).

(** A request names the day by [period] or by [days], never both. *)
Definition request_period_ok (p : api_params) : Prop :=
  ((params_period p = Some "today" ∨ params_period p = Some "yesterday")
   ∧ params_days p = None)
  ∨ (params_period p = None ∧ ∃ n, params_days p = Some n ∧ 1 ≤ n ≤ 365).

End TelegramBot.

(* ===================================================================== *)
(** ** services/file_cleaner.py: the walk of the target directory         *)
(* ===================================================================== *)

Module TargetWalk.
Import FileCleaner CacheFiles.

(** What [os.walk(TARGET_DIRECTORY)] yields: the directory itself and
    directories reached from it through names of directory entries, each
    with names of entries of it.  A name that [os.scandir] reports is not
    empty, not a dot or two dots, and free of separators. *)
Definition walked_directory (root : string) : Prop :=
  ∃ dirs, Forall plain_component dirs
          ∧ root = "/" +:+ join_slash ("data" :: "raw_parses" :: dirs).

Definition walk_of_target (walk : list (string * list string)) : Prop :=
  Forall (λ entry, walked_directory entry.1 ∧ Forall plain_component entry.2)
         walk.

End TargetWalk.
(* ===================================================================== *)
(** ** Properties of the registry and the reclaimer                       *)
(* ===================================================================== *)

Module RegistryProofs.
Import Py MemoryManager.

(** *** The status→TTL table *)

Lemma ttl_rules_lookup (status : string) :
  TASK_TTL_RULES !! status =
    if decide (status = "completed") then Some 300
    else if decide (status = "processing") then Some 0
    else if decide (status = "error") then Some 300
    else if decide (status = "pending") then Some 0
    else None.
Proof.
  unfold TASK_TTL_RULES.
  rewrite !lookup_insert, lookup_empty.
  repeat case_decide; congruence.
Qed.

(** *** Payload dictionaries under the reclaimer's field clearing *)

Lemma dict_get_set_ne d key key' v :
  key ≠ key' → dict_get (dict_set d key v) key' = dict_get d key'.
Proof.
  intros Hne. induction d as [|[k w] d IH]; simpl.
  - destruct (String.eqb_spec key key'); congruence.
  - destruct (String.eqb_spec k key) as [->|Hk]; simpl.
    + destruct (String.eqb_spec key key'); congruence.
    + destruct (String.eqb_spec k key'); auto.
Qed.

Lemma dict_set_nonempty d key v : dict_set d key v ≠ [].
Proof. destruct d as [|[k w] d]; simpl; [|destruct (String.eqb k key)]; discriminate. Qed.

Lemma null_field_status d key :
  key ≠ "status" → dict_get (null_field d key) "status" = dict_get d "status".
Proof.
  intros Hne. unfold null_field.
  destruct (dict_get d key) as [v|]; [|done].
  destruct (truthy v); [|done]. by apply dict_get_set_ne.
Qed.

Lemma null_field_nonempty d key : d ≠ [] → null_field d key ≠ [].
Proof.
  intros Hd. unfold null_field.
  destruct (dict_get d key) as [v|]; [|done].
  destruct (truthy v); [|done]. apply dict_set_nonempty.
Qed.

Lemma clear_large_fields_truthy task :
  truthy (clear_large_fields task) = truthy task.
Proof.
  destruct task as [| | | | |d]; try done.
  unfold clear_large_fields.
  destruct (truthy (PyDict d)) eqn:Ht; [|done].
  assert (d ≠ []) as Hd by (by destruct d).
  simpl foldl.
  pose proof (null_field_nonempty _ "report_data"
    (null_field_nonempty _ "messages"
      (null_field_nonempty _ "telegram_text"
        (null_field_nonempty _ "file_content" Hd)))) as Hne.
  simpl. by destruct (null_field _ "report_data").
Qed.

Lemma clear_large_fields_status task :
  task_status (clear_large_fields task) = task_status task.
Proof.
  destruct task as [| | | | |d]; try done.
  unfold clear_large_fields.
  destruct (truthy (PyDict d)); [|done].
  simpl. by rewrite !null_field_status.
Qed.

(** *** The eviction loop *)

Lemma evict_fold_task_memory ids st (k : string) :
  task_memory (foldl evict st ids) !! k =
    if decide (k ∈ ids) then None else task_memory st !! k.
Proof.
  revert st. induction ids as [|a ids IH]; intros st; simpl.
  - done.
  - rewrite IH. simpl.
    destruct (decide (k ∈ ids)) as [Hin|Hin].
    + rewrite decide_True by set_solver. done.
    + destruct (decide (k = a)) as [->|Hne].
      * rewrite decide_True by set_solver. apply lookup_delete_eq.
      * rewrite decide_False by set_solver. by apply lookup_delete_ne.
Qed.

Lemma evict_fold_memory_ttl ids st (k : string) :
  memory_ttl (foldl evict st ids) !! k =
    if decide (k ∈ ids) then None else memory_ttl st !! k.
Proof.
  revert st. induction ids as [|a ids IH]; intros st; simpl.
  - done.
  - rewrite IH. simpl.
    destruct (decide (k ∈ ids)) as [Hin|Hin].
    + rewrite decide_True by set_solver. done.
    + destruct (decide (k = a)) as [->|Hne].
      * rewrite decide_True by set_solver. apply lookup_delete_eq.
      * rewrite decide_False by set_solver. by apply lookup_delete_ne.
Qed.

Lemma evict_heap st task_id l :
  truthy (heap (evict st task_id) l) = truthy (heap st l) ∧
  task_status (heap (evict st task_id) l) = task_status (heap st l).
Proof.
  unfold evict. simpl.
  destruct (task_memory st !! task_id) as [l0|]; [|done].
  unfold heap_write. case_decide; [subst|done].
  split; [apply clear_large_fields_truthy | apply clear_large_fields_status].
Qed.

Lemma evict_fold_heap ids st l :
  truthy (heap (foldl evict st ids) l) = truthy (heap st l) ∧
  task_status (heap (foldl evict st ids) l) = task_status (heap st l).
Proof.
  revert st. induction ids as [|a ids IH]; intros st; simpl; [done|].
  destruct (IH (evict st a)) as [-> ->]. apply evict_heap.
Qed.

Lemma evictable_evict_fold ids st (k : string) :
  k ∉ ids → evictable (foldl evict st ids) k = evictable st k.
Proof.
  intros Hk. unfold evictable.
  rewrite evict_fold_task_memory, decide_False by done.
  destruct (task_memory st !! k) as [l|]; [|done].
  simpl. by destruct (evict_fold_heap ids st l) as [-> ->].
Qed.

(** The two maps after the loop depend on which ids are evicted, not on the
    order in which the dictionary hands them out. *)
Lemma evict_fold_order ids ids' st :
  ids ≡ₚ ids' →
  task_memory (foldl evict st ids) = task_memory (foldl evict st ids') ∧
  memory_ttl (foldl evict st ids) = memory_ttl (foldl evict st ids').
Proof.
  intros Hperm. split; apply map_eq; intros k.
  - rewrite !evict_fold_task_memory.
    destruct (decide (k ∈ ids)) as [Hin|Hin].
    + rewrite decide_True; [done|]. by rewrite <- Hperm.
    + rewrite decide_False; [done|]. by rewrite <- Hperm.
  - rewrite !evict_fold_memory_ttl.
    destruct (decide (k ∈ ids)) as [Hin|Hin].
    + rewrite decide_True; [done|]. by rewrite <- Hperm.
    + rewrite decide_False; [done|]. by rewrite <- Hperm.
Qed.

(** *** The scan for expired ids *)

Lemma elem_of_expired_tasks st now (k : string) :
  k ∈ expired_tasks st now ↔
  ∃ e, memory_ttl st !! k = Some e ∧ e < now ∧ evictable st k = true.
Proof.
  unfold expired_tasks. rewrite list_elem_of_fmap. split.
  - intros [[k' e] [-> Hin]]. apply list_elem_of_In, filter_In in Hin.
    destruct Hin as [Hin Hex]. apply list_elem_of_In, elem_of_map_to_list in Hin.
    unfold is_expired in Hex. simpl in *.
    apply andb_true_iff in Hex as [Hlt Hev]. apply Z.ltb_lt in Hlt. eauto.
  - intros (e & Hk & Hlt & Hev). exists (k, e). split; [done|].
    apply list_elem_of_In, filter_In. split.
    + by apply list_elem_of_In, elem_of_map_to_list.
    + unfold is_expired. simpl. apply andb_true_iff. split; [by apply Z.ltb_lt | done].
Qed.

Lemma expired_tasks_nil st now :
  (∀ (k : string) e, memory_ttl st !! k = Some e → e < now → evictable st k = false) →
  expired_tasks st now = [].
Proof.
  intros H. destruct (expired_tasks st now) as [|k ks] eqn:E; [done|].
  assert (k ∈ expired_tasks st now) as Hin by (rewrite E; set_solver).
  apply elem_of_expired_tasks in Hin as (e & Hk & Hlt & Hev).
  rewrite (H k e Hk Hlt) in Hev. discriminate.
Qed.

Lemma should_cleanup_not_protected status :
  should_cleanup_by_status status = true →
  in_strs status ["processing"; "pending"] = false.
Proof.
  unfold should_cleanup_by_status.
  by destruct (in_strs status ["processing"; "pending"]).
Qed.

Lemma evictable_status st (k : string) l :
  task_memory st !! k = Some l →
  evictable st k = true →
  in_strs (task_status (heap st l)) ["processing"; "pending"] = false.
Proof.
  unfold evictable. intros -> H. simpl in H.
  apply andb_true_iff in H as [_ H]. by apply should_cleanup_not_protected.
Qed.

(** Reading a status from the payload forces the payload to be a non-empty
    dictionary whenever the status is not the default ["unknown"]. *)
Lemma evictable_status_truthy task :
  in_strs (task_status task) ["completed"; "error"] = true →
  truthy task && should_cleanup_by_status (task_status task) = true.
Proof.
  intros H. apply andb_true_iff. split.
  - destruct task as [| | | | |d]; try (by vm_compute in H).
    destruct d; [by vm_compute in H | done].
  - unfold should_cleanup_by_status. rewrite H.
    destruct (task_status task) as [| | |s| |]; try done.
    simpl in *. rewrite !orb_false_r in *.
    apply orb_true_iff in H as [H|H]; apply String.eqb_eq in H; by subst.
Qed.

(** *** Entries that the time-driven paths leave alone *)

(** An id is shielded when its payload carries a protected status or when
    it has no expiry record. *)
Lemma shielded_not_expired st now (k : string) l :
  task_memory st !! k = Some l →
  in_strs (task_status (heap st l)) ["processing"; "pending"] = true
    ∨ memory_ttl st !! k = None →
  k ∉ expired_tasks st now.
Proof.
  intros Hk Hsh Hin. apply elem_of_expired_tasks in Hin as (e & Httl & _ & Hev).
  destruct Hsh as [Hp|Hn]; [|congruence].
  rewrite (evictable_status _ _ _ Hk Hev) in Hp. discriminate.
Qed.

Lemma shielded_timed_step st ev (k : string) l :
  task_memory st !! k = Some l →
  in_strs (task_status (heap st l)) ["processing"; "pending"] = true
    ∨ memory_ttl st !! k = None →
  task_memory (timed_step st ev) !! k = Some l ∧
  (in_strs (task_status (heap (timed_step st ev) l)) ["processing"; "pending"] = true
    ∨ memory_ttl (timed_step st ev) !! k = None).
Proof.
  intros Hk Hsh. destruct ev as [now [|k']]; unfold timed_step; simpl.
  - pose proof (shielded_not_expired st now k l Hk Hsh) as Hnot.
    rewrite evict_fold_task_memory, evict_fold_memory_ttl, !decide_False by done.
    destruct (evict_fold_heap (expired_tasks st now) st l) as [_ ->]. done.
  - unfold safe_get_task.
    destruct (memory_ttl st !! k') as [e|] eqn:Hk'; [|done].
    destruct ((e <? now) && evictable st k') eqn:Hev; [|done]. simpl.
    apply andb_true_iff in Hev as [_ Hev].
    destruct (decide (k' = k)) as [->|Hne].
    + destruct Hsh as [Hp|Hn]; [|congruence].
      rewrite (evictable_status _ _ _ Hk Hev) in Hp. discriminate.
    + rewrite !lookup_delete_ne by done. done.
Qed.

Lemma shielded_timed_steps evs st (k : string) l :
  task_memory st !! k = Some l →
  in_strs (task_status (heap st l)) ["processing"; "pending"] = true
    ∨ memory_ttl st !! k = None →
  task_memory (foldl timed_step st evs) !! k = Some l.
Proof.
  revert st. induction evs as [|ev evs IH]; intros st Hk Hsh; simpl; [done|].
  destruct (shielded_timed_step st ev k l Hk Hsh) as [Hk' Hsh']. by apply IH.
Qed.

(** C1: an entry whose status is [pending] or [processing] is never removed
    by the time-driven paths (any sequence of reclaim passes and lazy
    reads, at any clock readings), both when the status is the one stored
    in the payload and when it is the one the entry was last put with. *)
Theorem protected_entry_never_reclaimed :
  (∀ st (task_id : string) l (evs : list (Z * timed_op)),
     task_memory st !! task_id = Some l →
     in_strs (task_status (heap st l)) ["processing"; "pending"] = true →
     task_memory (foldl timed_step st evs) !! task_id = Some l) ∧
  (∀ st now (task_id : string) l status (evs : list (Z * timed_op)),
     status = "processing" ∨ status = "pending" →
     task_memory
       (foldl timed_step (safe_set_task now task_id (Some l) status st) evs)
       !! task_id = Some l).
Proof.
  split.
  - intros st task_id l evs Hk Hp. apply shielded_timed_steps; auto.
  - intros st now task_id l status evs Hst.
    apply shielded_timed_steps.
    + unfold safe_set_task. case_match; simpl; apply lookup_insert_eq.
    + right. unfold safe_set_task. rewrite ttl_rules_lookup.
      destruct Hst as [-> | ->]; simpl; apply lookup_delete_eq.
Qed.

(** C2 (amended): the status that counts for the lazy eviction is the
    status field of the payload, not the status the entry was put with.
    Reading an id whose expiry has passed and whose payload carries the
    status [completed] or [error] removes the entry and its expiry record
    and answers "not found", without any reclaim pass; later reads answer
    "not found" as well. *)
Theorem expired_entry_evicted_on_read st now (task_id : string) l expiry :
  task_memory st !! task_id = Some l →
  memory_ttl st !! task_id = Some expiry →
  expiry < now →
  in_strs (task_status (heap st l)) ["completed"; "error"] = true →
  let st' := Registry (heap st) (delete task_id (task_memory st))
                      (delete task_id (memory_ttl st)) in
  safe_get_task now task_id st = (None, st') ∧
  ∀ now', safe_get_task now' task_id st' = (None, st').
Proof.
  intros Hk Httl Hlt Hst st'. split.
  - unfold safe_get_task. rewrite Httl.
    apply Z.ltb_lt in Hlt. rewrite Hlt. unfold evictable. rewrite Hk. simpl.
    by rewrite (evictable_status_truthy _ Hst).
  - intros now'. unfold safe_get_task, st'. simpl.
    by rewrite !lookup_delete_eq.
Qed.

(** C6: a put with a non-null payload stores the payload and records the
    expiry the status→TTL table gives: now+300 for [completed] and
    [error], none for [processing] and [pending], now+3600 otherwise. *)
Theorem safe_set_task_expiry st now (task_id : string) l status :
  let st' := safe_set_task now task_id (Some l) status st in
  task_memory st' !! task_id = Some l ∧
  memory_ttl st' !! task_id =
    if decide (status = "completed" ∨ status = "error") then Some (now + 300)
    else if decide (status = "processing" ∨ status = "pending") then None
    else Some (now + 3600).
Proof.
  unfold safe_set_task. rewrite ttl_rules_lookup. simpl.
  repeat case_decide; simpl; subst;
    repeat match goal with H : _ ∨ _ |- _ => destruct H end;
    try discriminate; try tauto;
    (split; [apply lookup_insert_eq |
             first [apply lookup_insert_eq | apply lookup_delete_eq]]).
Qed.

(** C7: a put with a null payload deletes the entry and its expiry record
    whatever the state and the status argument, a read of the id right
    after answers "not found" and changes nothing, and [safe_remove_task]
    is that same put. *)
Theorem null_payload_removes st now now' (task_id : string) status :
  let st' := safe_set_task now task_id None status st in
  task_memory st' !! task_id = None ∧
  memory_ttl st' !! task_id = None ∧
  safe_get_task now' task_id st' = (None, st') ∧
  safe_remove_task now task_id st = st'.
Proof.
  simpl. repeat split; try apply lookup_delete_eq.
  unfold safe_get_task. simpl. by rewrite !lookup_delete_eq.
Qed.

(** C8: a second reclaim pass, run when nothing that is still tracked has
    newly passed its expiry since the first pass, evicts nothing (count 0)
    and leaves heap, task map and TTL map as they are. *)
Theorem cleanup_twice_is_noop st now1 now2 :
  let st1 := (cleanup_expired_tasks now1 st).2 in
  (∀ (k : string) e, memory_ttl st1 !! k = Some e → e < now2 → e < now1) →
  cleanup_expired_tasks now2 st1 = (0%nat, st1).
Proof.
  intros st1 Hquiet.
  assert (expired_tasks st1 now2 = []) as Hnil.
  { apply expired_tasks_nil. intros k e Hk Hlt.
    pose proof (Hquiet k e Hk Hlt) as Hlt1.
    unfold st1, cleanup_expired_tasks in Hk |- *. simpl in Hk |- *.
    rewrite evict_fold_memory_ttl in Hk.
    case_decide as Hin; [done|].
    rewrite evictable_evict_fold by done.
    destruct (evictable st k) eqn:Hev; [|done].
    exfalso. apply Hin. apply elem_of_expired_tasks. eauto. }
  unfold cleanup_expired_tasks at 1. rewrite Hnil. done.
Qed.

(** *** Key-set invariant *)

Lemma step_keys_subset st ev :
  dom (memory_ttl st) ⊆ dom (task_memory st) →
  dom (memory_ttl (step st ev)) ⊆ dom (task_memory (step st ev)).
Proof.
  intros Hinv. destruct ev as [now [k data status|k|k| |l v]];
    unfold step; simpl.
  - unfold safe_set_task. destruct data as [l|]; [case_match|]; simpl;
      rewrite ?dom_insert_L, ?dom_delete_L; set_solver.
  - unfold safe_get_task. repeat case_match; simpl;
      rewrite ?dom_delete_L; set_solver.
  - rewrite !dom_delete_L. set_solver.
  - intros k Hk. apply elem_of_dom. apply elem_of_dom in Hk.
    rewrite evict_fold_memory_ttl in Hk. rewrite evict_fold_task_memory.
    case_decide; [by destruct Hk|].
    apply elem_of_dom. apply Hinv. by apply elem_of_dom.
  - done.
Qed.

(** C10: started from the empty registry, every sequence of puts (null
    payload included), reads, removals, reclaim passes and outside writes
    to payload objects keeps the ids of the TTL map among the ids of the
    task map. *)
Theorem ttl_keys_within_task_keys h (trace : list (Z * op)) :
  dom (memory_ttl (run trace (empty_registry h)))
    ⊆ dom (task_memory (run trace (empty_registry h))).
Proof.
  unfold run.
  assert (∀ st, dom (memory_ttl st) ⊆ dom (task_memory st) →
    dom (memory_ttl (foldl step st trace)) ⊆ dom (task_memory (foldl step st trace)))
    as Hgen.
  { induction trace as [|ev trace IH]; intros st Hst; simpl; [done|].
    apply IH. by apply step_keys_subset. }
  apply Hgen. simpl. set_solver.
Qed.

(** *** Status argument and payload status

    [safe_set_task] picks the TTL from its [status] argument, the two
    eviction paths read the status from the payload.  When both agree the
    entry put as [completed] or [error] is gone 300 seconds later at the
    first read. *)
Lemma put_then_read_after_expiry st now now' (task_id : string) l status :
  status = "completed" ∨ status = "error" →
  task_status (heap st l) = PyStr status →
  now + 300 < now' →
  (safe_get_task now' task_id
     (safe_set_task now task_id (Some l) status st)).1 = None.
Proof.
  intros Hst Hpayload Hlt.
  unfold safe_set_task. rewrite ttl_rules_lookup.
  unfold safe_get_task.
  destruct Hst as [-> | ->]; simpl; rewrite lookup_insert_eq;
    (replace (now + 300 <? now') with true by (symmetry; by apply Z.ltb_lt));
    unfold evictable; simpl; rewrite lookup_insert_eq; simpl;
    rewrite evictable_status_truthy; try done; by rewrite Hpayload.
Qed.

(** When the payload carries no evictable status, the expiry record set by
    the [status] argument has no effect: reads keep answering the payload
    and reclaim passes keep the entry, at every later clock reading. *)
Lemma status_argument_alone_never_evicts st now (task_id : string) l status
    (evs : list (Z * timed_op)) :
  should_cleanup_by_status (task_status (heap st l)) = false →
  task_memory
    (foldl timed_step (safe_set_task now task_id (Some l) status st) evs)
    !! task_id = Some l.
Proof.
  intros Hpayload.
  set (st0 := safe_set_task now task_id (Some l) status st).
  assert (task_memory st0 !! task_id = Some l) as Hk.
  { unfold st0, safe_set_task. case_match; simpl; apply lookup_insert_eq. }
  assert (heap st0 = heap st) as Hheap.
  { unfold st0, safe_set_task. by case_match. }
  clearbody st0. rewrite <- Hheap in Hpayload. clear Hheap.
  revert st0 Hk Hpayload. induction evs as [|[t o] evs IH]; intros st0 Hk Hp; [done|].
  simpl. apply IH.
  - destruct o as [|k']; unfold timed_step; simpl.
    + rewrite evict_fold_task_memory, decide_False; [done|].
      intros (e & _ & _ & Hev)%elem_of_expired_tasks.
      unfold evictable in Hev. rewrite Hk in Hev. simpl in Hev.
      rewrite Hp in Hev. by rewrite andb_false_r in Hev.
    + unfold safe_get_task. destruct (memory_ttl st0 !! k') as [e|]; [|done].
      destruct ((e <? t) && evictable st0 k') eqn:Hev; [|done]. simpl.
      destruct (decide (k' = task_id)) as [->|Hne]; [|by rewrite lookup_delete_ne].
      apply andb_true_iff in Hev as [_ Hev].
      unfold evictable in Hev. rewrite Hk in Hev. simpl in Hev.
      rewrite Hp in Hev. by rewrite andb_false_r in Hev.
  - destruct o as [|k']; unfold timed_step; simpl.
    + by destruct (evict_fold_heap (expired_tasks st0 t) st0 l) as [_ ->].
    + unfold safe_get_task. by repeat case_match.
Qed.

(** *** Concrete runs *)

(** The life of job ["u1_123"]: put as [processing], it survives a reclaim
    pass long after; put again as [completed] at 1000, the pass at 1301
    evicts it (count 1), clears the document held by its payload, and the
    next read finds nothing. *)
Example job_lifecycle :
  let st1 := safe_set_task 0 "u1_123" (Some 1%positive) "processing"
                           (empty_registry sample_heap) in
  let r1 := cleanup_expired_tasks 999999 st1 in
  let st2 := safe_set_task 1000 "u1_123" (Some 2%positive) "completed" r1.2 in
  let r2 := cleanup_expired_tasks 1301 st2 in
  r1.1 = 0%nat ∧ task_memory r1.2 !! "u1_123" = Some 1%positive ∧
  memory_ttl st2 !! "u1_123" = Some 1300 ∧
  (cleanup_expired_tasks 1300 st2).1 = 0%nat ∧
  r2.1 = 1%nat ∧
  dict_get (match heap r2.2 2%positive with PyDict d => d | _ => [] end)
           "file_content" = Some PyNone ∧
  (safe_get_task 1301 "u1_123" r2.2).1 = None.
Proof. vm_compute. repeat split. Qed.


(** C1 at job ["u1_123"]: with status [processing] in its payload, and
    again when put with status [pending], it is still there after a
    reclaim pass a day later and a read. *)
Lemma protected_entry_never_reclaimed_witness :
  task_memory
    (foldl timed_step
       (Registry sample_heap {["u1_123" := 1%positive]} {["u1_123" := 300]})
       [(86400, Reclaim); (86401, Read "u1_123")])
    !! "u1_123" = Some 1%positive
  ∧
  task_memory
    (foldl timed_step
       (safe_set_task 0 "u1_123" (Some 2%positive) "pending"
                      (empty_registry sample_heap))
       [(86400, Reclaim); (86401, Read "u1_123")])
    !! "u1_123" = Some 2%positive.
Proof.
  split.
  - apply (proj1 protected_entry_never_reclaimed
             (Registry sample_heap {["u1_123" := 1%positive]} {["u1_123" := 300]})
             "u1_123" 1%positive [(86400, Reclaim); (86401, Read "u1_123")]).
    + vm_compute. reflexivity.
    + vm_compute. reflexivity.
  - apply (proj2 protected_entry_never_reclaimed
             (empty_registry sample_heap) 0 "u1_123" 2%positive "pending"
             [(86400, Reclaim); (86401, Read "u1_123")]).
    right. reflexivity.
Defined.

(** C2 at job ["u1_123"]: completed, expiry 300, read at 301. *)
Lemma expired_entry_evicted_on_read_witness :
  let st := Registry (λ _, PyDict [("status", PyStr "completed")])
                     {["u1_123" := 1%positive]} {["u1_123" := 300]} in
  let st' := Registry (heap st) (delete "u1_123" (task_memory st))
                      (delete "u1_123" (memory_ttl st)) in
  safe_get_task 301 "u1_123" st = (None, st') ∧
  ∀ now', safe_get_task now' "u1_123" st' = (None, st').
Proof.
  apply (expired_entry_evicted_on_read
           (Registry (λ _, PyDict [("status", PyStr "completed")])
                     {["u1_123" := 1%positive]} {["u1_123" := 300]})
           301 "u1_123" 1%positive 300).
  - vm_compute. reflexivity.
  - vm_compute. reflexivity.
  - lia.
  - vm_compute. reflexivity.
Defined.

(** C2 as stated, with the status an entry was put with, fails: a job put
    as [completed] at 1000 whose payload has no status field gets the
    expiry 1300, and a read at 1301 still answers the payload and removes
    nothing. *)
Lemma expired_entry_without_payload_status_is_read :
  memory_ttl (safe_set_task 1000 "u1_123" (Some 1%positive) "completed"
                (empty_registry statusless_heap)) !! "u1_123" = Some 1300
  ∧ safe_get_task 1301 "u1_123"
      (safe_set_task 1000 "u1_123" (Some 1%positive) "completed"
         (empty_registry statusless_heap))
    = (Some 1%positive,
       safe_set_task 1000 "u1_123" (Some 1%positive) "completed"
         (empty_registry statusless_heap)).
Proof. split; reflexivity. Qed.

(** C8 with two completed jobs, one expiring at 100 and one at 1000:
    the pass at 500 evicts the first, the pass at 600 finds nothing. *)
Lemma cleanup_twice_is_noop_witness :
  let st := Registry (λ _, PyDict [("status", PyStr "completed")])
                     {["a" := 1%positive; "b" := 2%positive]}
                     {["a" := 100; "b" := 1000]} in
  cleanup_expired_tasks 600 (cleanup_expired_tasks 500 st).2
    = (0%nat, (cleanup_expired_tasks 500 st).2).
Proof.
  apply (cleanup_twice_is_noop
           (Registry (λ _, PyDict [("status", PyStr "completed")])
                     {["a" := 1%positive; "b" := 2%positive]}
                     {["a" := 100; "b" := 1000]}) 500 600).
  intros k e.
  replace (memory_ttl _) with ({["b" := 1000]} : gmap string Z)
    by (vm_compute; reflexivity).
  intros [_ <-]%lookup_singleton_Some. lia.
Defined.

(** A completed job put at 1000 and read at 1301. *)
Lemma put_then_read_after_expiry_witness :
  (safe_get_task 1301 "u1_123"
     (safe_set_task 1000 "u1_123" (Some 2%positive) "completed"
                    (empty_registry sample_heap))).1 = None.
Proof.
  apply (put_then_read_after_expiry (empty_registry sample_heap)
           1000 1301 "u1_123" 2%positive "completed").
  - left. reflexivity.
  - reflexivity.
  - lia.
Defined.

(** The payload at location 1 says [processing]; put as [completed], the
    entry is still there after its 300 seconds, a read and a reclaim pass. *)
Lemma status_argument_alone_never_evicts_witness :
  task_memory
    (foldl timed_step
       (safe_set_task 1000 "u1_123" (Some 1%positive) "completed"
                      (empty_registry sample_heap))
       [(1301, Read "u1_123"); (5000, Reclaim)])
    !! "u1_123" = Some 1%positive.
Proof.
  apply (status_argument_alone_never_evicts (empty_registry sample_heap)
           1000 "u1_123" 1%positive "completed"
           [(1301, Read "u1_123"); (5000, Reclaim)]).
  reflexivity.
Defined.

End RegistryProofs.

(* ===================================================================== *)
(** ** Properties of the cache admission decision                         *)
(* ===================================================================== *)

Module ReportsProofs.
Import Py Reports.

Section Admission.
Variable py_int : string → option Z.
Hypothesis py_int_default : py_int "300" = Some 300.

Lemma use_cache_after_wait_same environ fs cache_file period now :
  use_cache_after_wait py_int environ fs cache_file period now
  = use_cache py_int environ fs cache_file period now.
Proof. reflexivity. Qed.

Lemma max_age_default environ :
  environ !! "TODAY_CACHE_MAX_AGE_SEC" = None →
  today_cache_max_age py_int environ = Some 300.
Proof. intros H. unfold today_cache_max_age. by rewrite H. Qed.

(** C3: the admission decision is [false] when the artifact is not an
    existing file; for the ["today"] window it is [true] exactly when
    [now - mtime <= max_age], where [max_age] is what [int] reads from
    the text of [TODAY_CACHE_MAX_AGE_SEC] when the variable is set, and
    300 when it is not; for every other window it is [true] as soon as
    the file exists, whatever its age.  With the default an age of 301 is
    rejected and an age of 100 accepted. *)
Theorem cache_admission_decision environ fs cache_file period now :
  (exists_and_is_file fs cache_file = false →
     use_cache py_int environ fs cache_file period now = Some false) ∧
  (exists_and_is_file fs cache_file = true → eq_str period "today" = true →
     ∀ configured max_age,
       environ !! "TODAY_CACHE_MAX_AGE_SEC" = Some configured →
       py_int configured = Some max_age →
       use_cache py_int environ fs cache_file period now
       = Some (bool_decide (now - mtime_of fs cache_file ≤ max_age))) ∧
  (exists_and_is_file fs cache_file = true → eq_str period "today" = true →
     environ !! "TODAY_CACHE_MAX_AGE_SEC" = None →
     use_cache py_int environ fs cache_file period now
     = Some (bool_decide (now - mtime_of fs cache_file ≤ 300))) ∧
  (exists_and_is_file fs cache_file = true → eq_str period "today" = false →
     use_cache py_int environ fs cache_file period now = Some true) ∧
  (exists_and_is_file fs cache_file = true → eq_str period "today" = true →
     environ !! "TODAY_CACHE_MAX_AGE_SEC" = None →
     (mtime_of fs cache_file = now - 301 →
        use_cache py_int environ fs cache_file period now = Some false) ∧
     (mtime_of fs cache_file = now - 100 →
        use_cache py_int environ fs cache_file period now = Some true)) ∧
  use_cache_after_wait py_int environ fs cache_file period now
  = use_cache py_int environ fs cache_file period now.
Proof.
  assert (∀ max_age,
    exists_and_is_file fs cache_file = true → eq_str period "today" = true →
    today_cache_max_age py_int environ = Some max_age →
    use_cache py_int environ fs cache_file period now
    = Some (bool_decide (now - mtime_of fs cache_file ≤ max_age))) as Htoday.
  { intros max_age He Ht Hm. unfold use_cache. rewrite He, Ht, Hm. f_equal.
    destruct (Z.leb_spec (now - mtime_of fs cache_file) max_age);
      [rewrite bool_decide_eq_true_2 | rewrite bool_decide_eq_false_2];
      auto; lia. }
  split; [|split; [|split; [|split; [|split]]]].
  - unfold use_cache. by intros ->.
  - intros He Ht configured max_age Hset Hint. apply Htoday; [done|done|].
    unfold today_cache_max_age. by rewrite Hset.
  - intros He Ht Hunset. apply Htoday; [done|done|].
    by apply max_age_default.
  - unfold use_cache. by intros -> ->.
  - intros He Ht Hunset.
    pose proof (Htoday 300 He Ht (max_age_default _ Hunset)) as H.
    split; intros Hm; rewrite H, Hm; f_equal.
    + apply bool_decide_eq_false_2. lia.
    + apply bool_decide_eq_true_2. lia.
  - apply use_cache_after_wait_same.
Qed.

End Admission.

(** C3 on a concrete store: a ["today"] cache written at 1000 and a
    historical artifact written at 0, the decimal reader for [int]; no
    environment override, and an override of 60 seconds. *)
Lemma cache_admission_decision_witness :
  let fs : filesystem := λ p,
    if String.eqb p "data/temp/today_cache_general.json"
    then Some (PathInfo true 1000)
    else if String.eqb p "data/raw_parses/2025-10-07_general.json"
    then Some (PathInfo true 0) else None in
  use_cache decimal_int ∅ fs "data/temp/today_cache_general.json"
            (PyStr "today") 1301 = Some false ∧
  use_cache decimal_int ∅ fs "data/temp/today_cache_general.json"
            (PyStr "today") 1100 = Some true ∧
  use_cache decimal_int {["TODAY_CACHE_MAX_AGE_SEC" := "60"]} fs
            "data/temp/today_cache_general.json" (PyStr "today") 1100
    = Some false ∧
  use_cache decimal_int ∅ fs "data/raw_parses/2025-10-07_general.json"
            PyNone 999999999 = Some true ∧
  use_cache decimal_int ∅ fs "data/raw_parses/missing.json"
            PyNone 5 = Some false.
Proof.
  intros fs.
  pose proof (cache_admission_decision decimal_int eq_refl ∅ fs
                "data/temp/today_cache_general.json" (PyStr "today") 1301)
    as (_ & _ & _ & _ & H301 & _).
  pose proof (cache_admission_decision decimal_int eq_refl ∅ fs
                "data/temp/today_cache_general.json" (PyStr "today") 1100)
    as (_ & _ & _ & _ & H100 & _).
  pose proof (cache_admission_decision decimal_int eq_refl
                {["TODAY_CACHE_MAX_AGE_SEC" := "60"]} fs
                "data/temp/today_cache_general.json" (PyStr "today") 1100)
    as (_ & H60 & _).
  pose proof (cache_admission_decision decimal_int eq_refl ∅ fs
                "data/raw_parses/2025-10-07_general.json" PyNone 999999999)
    as (_ & _ & _ & Hhist & _).
  pose proof (cache_admission_decision decimal_int eq_refl ∅ fs
                "data/raw_parses/missing.json" PyNone 5)
    as (Hmiss & _).
  split; [|split; [|split; [|split]]].
  - apply H301; reflexivity.
  - apply H100; reflexivity.
  - rewrite (H60 eq_refl eq_refl "60" 60 eq_refl eq_refl). reflexivity.
  - apply Hhist; reflexivity.
  - apply Hmiss; reflexivity.
Defined.

End ReportsProofs.

(* ===================================================================== *)
(** ** Properties of the file retention guard                             *)
(* ===================================================================== *)

Module FileCleanerProofs.
Import FileCleaner.

Example normpath_plain :
  normpath "/data/raw_parses/2025-10-07.json" = "/data/raw_parses/2025-10-07.json".
Proof. reflexivity. Qed.

Example normpath_dotdot :
  normpath "/data/raw_parses/../temp/today_cache.json" = "/data/temp/today_cache.json".
Proof. reflexivity. Qed.

Example normpath_slashes :
  normpath "///data//raw_parses/./a/" = "/data/raw_parses/a"
  ∧ normpath "//data/x" = "//data/x"
  ∧ normpath "a/../.." = ".."
  ∧ normpath "/.." = "/".
Proof. repeat split. Qed.

Example is_path_safe_examples :
  is_path_safe "/data/raw_parses/2025-10-07.json" = true
  ∧ is_path_safe "/data/raw_parses/../temp/today_cache.json" = false
  ∧ is_path_safe "/data/telegram_parser_session.session" = false
  ∧ is_path_safe "data/raw_parses/2025-10-07.json" = false.
Proof. repeat split. Qed.

(** *** What the guard checks *)

Lemma prefix_cons_inv a s1 b s2 :
  String.prefix (String a s1) (String b s2) = true →
  a = b ∧ String.prefix s1 s2 = true.
Proof. simpl. destruct (ascii_dec a b); [auto | discriminate]. Qed.

(** The loop over [FORBIDDEN_PATHS] never fires once the first test has
    passed: a string that starts with the target directory starts with
    neither forbidden path. *)
Lemma target_prefix_not_forbidden normalized_path :
  String.prefix TARGET_DIRECTORY normalized_path = true →
  existsb (λ forbidden, String.prefix forbidden normalized_path)
          FORBIDDEN_PATHS = false.
Proof.
  unfold TARGET_DIRECTORY. intros H.
  do 7 (destruct normalized_path as [|? normalized_path]; [discriminate|];
        apply prefix_cons_inv in H as [<- H]).
  reflexivity.
Qed.

Lemma is_path_safe_iff filepath :
  is_path_safe filepath = true ↔
  String.prefix TARGET_DIRECTORY (normpath filepath) = true.
Proof.
  unfold is_path_safe. cbv zeta.
  destruct (String.prefix TARGET_DIRECTORY (normpath filepath)) eqn:H.
  - by rewrite (target_prefix_not_forbidden _ H).
  - done.
Qed.

(** A path is rejected when its normalized form does not start with the
    characters of the target directory or starts with a forbidden path. *)
Lemma is_path_safe_rejects filepath :
  String.prefix TARGET_DIRECTORY (normpath filepath) = false
  ∨ existsb (λ forbidden, String.prefix forbidden (normpath filepath))
            FORBIDDEN_PATHS = true →
  is_path_safe filepath = false.
Proof.
  unfold is_path_safe. cbv zeta. intros [-> | ->]; [done|].
  by destruct (String.prefix TARGET_DIRECTORY (normpath filepath)).
Qed.

(** *** Invariants of the walk *)

Section Walk.

Variable os_stat : string → option stat_result.
Variable os_remove : string → bool.
Variable fromtimestamp : Z → fromtimestamp_outcome.
Variable cutoff : Z.
Variable Inv : cleanup_result → Prop.

Lemma visit_files_invariant root files acc :
  (∀ acc filename, filename ∈ files → Inv acc →
     Inv (result_of (visit_file os_stat os_remove fromtimestamp cutoff acc
                                (path_join root filename)))) →
  Inv acc →
  Inv (result_of (visit_files os_stat os_remove fromtimestamp cutoff
                              root files acc)).
Proof.
  revert acc. induction files as [|f files IH]; intros acc Hstep Hacc;
    simpl; [done|].
  pose proof (Hstep acc f (list_elem_of_here _ _) Hacc) as Hf.
  destruct (visit_file _ _ _ _ acc (path_join root f)) as [acc'|acc'];
    simpl in *; [|done].
  apply IH; [|done]. intros acc0 f0 Hf0. apply Hstep. by right.
Qed.

Lemma visit_walk_invariant (walk : list (string * list string)) acc :
  (∀ acc root files filename,
     (root, files) ∈ walk → filename ∈ files → Inv acc →
     Inv (result_of (visit_file os_stat os_remove fromtimestamp cutoff acc
                                (path_join root filename)))) →
  Inv acc →
  Inv (result_of (visit_walk os_stat os_remove fromtimestamp cutoff
                             walk acc)).
Proof.
  revert acc. induction walk as [|[root files] walk IH]; intros acc Hstep Hacc;
    simpl; [done|].
  assert (Inv (result_of (visit_files os_stat os_remove fromtimestamp cutoff
                                      root files acc))) as Hf.
  { apply visit_files_invariant; [|done].
    intros acc0 f Hf0. apply (Hstep acc0 root files f); [left|done]. }
  destruct (visit_files _ _ _ _ root files acc) as [acc'|acc'];
    simpl in *; [|done].
  apply IH; [|done]. intros acc0 r fs f Hr. apply Hstep. by right.
Qed.

(** An invariant of the loop body that does not look at [errors] holds of
    what [cleanup_old_files] returns. *)
Lemma cleanup_old_files_invariant target_exists walk :
  (∀ errs, Inv (CleanupResult 0 0 [] errs [])) →
  (∀ acc errs, Inv acc →
     Inv (CleanupResult (deleted_count acc) (freed_bytes acc)
                        (deleted_files acc) errs (removed_files acc))) →
  (∀ acc root files filename,
     (root, files) ∈ walk → filename ∈ files → Inv acc →
     Inv (result_of (visit_file os_stat os_remove fromtimestamp cutoff acc
                                (path_join root filename)))) →
  Inv (cleanup_old_files target_exists walk os_stat os_remove fromtimestamp
                         cutoff).
Proof.
  intros Hinit Herr Hstep. unfold cleanup_old_files.
  destruct target_exists; simpl; [|apply Hinit].
  pose proof (visit_walk_invariant walk (CleanupResult 0 0 [] [] [])
                Hstep (Hinit [])) as H.
  destruct (visit_walk _ _ _ _ walk _) as [acc|acc]; simpl in H; [done|].
  by apply Herr.
Qed.

End Walk.

(** *** Deletions pass the guard *)

Lemma visit_file_removed os_stat os_remove fromtimestamp cutoff acc filepath p :
  let acc' := result_of (visit_file os_stat os_remove fromtimestamp cutoff
                                    acc filepath) in
  p ∈ removed_files acc' ∨ p ∈ deleted_files acc' →
  (p ∈ removed_files acc ∨ p ∈ deleted_files acc) ∨
  (p = filepath ∧ is_path_safe p = true ∧
   ∃ info, os_stat p = Some info ∧ st_mtime info < cutoff).
Proof.
  unfold visit_file.
  destruct (is_path_safe filepath) eqn:Hsafe; simpl; [|auto].
  destruct (os_stat filepath) as [info|] eqn:Hstat; simpl; [|auto].
  destruct (Z.ltb_spec (st_mtime info) cutoff); [|auto].
  destruct (os_remove filepath); simpl; [|auto].
  destruct (fromtimestamp (st_mtime info)); simpl;
    rewrite ?elem_of_app, ?list_elem_of_singleton;
    intros [[?| ->]|H']; eauto 10;
    try (destruct H' as [?| ->]; eauto 10).
Qed.

(** Whatever the walk hands over: a path that [os.remove] was called on,
    or that is listed in [deleted_files], came from the walk, passed
    [is_path_safe], and is older than the cutoff. *)
Lemma removed_files_guarded target_exists walk os_stat os_remove
    fromtimestamp cutoff p :
  let r := cleanup_old_files target_exists walk os_stat os_remove
                             fromtimestamp cutoff in
  p ∈ removed_files r ∨ p ∈ deleted_files r →
  is_path_safe p = true ∧
  (∃ info, os_stat p = Some info ∧ st_mtime info < cutoff) ∧
  ∃ root filename files,
    (root, files) ∈ walk ∧ filename ∈ files ∧ p = path_join root filename.
Proof.
  revert p.
  apply (cleanup_old_files_invariant os_stat os_remove fromtimestamp cutoff
           (λ r, ∀ p, p ∈ removed_files r ∨ p ∈ deleted_files r →
              is_path_safe p = true ∧
              (∃ info, os_stat p = Some info ∧ st_mtime info < cutoff) ∧
              ∃ root filename files,
                (root, files) ∈ walk ∧ filename ∈ files
                ∧ p = path_join root filename)).
  - intros errs p. simpl. set_solver.
  - intros acc errs H p. simpl. apply H.
  - intros acc root files filename Hw Hf H p Hp.
    apply visit_file_removed in Hp as [Hp|(-> & Hs & Hi)]; [by apply H|].
    split; [done|]. split; [done|]. by exists root, filename, files.
Qed.

(** Every file the routine removes, and every file it lists as deleted,
    was handed over by the walk, passed [is_path_safe], and is older than
    the cutoff. *)
Lemma cleanup_old_files_guarded target_exists walk os_stat os_remove
    fromtimestamp cutoff p :
  p ∈ removed_files (cleanup_old_files target_exists walk os_stat os_remove
                                       fromtimestamp cutoff)
  ∨ p ∈ deleted_files (cleanup_old_files target_exists walk os_stat os_remove
                                         fromtimestamp cutoff) →
  is_path_safe p = true ∧
  (∃ info, os_stat p = Some info ∧ st_mtime info < cutoff) ∧
  ∃ root filename files,
    (root, files) ∈ walk ∧ filename ∈ files ∧ p = path_join root filename.
Proof. apply removed_files_guarded. Qed.

(** A walk of the target directory with one old and one recent file: the
    old one is removed, and it passed the guard. *)
Lemma cleanup_old_files_guarded_witness :
  is_path_safe "/data/raw_parses/2025-10-01.json" = true ∧
  (∃ info, (λ p, if String.eqb p "/data/raw_parses/2025-10-01.json"
                 then Some (StatResult 50 2048)
                 else Some (StatResult 500 4096))
             "/data/raw_parses/2025-10-01.json" = Some info
           ∧ (st_mtime info < 100)%Z) ∧
  ∃ root filename files,
    (root, files) ∈ [("/data/raw_parses", ["2025-10-01.json"; "2025-10-09.json"])]
    ∧ filename ∈ files
    ∧ "/data/raw_parses/2025-10-01.json" = path_join root filename.
Proof.
  apply (cleanup_old_files_guarded true
           [("/data/raw_parses", ["2025-10-01.json"; "2025-10-09.json"])]
           (λ p, if String.eqb p "/data/raw_parses/2025-10-01.json"
                 then Some (StatResult 50 2048)
                 else Some (StatResult 500 4096))
           (λ _, true) (λ _, Rendered) 100%Z).
  vm_compute. left. left.
Defined.

(** *** String prefix is not directory containment *)

(** The guard alone accepts a file of the sibling directory
    [/data/raw_parses_backup], whose normalized path is not inside
    [/data/raw_parses]: its first test compares characters. *)
Example is_path_safe_sibling_directory :
  normpath "/data/raw_parses_backup/old.json" = "/data/raw_parses_backup/old.json"
  ∧ inside_directory TARGET_DIRECTORY
      (normpath "/data/raw_parses_backup/old.json") = false
  ∧ is_path_safe "/data/raw_parses_backup/old.json" = true.
Proof. split; [|split]; reflexivity. Qed.

End FileCleanerProofs.

(* ===================================================================== *)
(** ** Properties of the truncated-JSON fallback                          *)
(* ===================================================================== *)

Module ReportGeneratorProofs.
Import ReportGenerator.
Local Open Scope nat_scope.

Lemma eqb_false_of_ne (a b : ascii) : a ≠ b → Ascii.eqb a b = false.
Proof. apply Ascii.eqb_neq. Qed.

Lemma drop_app_at {A} (l a r : list A) (i : nat) :
  drop i l = a ++ r → drop (i + length a) l = r.
Proof.
  intros H. rewrite <- drop_drop, H. by rewrite drop_app_length.
Qed.

Lemma slice_at (whole o r : text) (start : nat) :
  drop start whole = o ++ r → slice whole start (start + length o) = o.
Proof.
  intros H. unfold slice. rewrite H.
  replace (start + length o - start)%nat with (length o) by lia.
  by rewrite take_app_length.
Qed.

Example str_find_examples :
  str_find (str "abcabc") (str "bc") 0 = Some 1
  ∧ str_find (str "abcabc") (str "bc") 2 = Some 4
  ∧ str_find (str "abcabc") (str "x") 0 = None
  ∧ str_find (str "abc") (str "a") 7 = None
  ∧ str_rfind (str "abcabc") (str "bc") = Some 4
  ∧ str_rfind (str "abcabc") (str "x") = None
  ∧ slice (str "abcdef") 2 5 = str "cde".
Proof. repeat split. Qed.

(** On the sample, the brace trimming of [sanitize_json_response] cuts the
    text after the last closing brace, that of the nested object inside
    the third record. *)
Example sample_sanitized :
  sanitize_json_response id id id sample_response
  = str "{" ++ quoted "items" ++ str ": [" ++ sample_record_a ++ str ", "
      ++ sample_record_b ++ str ", {" ++ sample_cut_record.
Proof. reflexivity. Qed.

Section Salvage.
Context {Value : Type}.
Variable json_loads : text → option Value.
Variables py_strip drop_opening_fence drop_closing_fence : text → text.

Local Abbreviation scan := (scan json_loads).
Local Abbreviation extract := (extract_items_from_truncated_json json_loads).
Local Abbreviation sanitize :=
  (sanitize_json_response py_strip drop_opening_fence drop_closing_fence).
Local Abbreviation generate :=
  (generate_report_data json_loads py_strip drop_opening_fence drop_closing_fence).

(** *** Inside a string literal *)

Lemma scan_string_tail whole t :
  string_tail t →
  ∀ rest i d cs res,
    scan whole (t ++ rest) i true false d cs res
    = scan whole rest (i + length t) false false d cs res.
Proof.
  induction 1 as [|c t Ht IH|c t Hb Hq Ht IH]; intros rest i d cs res.
  - simpl. f_equal. lia.
  - simpl. rewrite IH. f_equal. lia.
  - simpl. rewrite (eqb_false_of_ne _ _ Hb), (eqb_false_of_ne _ _ Hq), IH.
    f_equal. lia.
Qed.

Lemma scan_string_cut whole t :
  string_cut t →
  ∀ i d cs res, scan whole t i true false d cs res = res.
Proof.
  induction 1 as [| |c t Ht IH|c t Hb Hq Ht IH]; intros i d cs res; simpl; auto.
  by rewrite (eqb_false_of_ne _ _ Hb), (eqb_false_of_ne _ _ Hq), IH.
Qed.

(** *** Inside a record *)

Lemma scan_plain_inside whole c rest i d cs res :
  plain c →
  scan whole (c :: rest) i false false (S d) cs res
  = scan whole rest (S i) false false (S d) cs res.
Proof.
  intros (Hq & Hl & Hr). simpl.
  rewrite (eqb_false_of_ne _ _ Hq), (eqb_false_of_ne _ _ Hl),
    (eqb_false_of_ne _ _ Hr).
  by destruct (Ascii.eqb c rbracket).
Qed.

Lemma scan_balanced whole b :
  balanced b →
  ∀ rest i d cs res,
    scan whole (b ++ rest) i false false (S d) cs res
    = scan whole rest (i + length b) false false (S d) cs res.
Proof.
  induction 1 as [|c t Hc Ht IH|s t Hs Ht IH|b t Hb IHb Ht IHt];
    intros rest i d cs res.
  - simpl. f_equal. lia.
  - rewrite <- app_comm_cons, scan_plain_inside, IH by done.
    simpl. f_equal. lia.
  - rewrite <- app_comm_cons, <- app_assoc.
    change (scan whole (dquote :: s ++ t ++ rest) i false false (S d) cs res)
      with (scan whole (s ++ t ++ rest) (S i) true false (S d) cs res).
    rewrite scan_string_tail, IH by done.
    simpl. rewrite length_app. f_equal. lia.
  - rewrite <- app_comm_cons, <- app_assoc.
    change (scan whole (lbrace :: b ++ (rbrace :: t) ++ rest) i false false (S d) cs res)
      with (scan whole (b ++ (rbrace :: t) ++ rest) (S i) false false (S (S d)) cs res).
    rewrite IHb. rewrite <- app_comm_cons.
    change (scan whole (rbrace :: t ++ rest) (S i + length b) false false (S (S d)) cs res)
      with (scan whole (t ++ rest) (S (S i + length b)) false false (S d) cs res).
    rewrite IHt. simpl. rewrite length_app. simpl. f_equal. lia.
Qed.

Lemma scan_unfinished whole t :
  unfinished t →
  ∀ i d cs res, scan whole t i false false (S d) cs res = res.
Proof.
  induction 1 as [|c t Hc Ht IH|s t Hs Ht IH|s Hs|b t Hb Ht IH|t Ht IH];
    intros i d cs res.
  - done.
  - by rewrite scan_plain_inside, IH.
  - change (scan whole (dquote :: s ++ t) i false false (S d) cs res)
      with (scan whole (s ++ t) (S i) true false (S d) cs res).
    by rewrite scan_string_tail, IH.
  - change (scan whole (dquote :: s) i false false (S d) cs res)
      with (scan whole s (S i) true false (S d) cs res).
    by apply scan_string_cut.
  - change (scan whole (lbrace :: b ++ rbrace :: t) i false false (S d) cs res)
      with (scan whole (b ++ rbrace :: t) (S i) false false (S (S d)) cs res).
    rewrite scan_balanced by done.
    change (scan whole (rbrace :: t) (S i + length b) false false (S (S d)) cs res)
      with (scan whole t (S (S i + length b)) false false (S d) cs res).
    apply IH.
  - change (scan whole (lbrace :: t) i false false (S d) cs res)
      with (scan whole t (S i) false false (S (S d)) cs res).
    apply IH.
Qed.

(** *** At the top level of the array *)

Local Abbreviation salvaged := (salvaged json_loads).

Lemma scan_separators whole s :
  Forall separator s →
  ∀ rest i res,
    scan whole (s ++ rest) i false false 0 None res
    = scan whole rest (i + length s) false false 0 None res.
Proof.
  induction 1 as [|c s [(Hq & Hl & Hr) Hk] Hs IH]; intros rest i res.
  - simpl. f_equal. lia.
  - simpl.
    rewrite (eqb_false_of_ne _ _ Hq), (eqb_false_of_ne _ _ Hl),
      (eqb_false_of_ne _ _ Hr), (eqb_false_of_ne _ _ Hk), IH.
    f_equal. lia.
Qed.

Lemma scan_complete_object whole o :
  complete_object o →
  ∀ rest i res,
    drop i whole = o ++ rest →
    scan whole (o ++ rest) i false false 0 None res
    = scan whole rest (i + length o) false false 0 None (res ++ salvaged o).
Proof.
  intros [b Hb] rest i res Hdrop.
  pose proof (slice_at whole _ _ _ Hdrop) as Hslice.
  rewrite <- app_comm_cons, <- app_assoc.
  change (scan whole (lbrace :: b ++ [rbrace] ++ rest) i false false 0 None res)
    with (scan whole (b ++ rbrace :: rest) (S i) false false 1 (Some i) res).
  rewrite scan_balanced by done.
  simpl length in *. rewrite length_app in *. simpl length in *.
  replace (i + S (length b + 1))%nat with (S (i + length b + 1)) in Hslice by lia.
  simpl scan. rewrite Hslice. unfold ReportGenerator.salvaged.
  replace (S (S (i + length b))) with (i + S (length b + 1))%nat by lia.
  destruct (json_loads (lbrace :: b ++ [rbrace])); [done|].
  by rewrite app_nil_r.
Qed.

Lemma scan_array_body whole (records : list (text * text)) :
  Forall (λ so, Forall separator so.1 ∧ complete_object so.2) records →
  ∀ rest i res,
    drop i whole = array_body records ++ rest →
    scan whole (array_body records ++ rest) i false false 0 None res
    = scan whole rest (i + length (array_body records)) false false 0 None
           (res ++ concat (map (λ so, salvaged so.2) records)).
Proof.
  induction 1 as [|[s o] records [Hs Ho] Hrec IH]; intros rest i res Hdrop.
  - simpl. rewrite app_nil_r. f_equal. lia.
  - unfold array_body in *. simpl in *.
    rewrite <- !app_assoc in *.
    rewrite scan_separators by done.
    apply drop_app_at in Hdrop as Hdrop1.
    rewrite scan_complete_object by done.
    apply drop_app_at in Hdrop1 as Hdrop2.
    rewrite IH by done.
    rewrite !length_app, <- !app_assoc. f_equal. lia.
Qed.

Lemma scan_array_tail whole t :
  array_tail t →
  ∀ i res, scan whole t i false false 0 None res = res.
Proof.
  intros [s Hs|s r Hs|s u Hs Hu] i res.
  - rewrite <- (app_nil_r s), scan_separators by done. done.
  - rewrite scan_separators by done. done.
  - rewrite scan_separators by done.
    change (scan whole (lbrace :: u) (i + length s) false false 0 None res)
      with (scan whole u (S (i + length s)) false false 1 (Some (i + length s)) res).
    by apply scan_unfinished.
Qed.

(** *** The extractor on a truncated array *)

Lemma str_find_nonempty (s sub : text) start pos :
  sub ≠ [] → str_find s sub start = Some pos → s ≠ [].
Proof.
  intros Hsub H ->. unfold str_find in H. rewrite drop_nil in H.
  destruct sub; [done|]. simpl in H. discriminate.
Qed.

Lemma extract_truncated_array whole key_pos bracket_pos
    (records : list (text * text)) tail :
  str_find whole items_key 0 = Some key_pos →
  str_find whole [lbracket] key_pos = Some bracket_pos →
  drop (bracket_pos + 1) whole = array_body records ++ tail →
  Forall (λ so, Forall separator so.1 ∧ complete_object so.2) records →
  array_tail tail →
  extract whole = concat (map (λ so, salvaged so.2) records).
Proof.
  intros Hkey Hbr Hdrop Hrec Htail.
  unfold extract_items_from_truncated_json. rewrite Hkey, Hbr, Hdrop.
  rewrite scan_array_body by done.
  by rewrite scan_array_tail.
Qed.

(** The fallback's outcome is decided by the extractor alone. *)
Lemma fallback_outcome raw_response today :
  json_loads (sanitize raw_response) = None →
  let raw_text :=
    match raw_response with [] => [] | _ => sanitize raw_response end in
  (extract raw_text = [] →
     ∃ error_text, generate raw_response today = RaisedValueError error_text) ∧
  (extract raw_text ≠ [] →
     generate raw_response today
     = Returned (SalvagedReport (extract raw_text) today)).
Proof.
  intros Hfail raw_text. unfold generate_report_data. rewrite Hfail.
  fold raw_text. split.
  - intros ->. eauto.
  - intros Hne. by destruct (extract raw_text).
Qed.

(** C4: when the sanitized response does not parse, the fallback returns
    the records the extractor salvaged and raises exactly when there are
    none; and on a response whose items array holds complete records
    followed by a cut one (or by nothing, or by the closing bracket), the
    salvaged records are the parses of all the complete records, in order,
    and nothing else. *)
Theorem truncated_response_salvaged raw_response today :
  json_loads (sanitize raw_response) = None →
  let raw_text := sanitize raw_response in
  ((∃ error_text, generate raw_response today = RaisedValueError error_text)
     ↔ extract raw_text = []) ∧
  (extract raw_text ≠ [] →
     generate raw_response today
     = Returned (SalvagedReport (extract raw_text) today)) ∧
  (∀ key_pos bracket_pos (records : list (text * text)) tail,
     str_find raw_text items_key 0 = Some key_pos →
     str_find raw_text [lbracket] key_pos = Some bracket_pos →
     drop (bracket_pos + 1) raw_text = array_body records ++ tail →
     Forall (λ so, Forall separator so.1 ∧ complete_object so.2) records →
     array_tail tail →
     extract raw_text = concat (map (λ so, salvaged so.2) records)).
Proof.
  intros Hfail raw_text.
  destruct (fallback_outcome raw_response today Hfail) as [Hnone Hsome].
  assert (match raw_response with [] => [] | _ => sanitize raw_response end
          = raw_text) as Heq by (by destruct raw_response).
  rewrite Heq in Hnone, Hsome.
  split; [|split].
  - split; [|done].
    intros [msg Hmsg]. destruct (extract raw_text) eqn:E; [done|].
    rewrite Hsome in Hmsg; done.
  - done.
  - intros. by eapply extract_truncated_array.
Qed.

End Salvage.

(** *** The sample response *)

Ltac chars :=
  repeat match goal with
         | |- separator _ => split
         | |- plain _ => split; [|split]
         | |- _ ≠ _ => discriminate
         end.

Lemma sample_record_a_complete : complete_object sample_record_a.
Proof.
  apply (complete_braces (quoted "a" ++ str ":1")).
  apply (balanced_string (str "a" ++ [dquote]) (str ":1")).
  - apply string_char; [chars..|]. apply string_close.
  - repeat (apply balanced_plain; [chars|]). apply balanced_nil.
Qed.

Lemma sample_record_b_complete : complete_object sample_record_b.
Proof.
  apply (complete_braces (quoted "b" ++ str ":2")).
  apply (balanced_string (str "b" ++ [dquote]) (str ":2")).
  - apply string_char; [chars..|]. apply string_close.
  - repeat (apply balanced_plain; [chars|]). apply balanced_nil.
Qed.

Lemma sample_cut_record_unfinished : unfinished sample_cut_record.
Proof.
  apply (unfinished_string (str "c" ++ [dquote])
           (str ": {" ++ quoted "d" ++ str ":3}")).
  { apply string_char; [chars..|]. apply string_close. }
  do 2 (apply unfinished_plain; [chars|]).
  apply (unfinished_braces (quoted "d" ++ str ":3") []).
  - apply (balanced_string (str "d" ++ [dquote]) (str ":3")).
    + apply string_char; [chars..|]. apply string_close.
    + repeat (apply balanced_plain; [chars|]). apply balanced_nil.
  - apply unfinished_end.
Qed.

(** C4 on the sample: both complete records come back, the cut third one
    does not, and no error is raised. *)
Lemma truncated_response_salvaged_witness :
  generate_report_data loads_if_nested id id id sample_response (str "03.11.2026")
  = Returned (SalvagedReport [sample_record_a; sample_record_b] (str "03.11.2026")).
Proof.
  assert (loads_if_nested (sanitize_json_response id id id sample_response) = None)
    as Hfail by (vm_compute; reflexivity).
  destruct (truncated_response_salvaged loads_if_nested id id id
              sample_response (str "03.11.2026") Hfail)
    as (_ & Hret & Hshape).
  assert (extract_items_from_truncated_json loads_if_nested
            (sanitize_json_response id id id sample_response)
          = [sample_record_a; sample_record_b]) as Hitems.
  { rewrite (Hshape 1 10
               [([], sample_record_a); (str ", ", sample_record_b)]
               (str ", {" ++ sample_cut_record)).
    - vm_compute. reflexivity.
    - vm_compute. reflexivity.
    - vm_compute. reflexivity.
    - vm_compute. reflexivity.
    - repeat constructor; try discriminate;
        [apply sample_record_a_complete | apply sample_record_b_complete].
    - apply (tail_cut (str ", ") sample_cut_record).
      + repeat constructor; discriminate.
      + apply sample_cut_record_unfinished. }
  rewrite Hret; rewrite Hitems; [reflexivity | discriminate].
Defined.

End ReportGeneratorProofs.

(* ===================================================================== *)
(** ** Properties of the scrape serializer                                *)
(* ===================================================================== *)

Module SerializerProofs.
Import Serializer.
Local Open Scope nat_scope.

Lemma count_insert f (l : list (handler * pc)) i x y :
  l !! i = Some x →
  count f (<[i := y]> l) + Nat.b2n (f x) = count f l + Nat.b2n (f y).
Proof.
  unfold count. revert i. induction l as [|a l IH]; intros i Hi; [done|].
  destruct i as [|i]; simpl in *.
  - injection Hi as ->. destruct (f x), (f y); simpl; lia.
  - specialize (IH i Hi). destruct (f a); simpl; lia.
Qed.

Lemma count_le f g (l : list (handler * pc)) :
  (∀ t, t ∈ l → f t = true → g t = true) → count f l ≤ count g l.
Proof.
  unfold count. induction l as [|a l IH]; intros H; simpl; [done|].
  assert (length (List.filter f l) ≤ length (List.filter g l)) as Hle
    by (apply IH; intros; apply H; set_solver).
  destruct (f a) eqn:Hf.
  - rewrite (H a) by (done || set_solver). simpl. lia.
  - destruct (g a); simpl; lia.
Qed.

Lemma gate_invariant_exec st ev :
  gate_invariant st → gate_invariant (exec st ev).
Proof.
  intros [Hall Hcount]. unfold exec.
  destruct (tasks st !! ev.1) as [[h p]|] eqn:Hi; [|done].
  assert (h = ParseAndGenerate) as ->.
  { eapply Forall_lookup_1 in Hall; [|done]. done. }
  destruct (next ParseAndGenerate p ev.2 (locked st)) as [[p' l']|] eqn:Hn; [|done].
  split; simpl.
  - apply Forall_insert; done.
  - pose proof (count_insert holds_lock _ _ _ (ParseAndGenerate, p') Hi) as Hc.
    rewrite Hcount in Hc.
    destruct p, (ev.2), (locked st); simpl in Hn; try discriminate;
      injection Hn as <- <-; simpl in *; lia.
Qed.

Lemma gate_invariant_run events st :
  gate_invariant st → gate_invariant (foldl exec st events).
Proof.
  revert st. induction events as [|ev events IH]; intros st H; simpl; [done|].
  by apply IH, gate_invariant_exec.
Qed.

(** Among requests that all go through [parse_and_generate_report], at
    most one is ever inside the scrape body, whatever the interleaving,
    the cache outcomes and the failures; and the lock is free again once
    no request stands inside the block. *)
Theorem gated_scrapes_exclusive (n : nat) (events : list (nat * outcome)) :
  let st := foldl exec (admitted (replicate n ParseAndGenerate)) events in
  scraping st ≤ 1 ∧
  (locked st = true ↔ count holds_lock (tasks st) = 1).
Proof.
  intros st.
  assert (gate_invariant st) as [Hall Hcount].
  { apply gate_invariant_run. unfold admitted, gate_invariant. simpl. split.
    - induction n as [|n IH]; simpl; constructor; done.
    - unfold count. induction n as [|n IH]; simpl; [done|]. apply IH. }
  split.
  - unfold scraping.
    etrans; [apply (count_le is_scraping holds_lock)|].
    + intros [h p] Hin Hs.
      rewrite Forall_forall in Hall. specialize (Hall _ Hin). simpl in Hall.
      subst h. by destruct p.
    + rewrite Hcount. destruct (locked st); simpl; lia.
  - rewrite Hcount. destruct (locked st); simpl; split; (done || lia).
Qed.

(** C9 (evaluation at the failing input): a [parse_and_generate_report]
    request holds the lock and is inside the scrape body when a
    [parse_channels] request, which takes no lock, enters the scrape body
    too; two [parse_channels] requests overlap the same way. *)
Theorem unlocked_scrape_overlaps :
  (let st := foldl exec (admitted [ParseAndGenerate; ParseChannels])
                   [(0, Miss); (0, Granted); (0, Miss); (1, Miss)] in
   locked st = true ∧
   tasks st = [(ParseAndGenerate, Scraping); (ParseChannels, Scraping)] ∧
   scraping st = 2) ∧
  (let st := foldl exec (admitted [ParseChannels; ParseChannels])
                   [(0, Miss); (1, Miss)] in
   tasks st = [(ParseChannels, Scraping); (ParseChannels, Scraping)] ∧
   scraping st = 2).
Proof. split; [split; [|split] | split]; reflexivity. Qed.

End SerializerProofs.

(* ===================================================================== *)
(** ** Further properties of the registry and the reclaimer               *)
(* ===================================================================== *)

Module RegistryMore.
Import Py MemoryManager MemoryStats RegistryProofs.

(** *** What a reclaim pass removes *)

Lemma expired_tasks_NoDup st now : NoDup (expired_tasks st now).
Proof.
  unfold expired_tasks.
  pose proof (NoDup_fst_map_to_list (memory_ttl st)) as Hnd.
  induction (map_to_list (memory_ttl st)) as [|[k e] l IH]; simpl in *.
  - constructor.
  - apply NoDup_cons in Hnd as [Hk Hnd].
    destruct (is_expired st now (k, e)); simpl; [|by apply IH].
    apply NoDup_cons. split; [|by apply IH].
    intros Hin. apply Hk.
    apply list_elem_of_fmap in Hin as [[k' e'] [-> Hin]].
    apply list_elem_of_In, filter_In in Hin as [Hin _].
    apply list_elem_of_fmap. exists (k', e'). split; [done|].
    by apply list_elem_of_In.
Qed.

Lemma evict_fold_sizes ids st :
  NoDup ids →
  (∀ k : string, k ∈ ids →
     is_Some (task_memory st !! k) ∧ is_Some (memory_ttl st !! k)) →
  (size (task_memory (foldl evict st ids)) + length ids
   = size (task_memory st))%nat ∧
  (size (memory_ttl (foldl evict st ids)) + length ids
   = size (memory_ttl st))%nat.
Proof.
  revert st. induction ids as [|a ids IH]; intros st Hnd Hin; simpl.
  - lia.
  - apply NoDup_cons in Hnd as [Ha Hnd].
    destruct (Hin a) as [[l Hl] [e He]]; [set_solver|].
    destruct (IH (evict st a) Hnd) as [H1 H2].
    + intros k Hk. simpl.
      assert (k ≠ a) by (intros ->; done).
      rewrite !lookup_delete_ne by done. apply Hin. set_solver.
    + simpl in H1, H2.
      rewrite map_size_delete, Hl in H1. rewrite map_size_delete, He in H2.
      assert (size (task_memory st) ≠ 0)%nat.
      { intros Hz. apply map_size_empty_inv in Hz. rewrite Hz in Hl. done. }
      assert (size (memory_ttl st) ≠ 0)%nat.
      { intros Hz. apply map_size_empty_inv in Hz. rewrite Hz in He. done. }
      lia.
Qed.

(** A reclaim pass removes from both maps exactly the tracked ids whose
    expiry has passed and whose payload is evictable, leaves every other
    id as it was, and returns the number of entries it removed. *)
Theorem reclaim_pass_exact st now :
  let r := cleanup_expired_tasks now st in
  (∀ (k : string) e,
     memory_ttl st !! k = Some e → e < now → evictable st k = true →
     task_memory r.2 !! k = None ∧ memory_ttl r.2 !! k = None) ∧
  (∀ k : string,
     (∀ e, memory_ttl st !! k = Some e → e < now → evictable st k = false) →
     task_memory r.2 !! k = task_memory st !! k ∧
     memory_ttl r.2 !! k = memory_ttl st !! k) ∧
  (size (task_memory r.2) + r.1 = size (task_memory st))%nat ∧
  (size (memory_ttl r.2) + r.1 = size (memory_ttl st))%nat.
Proof.
  unfold cleanup_expired_tasks. simpl. split; [|split].
  - intros k e Hk Hlt Hev.
    rewrite evict_fold_task_memory, evict_fold_memory_ttl.
    rewrite !decide_True; [done|apply elem_of_expired_tasks; eauto..].
  - intros k Hk.
    rewrite evict_fold_task_memory, evict_fold_memory_ttl.
    rewrite !decide_False; [done|..];
      intros (e & He & Hlt & Hev)%elem_of_expired_tasks;
      rewrite (Hk e He Hlt) in Hev; done.
  - apply evict_fold_sizes; [apply expired_tasks_NoDup|].
    intros k (e & He & _ & Hev)%elem_of_expired_tasks. split; [|eauto].
    unfold evictable in Hev. destruct (task_memory st !! k); [eauto|done].
Qed.

(** *** The lazy and the periodic path agree *)

(** A read of an id answers what a reclaim pass at the same clock reading
    would leave under that id, and leaves the same two records for it. *)
Theorem lazy_read_agrees_with_reclaim st now (k : string) :
  let r := safe_get_task now k st in
  let c := (cleanup_expired_tasks now st).2 in
  r.1 = task_memory c !! k ∧
  task_memory r.2 !! k = task_memory c !! k ∧
  memory_ttl r.2 !! k = memory_ttl c !! k.
Proof.
  unfold cleanup_expired_tasks. simpl.
  rewrite evict_fold_task_memory, evict_fold_memory_ttl.
  unfold safe_get_task.
  destruct (memory_ttl st !! k) as [e|] eqn:Hk.
  - destruct ((e <? now) && evictable st k) eqn:Hev; simpl.
    + apply andb_true_iff in Hev as [Hlt%Z.ltb_lt Hev].
      rewrite !decide_True by (apply elem_of_expired_tasks; eauto).
      by rewrite !lookup_delete_eq.
    + rewrite !decide_False; [by rewrite Hk|..];
        intros (e' & He' & Hlt%Z.ltb_lt & Hev')%elem_of_expired_tasks;
        rewrite Hk in He'; injection He' as <-;
        rewrite Hlt, Hev' in Hev; done.
  - simpl. rewrite !decide_False; [by rewrite Hk|..];
      intros (e' & He' & _)%elem_of_expired_tasks; congruence.
Qed.

(** *** Put and read *)

Lemma ttl_seconds_cases status :
  default 3600 (TASK_TTL_RULES !! status) = 0
  ∨ default 3600 (TASK_TTL_RULES !! status) = 300
  ∨ default 3600 (TASK_TTL_RULES !! status) = 3600.
Proof. rewrite ttl_rules_lookup. repeat case_decide; simpl; auto. Qed.

(** A payload put under an id is read back unchanged, and the read changes
    nothing, for at least 300 seconds after the put, whatever the status
    and whatever the payload holds. *)
Theorem put_then_get st now now' (k : string) l status :
  now' ≤ now + 300 →
  safe_get_task now' k (safe_set_task now k (Some l) status st)
  = (Some l, safe_set_task now k (Some l) status st).
Proof.
  intros Hle. unfold safe_set_task.
  destruct (ttl_seconds_cases status) as [-> | [-> | ->]]; simpl;
    unfold safe_get_task; simpl.
  - by rewrite lookup_delete_eq, lookup_insert_eq.
  - rewrite !lookup_insert_eq.
    replace (now + 300 <? now') with false by (symmetry; apply Z.ltb_ge; lia).
    done.
  - rewrite !lookup_insert_eq.
    replace (now + 3600 <? now') with false by (symmetry; apply Z.ltb_ge; lia).
    done.
Qed.

(** Two puts under one id leave the state the second put alone would
    leave: payload and expiry record of the first are gone. *)
Theorem last_put_wins st now1 now2 (k : string) data1 data2 status1 status2 :
  safe_set_task now2 k data2 status2 (safe_set_task now1 k data1 status1 st)
  = safe_set_task now2 k data2 status2 st.
Proof.
  unfold safe_set_task.
  destruct data1 as [l1|], data2 as [l2|];
    repeat case_match; simpl;
    rewrite ?insert_insert_eq, ?delete_insert_eq, ?insert_delete_eq,
      ?delete_delete_eq; reflexivity.
Qed.

(** A put, a removal or a read of one id changes no record of another id
    and writes to no payload object. *)
Theorem other_ids_untouched st now (k k' : string) data status :
  k ≠ k' →
  let st1 := safe_set_task now k data status st in
  let st2 := (safe_get_task now k st).2 in
  (task_memory st1 !! k' = task_memory st !! k' ∧
   memory_ttl st1 !! k' = memory_ttl st !! k' ∧ heap st1 = heap st) ∧
  (task_memory st2 !! k' = task_memory st !! k' ∧
   memory_ttl st2 !! k' = memory_ttl st !! k' ∧ heap st2 = heap st).
Proof.
  intros Hne. split.
  - unfold safe_set_task. destruct data; repeat case_match; simpl;
      rewrite ?lookup_insert_ne, ?lookup_delete_ne by done; done.
  - unfold safe_get_task. repeat case_match; simpl;
      rewrite ?lookup_delete_ne by done; done.
Qed.

(** A job put as [completed] at 1000 is read back at 1300. *)
Lemma put_then_get_witness :
  safe_get_task 1300 "u1_123"
    (safe_set_task 1000 "u1_123" (Some 2%positive) "completed"
                   (empty_registry sample_heap))
  = (Some 2%positive,
     safe_set_task 1000 "u1_123" (Some 2%positive) "completed"
                   (empty_registry sample_heap)).
Proof.
  apply (put_then_get (empty_registry sample_heap) 1000 1300
           "u1_123" 2%positive "completed").
  lia.
Defined.

(** Removing job ["a"] and reading it leave job ["b"] alone. *)
Lemma other_ids_untouched_witness :
  let st := Registry sample_heap {["a" := 1%positive; "b" := 2%positive]}
                     {["b" := 100]} in
  let st1 := safe_set_task 500 "a" None "processing" st in
  let st2 := (safe_get_task 500 "a" st).2 in
  (task_memory st1 !! "b" = task_memory st !! "b" ∧
   memory_ttl st1 !! "b" = memory_ttl st !! "b" ∧ heap st1 = heap st) ∧
  (task_memory st2 !! "b" = task_memory st !! "b" ∧
   memory_ttl st2 !! "b" = memory_ttl st !! "b" ∧ heap st2 = heap st).
Proof.
  apply (other_ids_untouched
           (Registry sample_heap {["a" := 1%positive; "b" := 2%positive]}
                     {["b" := 100]}) 500 "a" "b" None "processing").
  discriminate.
Defined.

(** *** The payload after eviction *)

Lemma dict_get_set_eq d key v w :
  dict_get d key = Some w → dict_get (dict_set d key v) key = Some v.
Proof.
  induction d as [|[k x] d IH]; simpl; [done|].
  destruct (String.eqb k key) eqn:E; simpl; rewrite E; auto.
Qed.

Lemma dict_set_keys d key v w :
  dict_get d key = Some w → (dict_set d key v).*1 = d.*1.
Proof.
  induction d as [|[k x] d IH]; simpl; [done|].
  destruct (String.eqb k key) eqn:E; simpl; [done|].
  intros H. f_equal. by apply IH.
Qed.

Lemma null_field_keys d key : (null_field d key).*1 = d.*1.
Proof.
  unfold null_field. destruct (dict_get d key) as [v|] eqn:E; [|done].
  destruct (truthy v); [|done]. by eapply dict_set_keys.
Qed.

Lemma null_field_cleared d key v :
  dict_get (null_field d key) key = Some v → truthy v = false.
Proof.
  unfold null_field. destruct (dict_get d key) as [w|] eqn:E; [|by rewrite E].
  destruct (truthy w) eqn:Hw.
  - erewrite dict_get_set_eq by done. by intros [= <-].
  - rewrite E. by intros [= <-].
Qed.

Lemma null_field_other d key key' :
  key ≠ key' → dict_get (null_field d key) key' = dict_get d key'.
Proof.
  intros Hne. unfold null_field.
  destruct (dict_get d key) as [v|]; [|done].
  destruct (truthy v); [|done]. by apply dict_get_set_ne.
Qed.

Lemma null_field_stays_cleared d key key' :
  (∀ v, dict_get d key' = Some v → truthy v = false) →
  ∀ v, dict_get (null_field d key) key' = Some v → truthy v = false.
Proof.
  intros H v. destruct (decide (key = key')) as [->|Hne].
  - apply null_field_cleared.
  - rewrite null_field_other by done. apply H.
Qed.

(** Clearing a payload dictionary keeps its keys and their order, leaves
    every field other than the four large ones as it was, and leaves no
    large field with a truthy value. *)
Theorem clear_large_fields_spec d :
  ∃ d', clear_large_fields (PyDict d) = PyDict d' ∧
        d'.*1 = d.*1 ∧
        (∀ key, key ∉ large_fields → dict_get d' key = dict_get d key) ∧
        (∀ key v, key ∈ large_fields → dict_get d' key = Some v →
                  truthy v = false).
Proof.
  unfold clear_large_fields.
  destruct (truthy (PyDict d)) eqn:Ht.
  - eexists. split; [reflexivity|]. simpl. split; [|split].
    + by rewrite !null_field_keys.
    + intros key Hkey. unfold large_fields in Hkey.
      rewrite !null_field_other; [done|set_solver..].
    + intros key v Hkey. unfold large_fields in Hkey.
      assert (key = "file_content" ∨ key = "telegram_text"
              ∨ key = "messages" ∨ key = "report_data")
        as [-> | [-> | [-> | ->]]] by set_solver.
      * do 3 apply null_field_stays_cleared. apply null_field_cleared.
      * do 2 apply null_field_stays_cleared. apply null_field_cleared.
      * apply null_field_stays_cleared. apply null_field_cleared.
      * apply null_field_cleared.
  - exists d. destruct d; [|done]. repeat split; done.
Qed.

(** *** Statistics *)

Lemma run_keys_subset trace st :
  dom (memory_ttl st) ⊆ dom (task_memory st) →
  dom (memory_ttl (run trace st)) ⊆ dom (task_memory (run trace st)).
Proof.
  unfold run. revert st.
  induction trace as [|ev trace IH]; intros st Hst; simpl; [done|].
  apply IH. by apply step_keys_subset.
Qed.

(** Whatever has happened to the registry since it was empty, the
    statistics never report more entries under TTL tracking than entries
    held. *)
Theorem stats_ttl_at_most_tasks h (trace : list (Z * op)) :
  let stats := get_memory_stats (run trace (empty_registry h)) in
  (tasks_with_ttl stats ≤ active_tasks_in_ram stats)%nat.
Proof.
  simpl.
  rewrite <- (size_dom (D := gset string) (memory_ttl _)).
  rewrite <- (size_dom (D := gset string) (task_memory _)).
  apply subseteq_size, run_keys_subset. simpl. set_solver.
Qed.

End RegistryMore.
(* ===================================================================== *)
(** ** Further properties of the file retention routine                   *)
(* ===================================================================== *)

Module FileCleanerMore.
Import FileCleaner FileCleanerProofs.

(** *** Accounting *)

(** The size [os.stat] reports for a path, 0 where it fails. *)
Local Abbreviation size_of os_stat :=
  (λ p : string, match os_stat p with Some info => st_size info | None => 0 end).

Lemma sum_snoc (l : list Z) x :
  foldr Z.add 0 (l ++ [x]) = foldr Z.add 0 l + x.
Proof. induction l as [|y l IH]; simpl; lia. Qed.

(** What the counters count: the calls of [os.remove] that returned. *)
Local Abbreviation accounted os_stat r :=
  (deleted_count r = length (removed_files r) ∧
   freed_bytes r = foldr Z.add 0 (size_of os_stat <$> removed_files r) ∧
   deleted_files r `sublist_of` removed_files r).

Lemma visit_file_accounted os_stat os_remove fromtimestamp cutoff acc filepath :
  accounted os_stat acc →
  accounted os_stat
    (result_of (visit_file os_stat os_remove fromtimestamp cutoff acc filepath)).
Proof.
  intros (Hc & Hb & Hl). unfold visit_file.
  destruct (is_path_safe filepath); simpl; [|done].
  destruct (os_stat filepath) as [info|] eqn:Hs; simpl; [|done].
  destruct (st_mtime info <? cutoff); [|done].
  destruct (os_remove filepath); simpl; [|done].
  assert (S (deleted_count acc) = length (removed_files acc ++ [filepath]))
    as Hc' by (rewrite length_app; simpl; lia).
  assert (freed_bytes acc + st_size info
          = foldr Z.add 0 (size_of os_stat <$> removed_files acc ++ [filepath]))
    as Hb' by (rewrite fmap_app; simpl; rewrite sum_snoc, Hs; lia).
  destruct (fromtimestamp (st_mtime info)); simpl;
    (split; [done|]; split; [done|]).
  - by apply sublist_app.
  - by apply sublist_inserts_r.
  - by apply sublist_inserts_r.
Qed.

Lemma visit_file_listed os_stat os_remove fromtimestamp cutoff acc filepath :
  (∀ p info, os_stat p = Some info → fromtimestamp (st_mtime info) = Rendered) →
  deleted_files acc = removed_files acc →
  let acc' := result_of (visit_file os_stat os_remove fromtimestamp cutoff
                                    acc filepath) in
  deleted_files acc' = removed_files acc'.
Proof.
  intros Hok Heq. unfold visit_file.
  destruct (is_path_safe filepath); simpl; [|done].
  destruct (os_stat filepath) as [info|] eqn:Hs; simpl; [|done].
  destruct (st_mtime info <? cutoff); [|done].
  destruct (os_remove filepath); simpl; [|done].
  rewrite (Hok _ _ Hs). simpl. by rewrite Heq.
Qed.

(** The counters of a cleanup run follow the disk, not the list:
    [deleted_count] is the number of files [os.remove] removed and
    [freed_bytes] the sum of the sizes [os.stat] gave for them, whatever
    fails; [deleted_files] lists some of these files in the same order,
    and all of them when [datetime.fromtimestamp] renders every
    modification time that [os.stat] reports. *)
Theorem cleanup_report_consistent target_exists walk os_stat os_remove
    fromtimestamp cutoff :
  let r := cleanup_old_files target_exists walk os_stat os_remove
                             fromtimestamp cutoff in
  deleted_count r = length (removed_files r) ∧
  freed_bytes r = foldr Z.add 0 (size_of os_stat <$> removed_files r) ∧
  deleted_files r `sublist_of` removed_files r ∧
  ((∀ p info, os_stat p = Some info →
              fromtimestamp (st_mtime info) = Rendered) →
   deleted_files r = removed_files r ∧
   deleted_count r = length (deleted_files r)).
Proof.
  intros r.
  assert (accounted os_stat r) as (Hc & Hb & Hl).
  { apply (cleanup_old_files_invariant os_stat os_remove fromtimestamp cutoff
             (λ r, accounted os_stat r)).
    - intros errs. by repeat split.
    - by intros acc errs (? & ? & ?).
    - intros acc root files filename _ _. apply visit_file_accounted. }
  split; [done|]. split; [done|]. split; [done|].
  intros Hok.
  assert (deleted_files r = removed_files r) as Heq.
  { apply (cleanup_old_files_invariant os_stat os_remove fromtimestamp cutoff
             (λ r, deleted_files r = removed_files r)).
    - done.
    - done.
    - intros acc root files filename _ _. by apply visit_file_listed. }
  split; [done|]. by rewrite Heq.
Qed.

(** One file whose modification time [fromtimestamp] refuses: removed and
    counted, not listed. *)
Example counted_but_not_listed :
  let r := cleanup_old_files true [("/data/raw_parses", ["old.json"])]
             (λ _, Some (StatResult (-100000000000) 10)) (λ _, true)
             (λ _, RaisesValueError) 100 in
  removed_files r = ["/data/raw_parses/old.json"]
  ∧ deleted_count r = 1%nat
  ∧ deleted_files r = []
  ∧ errors r = [SCAN_ERROR].
Proof. repeat split. Qed.

(** *** Completeness *)

Section Complete.

Variable os_stat : string → option stat_result.
Variable os_remove : string → bool.
Variable fromtimestamp : Z → fromtimestamp_outcome.
Variable cutoff : Z.

(** No modification time that [os.stat] reports makes [fromtimestamp]
    raise past the inner handler. *)
Hypothesis no_escape :
  ∀ p info, os_stat p = Some info →
            fromtimestamp (st_mtime info) ≠ RaisesValueError.

Lemma visit_file_continues acc filepath :
  ∃ acc',
    visit_file os_stat os_remove fromtimestamp cutoff acc filepath
    = Continues acc'
    ∧ (∀ p, p ∈ removed_files acc → p ∈ removed_files acc')
    ∧ (∀ p, p ∈ deleted_files acc → p ∈ deleted_files acc').
Proof.
  unfold visit_file.
  destruct (is_path_safe filepath); simpl; [|by eexists].
  destruct (os_stat filepath) as [info|] eqn:Hs; simpl; [|by eexists].
  destruct (st_mtime info <? cutoff); [|by eexists].
  destruct (os_remove filepath); simpl; [|by eexists].
  pose proof (no_escape _ _ Hs) as Hne.
  destruct (fromtimestamp (st_mtime info)); [| |done];
    eexists; (split; [reflexivity|]); simpl; set_solver.
Qed.

Lemma visit_files_continue root files acc :
  ∃ acc',
    visit_files os_stat os_remove fromtimestamp cutoff root files acc
    = Continues acc'
    ∧ (∀ p, p ∈ removed_files acc → p ∈ removed_files acc')
    ∧ (∀ p, p ∈ deleted_files acc → p ∈ deleted_files acc').
Proof.
  revert acc. induction files as [|f files IH]; intros acc; simpl;
    [by eexists|].
  destruct (visit_file_continues acc (path_join root f))
    as (acc1 & -> & Hr1 & Hd1).
  destruct (IH acc1) as (acc2 & -> & Hr2 & Hd2).
  eexists. split; [reflexivity|]. split; auto.
Qed.

Lemma visit_walk_continues (walk : list (string * list string)) acc :
  ∃ acc',
    visit_walk os_stat os_remove fromtimestamp cutoff walk acc
    = Continues acc'
    ∧ (∀ p, p ∈ removed_files acc → p ∈ removed_files acc')
    ∧ (∀ p, p ∈ deleted_files acc → p ∈ deleted_files acc').
Proof.
  revert acc. induction walk as [|[root files] walk IH]; intros acc; simpl;
    [by eexists|].
  destruct (visit_files_continue root files acc) as (acc1 & -> & Hr1 & Hd1).
  destruct (IH acc1) as (acc2 & -> & Hr2 & Hd2).
  eexists. split; [reflexivity|]. split; auto.
Qed.

Lemma visit_files_reach root files acc filename info :
  filename ∈ files →
  is_path_safe (path_join root filename) = true →
  os_stat (path_join root filename) = Some info →
  st_mtime info < cutoff →
  os_remove (path_join root filename) = true →
  ∃ acc',
    visit_files os_stat os_remove fromtimestamp cutoff root files acc
    = Continues acc'
    ∧ path_join root filename ∈ removed_files acc'
    ∧ (fromtimestamp (st_mtime info) = Rendered →
       path_join root filename ∈ deleted_files acc').
Proof.
  intros Hf Hsafe Hstat Hold Hrm. revert acc.
  induction files as [|f files IH]; intros acc; [by apply elem_of_nil in Hf|].
  simpl. apply elem_of_cons in Hf as [<-|Hf].
  - assert (∃ acc1,
      visit_file os_stat os_remove fromtimestamp cutoff acc
                 (path_join root filename) = Continues acc1
      ∧ path_join root filename ∈ removed_files acc1
      ∧ (fromtimestamp (st_mtime info) = Rendered →
         path_join root filename ∈ deleted_files acc1))
      as (acc1 & -> & Hr1 & Hd1).
    { unfold visit_file. rewrite Hsafe, Hstat. simpl.
      apply Z.ltb_lt in Hold. rewrite Hold, Hrm. cbv zeta.
      pose proof (no_escape _ _ Hstat) as Hne.
      destruct (fromtimestamp (st_mtime info)); [| |done];
        eexists; (split; [reflexivity|]); simpl; set_solver. }
    destruct (visit_files_continue root files acc1) as (acc2 & -> & Hr2 & Hd2).
    eexists. split; [reflexivity|]. split; auto.
  - destruct (visit_file_continues acc (path_join root f))
      as (acc1 & -> & _ & _).
    by apply IH.
Qed.

(** As long as [datetime.fromtimestamp] raises neither [ValueError] nor
    [OverflowError] on a modification time, every file the walk yields
    that passes the guard, is older than the cutoff, and that [os.stat]
    and [os.remove] do not fail on, is removed; it is listed in
    [deleted_files] when its own modification time is rendered. *)
Theorem cleanup_removes_every_old_file walk root files filename info :
  (root, files) ∈ walk →
  filename ∈ files →
  is_path_safe (path_join root filename) = true →
  os_stat (path_join root filename) = Some info →
  st_mtime info < cutoff →
  os_remove (path_join root filename) = true →
  let r := cleanup_old_files true walk os_stat os_remove fromtimestamp
                             cutoff in
  path_join root filename ∈ removed_files r
  ∧ (fromtimestamp (st_mtime info) = Rendered →
     path_join root filename ∈ deleted_files r).
Proof.
  intros Hw Hf Hsafe Hstat Hold Hrm. unfold cleanup_old_files. simpl.
  generalize (CleanupResult 0 0 [] [] []).
  induction walk as [|[r fs] walk IH]; intros acc;
    [by apply elem_of_nil in Hw|].
  simpl. apply elem_of_cons in Hw as [[= <- <-]|Hw].
  - destruct (visit_files_reach root files acc filename info
                Hf Hsafe Hstat Hold Hrm) as (acc1 & -> & Hr1 & Hd1).
    destruct (visit_walk_continues walk acc1) as (acc2 & -> & Hr2 & Hd2).
    split; auto.
  - destruct (visit_files_continue r fs acc) as (acc1 & -> & _ & _).
    by apply IH.
Qed.

End Complete.

(** A walk of the target directory with one old file. *)
Lemma cleanup_removes_every_old_file_witness :
  let r := cleanup_old_files true
             [("/data/raw_parses", ["2025-10-09.json"; "2025-10-01.json"])]
             (λ p, if String.eqb p "/data/raw_parses/2025-10-01.json"
                   then Some (StatResult 50 2048)
                   else Some (StatResult 500 4096))
             (λ _, true) (λ _, Rendered) 100 in
  path_join "/data/raw_parses" "2025-10-01.json" ∈ removed_files r
  ∧ ((λ _ : Z, Rendered) 50 = Rendered →
     path_join "/data/raw_parses" "2025-10-01.json" ∈ deleted_files r).
Proof.
  apply (cleanup_removes_every_old_file
           (λ p, if String.eqb p "/data/raw_parses/2025-10-01.json"
                 then Some (StatResult 50 2048)
                 else Some (StatResult 500 4096))
           (λ _, true) (λ _, Rendered) 100
           (λ _ _ _, ltac:(discriminate))
           [("/data/raw_parses", ["2025-10-09.json"; "2025-10-01.json"])]
           "/data/raw_parses" ["2025-10-09.json"; "2025-10-01.json"]
           "2025-10-01.json" (StatResult 50 2048)).
  - set_solver.
  - set_solver.
  - reflexivity.
  - reflexivity.
  - simpl. lia.
  - reflexivity.
Defined.

End FileCleanerMore.

Module FileScheduleProofs.
Import WallClock FileSchedule.

Lemma midnight_spec dt :
  midnight dt ≤ dt < midnight dt + MICROS_PER_DAY ∧
  midnight dt mod MICROS_PER_DAY = 0.
Proof.
  unfold midnight.
  assert (0 < MICROS_PER_DAY) by (by vm_compute).
  pose proof (Z.mod_pos_bound dt MICROS_PER_DAY ltac:(done)).
  split; [lia|].
  rewrite Zminus_mod, Zmod_mod, Z.sub_diag. done.
Qed.

(** For a target hour from 0 to 23 the routine returns a wait that is
    positive and at most one day, and that ends exactly on the target hour
    of the wall clock; it is a whole day exactly when the clock stands on
    the target hour already. *)
Theorem wait_until_target_hour now target_hour :
  0 ≤ target_hour ≤ 23 →
  ∃ delta,
    calculate_seconds_until_target_time now target_hour = Some delta ∧
    0 < delta ≤ MICROS_PER_DAY ∧
    (now + delta) mod MICROS_PER_DAY = target_hour * MICROS_PER_HOUR ∧
    (delta = MICROS_PER_DAY ↔
     now mod MICROS_PER_DAY = target_hour * MICROS_PER_HOUR).
Proof.
  intros Hh. unfold calculate_seconds_until_target_time, replace_hour.
  replace ((0 <=? target_hour) && (target_hour <=? 23)) with true
    by (symmetry; apply andb_true_iff; split; apply Z.leb_le; lia).
  destruct (midnight_spec now) as [Hm Hm0].
  eexists. split; [reflexivity|].
  assert (MICROS_PER_DAY = 24 * MICROS_PER_HOUR) as HD by reflexivity.
  assert (0 < MICROS_PER_HOUR) as HH by (by vm_compute).
  assert (now mod MICROS_PER_DAY = now - midnight now) as Hmod
    by (unfold midnight; lia).
  unfold days_delta.
  destruct (Z.leb_spec (midnight now + target_hour * MICROS_PER_HOUR) now).
  - split; [nia|]. split; [|rewrite Hmod; split; intros; nia].
    replace (now + (midnight now + target_hour * MICROS_PER_HOUR
                    + 1 * MICROS_PER_DAY - now))
      with (target_hour * MICROS_PER_HOUR + (midnight now + 1 * MICROS_PER_DAY))
      by lia.
    rewrite Zplus_mod, (Zplus_mod (midnight now)), Hm0, Z_mod_mult.
    simpl. rewrite Zmod_0_l, Z.add_0_r, Zmod_mod.
    apply Z.mod_small. nia.
  - split; [nia|]. split; [|rewrite Hmod; split; intros; nia].
    replace (now + (midnight now + target_hour * MICROS_PER_HOUR - now))
      with (target_hour * MICROS_PER_HOUR + midnight now) by lia.
    rewrite Zplus_mod, Hm0, Z.add_0_r, Zmod_mod.
    apply Z.mod_small. nia.
Qed.

(** Started at 12:30 with the default target hour 3. *)
Lemma wait_until_target_hour_witness :
  ∃ delta,
    calculate_seconds_until_target_time (12 * MICROS_PER_HOUR + 1800000000) 3
      = Some delta ∧
    0 < delta ≤ MICROS_PER_DAY ∧
    (12 * MICROS_PER_HOUR + 1800000000 + delta) mod MICROS_PER_DAY
      = 3 * MICROS_PER_HOUR ∧
    (delta = MICROS_PER_DAY ↔
     (12 * MICROS_PER_HOUR + 1800000000) mod MICROS_PER_DAY
       = 3 * MICROS_PER_HOUR).
Proof.
  apply (wait_until_target_hour (12 * MICROS_PER_HOUR + 1800000000) 3). lia.
Defined.

End FileScheduleProofs.

(* ===================================================================== *)
(** ** Properties of the cache file names                                 *)
(* ===================================================================== *)

Module CacheFilesProofs.
Import Py FileCleaner CacheFiles.

(** *** Texts *)

Lemma append_length s t :
  String.length (s +:+ t) = (String.length s + String.length t)%nat.
Proof. induction s as [|c s IH]; simpl; [done|]. by rewrite IH. Qed.

Lemma append_cancel_l a x y : a +:+ x = a +:+ y → x = y.
Proof. induction a as [|c a IH]; simpl; [done|]. intros [= H]. auto. Qed.

Lemma append_cancel_r c x y : x +:+ c = y +:+ c → x = y.
Proof.
  revert y. induction x as [|a x IH]; intros y H.
  - destruct y as [|b y]; [done|].
    apply (f_equal String.length) in H.
    rewrite !append_length in H. simpl in H. lia.
  - destruct y as [|b y].
    + apply (f_equal String.length) in H.
      rewrite !append_length in H. simpl in H. lia.
    + simpl in H. injection H as -> H. f_equal. by apply IH.
Qed.

Lemma no_slash_app s t :
  no_slash s = true → no_slash t = true → no_slash (s +:+ t) = true.
Proof.
  induction s as [|c s IH]; simpl; [done|].
  intros [Hc Hs]%andb_true_iff Ht. rewrite Hc. simpl. by apply IH.
Qed.

(** *** [normpath] on a path that is already normal *)

Lemma split_slash_no_slash s : no_slash s = true → split_slash s = [s].
Proof.
  induction s as [|c s IH]; simpl; [done|].
  intros [Hc Hs]%andb_true_iff. apply negb_true_iff in Hc. rewrite Hc.
  by rewrite IH.
Qed.

Lemma split_slash_component a b :
  no_slash a = true →
  split_slash (a +:+ ("/" +:+ b)) = a :: split_slash b.
Proof.
  change ("/" +:+ b) with (String "/" b).
  induction a as [|c a IH]; simpl; [done|].
  intros [Hc Hs]%andb_true_iff. apply negb_true_iff in Hc. rewrite Hc.
  by rewrite IH.
Qed.

Lemma split_slash_join comps :
  comps ≠ [] → Forall plain_component comps →
  split_slash (join_slash comps) = comps.
Proof.
  induction comps as [|a comps IH]; [done|]. intros _ Hall.
  apply Forall_cons in Hall as [(Ha & _) Hall].
  destruct comps as [|b comps]; simpl.
  - by apply split_slash_no_slash.
  - rewrite split_slash_component by done. f_equal. by apply IH.
Qed.

Lemma normpath_step_plain initial acc comp :
  plain_component comp → normpath_step initial acc comp = acc ++ [comp].
Proof.
  intros (_ & H0 & H1 & H2). unfold normpath_step.
  apply String.eqb_neq in H0, H1, H2. by rewrite H0, H1, H2.
Qed.

Lemma normpath_steps_plain initial acc comps :
  Forall plain_component comps →
  foldl (normpath_step initial) acc comps = acc ++ comps.
Proof.
  revert acc. induction comps as [|a comps IH]; intros acc Hall; simpl.
  - by rewrite app_nil_r.
  - apply Forall_cons in Hall as [Ha Hall].
    rewrite normpath_step_plain, IH by done. by rewrite <- app_assoc.
Qed.

Lemma prefix_cons a s1 b s2 :
  String.prefix (String a s1) (String b s2)
  = if Ascii.eqb a b then String.prefix s1 s2 else false.
Proof.
  simpl. destruct (ascii_dec a b) as [->|H].
  - by rewrite Ascii.eqb_refl.
  - by rewrite (proj2 (Ascii.eqb_neq _ _) H).
Qed.

Lemma initial_slashes_single c s :
  Ascii.eqb c "/" = false → initial_slashes (String "/" (String c s)) = 1%nat.
Proof.
  intros Hc. unfold initial_slashes.
  change "/" with (String "/" EmptyString) at 1.
  change "//" with (String "/" (String "/" EmptyString)).
  rewrite !prefix_cons. rewrite Ascii.eqb_refl, (Ascii.eqb_sym "/" c), Hc.
  reflexivity.
Qed.

(** An absolute path made of plain components is its own normal form. *)
Lemma normpath_of_plain_components comps :
  comps ≠ [] → Forall plain_component comps →
  normpath ("/" +:+ join_slash comps) = "/" +:+ join_slash comps.
Proof.
  intros Hne Hall. unfold normpath.
  change ("/" +:+ join_slash comps) with (String "/" (join_slash comps)).
  assert (initial_slashes (String "/" (join_slash comps)) = 1%nat) as ->.
  { destruct comps as [|a comps]; [done|].
    apply Forall_cons in Hall as [(Ha & Ha0 & _) _].
    destruct a as [|c a]; [done|]. simpl in Ha.
    apply andb_true_iff in Ha as [Hc _]. apply negb_true_iff in Hc.
    destruct comps; cbn [join_slash String.append];
      by apply initial_slashes_single. }
  simpl String.eqb.
  change (split_slash (String "/" (join_slash comps)))
    with (EmptyString :: split_slash (join_slash comps)).
  rewrite split_slash_join by done.
  simpl foldl. change (normpath_step 1 [] EmptyString) with (@nil string).
  rewrite normpath_steps_plain by done. simpl. done.
Qed.

Lemma long_component s :
  no_slash s = true → (3 ≤ String.length s)%nat → plain_component s.
Proof.
  intros Hs Hlen. split; [done|].
  split; [|split]; intros ->; simpl in Hlen; lia.
Qed.

Lemma no_slash_suffix channel_source :
  no_slash channel_source = true →
  no_slash (source_suffix channel_source) = true.
Proof.
  intros H. unfold source_suffix.
  destruct (String.eqb channel_source "source_1"); [done|].
  by apply (no_slash_app "_").
Qed.

Lemma plain_literal s :
  no_slash s = true → s ≠ EmptyString → s ≠ "." → s ≠ ".." →
  plain_component s.
Proof. by repeat split. Qed.

(** *** The cleaner and the cache files *)

(** On the deployment host ([AMVERA] set) the cache of the ["today"]
    window of a source whose name holds no path separator is a file the
    retention guard rejects: the daily cleanup never removes it. *)
Theorem today_cache_out_of_reach environ channel_source period days
    start_str end_str v :
  environ !! "AMVERA" = Some v → v ≠ EmptyString →
  no_slash channel_source = true →
  eq_str period "today" = true →
  is_path_safe
    (cache_file environ channel_source period days start_str end_str) = false.
Proof.
  intros Henv Hv Hcs Hp. unfold cache_file, base_path.
  apply String.eqb_neq in Hv. rewrite Hp, Henv, Hv.
  set (comp := "today_cache" +:+ (source_suffix channel_source +:+ ".json")).
  change ("/data" +:+ ("/temp/today_cache" +:+ (source_suffix channel_source +:+ ".json")))
    with ("/" +:+ join_slash ["data"; "temp"; comp]).
  unfold is_path_safe. rewrite normpath_of_plain_components; [reflexivity|done|].
  repeat apply Forall_cons_2; try apply Forall_nil_2;
    try (by apply plain_literal).
  apply long_component.
  - unfold comp. repeat apply no_slash_app; try done.
    by apply no_slash_suffix.
  - unfold comp. rewrite !append_length. simpl. lia.
Qed.

(** The cache of every other window, for a source name and dates without
    path separators, is a file the guard accepts: the daily cleanup
    removes it once it is older than the retention period. *)
Theorem historical_cache_within_reach environ channel_source period days
    start_str end_str v :
  environ !! "AMVERA" = Some v → v ≠ EmptyString →
  no_slash channel_source = true →
  no_slash start_str = true → no_slash end_str = true →
  eq_str period "today" = false →
  is_path_safe
    (cache_file environ channel_source period days start_str end_str) = true.
Proof.
  intros Henv Hv Hcs Hs He Hp. unfold cache_file, base_path.
  apply String.eqb_neq in Hv. rewrite Hp, Henv, Hv.
  pose proof (no_slash_suffix _ Hcs) as Hsuf.
  assert (∀ filename,
    no_slash filename = true → (3 ≤ String.length filename)%nat →
    is_path_safe ("/data" +:+ ("/raw_parses/" +:+ filename)) = true) as Hfile.
  { intros filename Hn Hl.
    change ("/data" +:+ ("/raw_parses/" +:+ filename))
      with ("/" +:+ join_slash ["data"; "raw_parses"; filename]).
    unfold is_path_safe. rewrite normpath_of_plain_components; [reflexivity|done|].
    repeat apply Forall_cons_2; try apply Forall_nil_2;
      try (by apply plain_literal).
    by apply long_component. }
  destruct (eq_str period "yesterday"); [|destruct (several_days days)];
    apply Hfile;
    try (repeat apply no_slash_app; done);
    rewrite !append_length; simpl; lia.
Qed.

(** *** One file per source *)

Lemma cache_file_injective environ source1 source2 period days
    start_str end_str :
  cache_file environ source1 period days start_str end_str
  = cache_file environ source2 period days start_str end_str →
  source1 = source2.
Proof.
  assert (source_suffix source1 +:+ ".json" = source_suffix source2 +:+ ".json"
          → source1 = source2) as Hsuffix.
  { unfold source_suffix.
    destruct (String.eqb_spec source1 "source_1") as [->|H1],
             (String.eqb_spec source2 "source_1") as [->|H2];
      [done|discriminate|discriminate|].
    intros H. apply append_cancel_r in H. by injection H. }
  unfold cache_file. intros H. apply Hsuffix.
  destruct (eq_str period "today"); [|destruct (eq_str period "yesterday");
    [|destruct (several_days days)]];
    repeat (apply append_cancel_l in H); done.
Qed.

(** For one window, two different sources never share a cache file. *)
Theorem cache_file_per_source environ source1 source2 period days
    start_str end_str :
  source1 ≠ source2 →
  cache_file environ source1 period days start_str end_str
  ≠ cache_file environ source2 period days start_str end_str.
Proof. intros Hne H. by apply cache_file_injective in H. Qed.

(** *** Shared between the two routers *)

(** For the source ["source_1"], the cache file of
    [parse_and_generate_report] is the default output file of
    [parse_and_save] for the same window, except when ["yesterday"] is
    asked for together with a count of several days. *)
Theorem cache_file_shared_with_parser environ period days start_str end_str :
  eq_str period "yesterday" && several_days days = false →
  cache_file environ "source_1" period days start_str end_str
  = output_file environ period days start_str end_str.
Proof.
  unfold cache_file, output_file. simpl source_suffix.
  destruct (eq_str period "today"); [done|].
  destruct (eq_str period "yesterday"), (several_days days); simpl; done.
Qed.

(** The deployment host, the source ["general"] and today's window. *)
Lemma today_cache_out_of_reach_witness :
  is_path_safe
    (cache_file {["AMVERA" := "1"]} "general" (PyStr "today") None
                "2025-10-09" "2025-10-09") = false.
Proof.
  apply (today_cache_out_of_reach {["AMVERA" := "1"]} "general" (PyStr "today")
           None "2025-10-09" "2025-10-09" "1");
    [reflexivity | discriminate | reflexivity | reflexivity].
Defined.

(** The deployment host, the source ["general"] and a three-day window. *)
Lemma historical_cache_within_reach_witness :
  is_path_safe
    (cache_file {["AMVERA" := "1"]} "general" PyNone (Some 3)
                "2025-10-06" "2025-10-09") = true.
Proof.
  apply (historical_cache_within_reach {["AMVERA" := "1"]} "general" PyNone
           (Some 3) "2025-10-06" "2025-10-09" "1");
    [reflexivity | discriminate | reflexivity..].
Defined.

(** The sources ["source_1"], which has no suffix, and ["general"]. *)
Lemma cache_file_per_source_witness :
  cache_file ∅ "source_1" (PyStr "yesterday") None "2025-10-08" "2025-10-09"
  ≠ cache_file ∅ "general" (PyStr "yesterday") None "2025-10-08" "2025-10-09".
Proof.
  apply (cache_file_per_source ∅ "source_1" "general" (PyStr "yesterday")
           None "2025-10-08" "2025-10-09").
  discriminate.
Defined.

(** A single day asked for through [days]. *)
Lemma cache_file_shared_with_parser_witness :
  cache_file ∅ "source_1" PyNone (Some 1) "2025-10-08" "2025-10-09"
  = output_file ∅ PyNone (Some 1) "2025-10-08" "2025-10-09".
Proof.
  apply (cache_file_shared_with_parser ∅ PyNone (Some 1)
           "2025-10-08" "2025-10-09").
  reflexivity.
Defined.

End CacheFilesProofs.
(* ===================================================================== *)
(** ** Properties of the channel scraper                                  *)
(* ===================================================================== *)

Module TelegramParserProofs.
Import Py WallClock TelegramParser.

(** *** What one channel yields *)

Lemma iter_messages_sound channel start_date end_date stream l :
  iter_messages channel start_date end_date stream = Some l →
  ∀ c, c ∈ l →
    (∃ s e, start_date = WithOffset s ∧ end_date = WithOffset e
            ∧ s ≤ publication_date c < e) ∧
    text c ≠ EmptyString ∧
    channel_name c = channel ∧
    Got (TgMessage true (collected_id c) (publication_date c) (text c)) ∈ stream.
Proof.
  revert l. induction stream as [|[m|] stream IH]; intros l H c Hc; simpl in H.
  - injection H as <-. set_solver.
  - destruct start_date as [s|s]; [|done]. simpl in H.
    destruct (Z.ltb_spec (message_date m) s); [injection H as <-; set_solver|].
    destruct end_date as [e|e]; [|done]. simpl in H.
    destruct (Z.leb_spec e (message_date m)).
    + destruct (IH l H c Hc) as (? & ? & ? & ?).
      split; [done|]; split; [done|]; split; [done|]; set_solver.
    + destruct (iter_messages channel (WithOffset s) (WithOffset e) stream)
        as [later|]; [|done].
      destruct (has_text m) eqn:Ht; injection H as <-.
      * apply elem_of_cons in Hc as [->|Hc].
        -- unfold has_text in Ht. apply andb_true_iff in Ht as [Hm Ht].
           apply negb_true_iff, String.eqb_neq in Ht. simpl.
           split; [exists s, e; split; [done|]; split; [done|]; lia|].
           split; [done|]. split; [done|].
           destruct m as [im mid d t]. simpl in *. subst im. set_solver.
        -- destruct (IH later eq_refl c Hc) as (? & ? & ? & ?).
           split; [done|]; split; [done|]; split; [done|]; set_solver.
      * destruct (IH later eq_refl c Hc) as (? & ? & ? & ?).
        split; [done|]; split; [done|]; split; [done|]; set_solver.
  - done.
Qed.

(** Every message [parse_telegram_channels] returns is dated inside the
    half-open window, whose bounds then both carry an offset; it carries
    text, and was yielded as a [Message] by the client for a channel of
    the source's channel file. *)
Theorem parsed_messages_in_window environ read_channels api_id api_hash
    streams start_date end_date channel_source messages :
  parse_telegram_channels environ read_channels api_id api_hash streams
                          start_date end_date channel_source
  = Parsed messages →
  ∀ c, c ∈ messages →
    (∃ s e, start_date = WithOffset s ∧ end_date = WithOffset e
            ∧ s ≤ publication_date c < e) ∧
    text c ≠ EmptyString ∧
    (∃ channels,
       read_channels (channels_path environ channel_source)
         = Some (Some channels) ∧
       channel_name c ∈ channels) ∧
    Got (TgMessage true (collected_id c) (publication_date c) (text c))
      ∈ streams (channel_name c).
Proof.
  unfold parse_telegram_channels. intros H c Hc.
  destruct (read_channels _) as [[channels|]|]; try done.
  destruct ((api_id =? 0) || String.eqb api_hash EmptyString); [done|].
  injection H as <-.
  apply list_elem_of_In, in_concat in Hc as (l & Hl & Hc).
  apply in_map_iff in Hl as (channel & <- & Hch).
  apply list_elem_of_In in Hc, Hch.
  unfold parse_channel in Hc.
  destruct (iter_messages channel start_date end_date (streams channel))
    as [l|] eqn:E; [|set_solver].
  destruct (iter_messages_sound _ _ _ _ _ E c Hc) as (Hw & Ht & Hn & Hg).
  subst channel. split; [done|]. split; [done|]. split; [eauto|done].
Qed.

Lemma iter_messages_total channel s e (stream : list tg_message) :
  is_Some (iter_messages channel (WithOffset s) (WithOffset e)
                         (map Got stream)).
Proof.
  induction stream as [|m stream [l IH]]; simpl; [by eexists|].
  destruct (message_date m <? s); [by eexists|].
  destruct (e <=? message_date m); [by eexists|].
  rewrite IH. destruct (has_text m); by eexists.
Qed.

(** A bound without an offset cannot be compared with the date of a
    message: whatever the channel holds, nothing is returned for it. *)
Lemma parse_channel_without_offset channel reading bound stream :
  parse_channel channel (WithoutOffset reading) bound stream = []
  ∧ parse_channel channel bound (WithoutOffset reading) stream = [].
Proof.
  unfold parse_channel. split.
  - by destruct stream as [|[m|] stream].
  - induction stream as [|[m|] stream IH]; simpl; [done| |done].
    destruct (date_lt (message_date m) bound) as [[|]|]; done.
Qed.

(** For bounds that carry an offset, on a stream without failure that
    runs from the newest message to the oldest, a channel yields exactly
    its messages with text dated inside the window, in stream order.  For
    a bound without an offset it yields nothing. *)
Theorem parse_channel_complete channel s e (stream : list tg_message) :
  newest_first stream →
  parse_channel channel (WithOffset s) (WithOffset e) (map Got stream)
  = textual_in_window channel s e stream
  ∧ ∀ reading bound,
      parse_channel channel (WithoutOffset reading) bound (map Got stream) = []
      ∧ parse_channel channel bound (WithoutOffset reading) (map Got stream)
        = [].
Proof.
  intros Hs. split; [|intros; apply parse_channel_without_offset].
  unfold parse_channel, textual_in_window.
  induction stream as [|m stream IH]; [done|].
  destruct Hs as [Hle Hs]. specialize (IH Hs). simpl.
  unfold in_window at 1.
  destruct (Z.ltb_spec (message_date m) s) as [Hold|Hnew].
  - replace (s <=? message_date m) with false
      by (symmetry; apply Z.leb_gt; lia).
    simpl.
    assert (List.filter (λ m0, in_window s e m0 && has_text m0)
                        stream = []) as ->; [|done].
    clear IH Hs. induction stream as [|m' stream IH']; [done|].
    apply Forall_cons in Hle as [Hm' Hle]. simpl. unfold in_window at 1.
    replace (s <=? message_date m') with false
      by (symmetry; apply Z.leb_gt; lia).
    simpl. by apply IH'.
  - replace (s <=? message_date m) with true
      by (symmetry; apply Z.leb_le; lia).
    destruct (Z.leb_spec e (message_date m)) as [Hlate|Hin].
    + replace (message_date m <? e) with false
        by (symmetry; apply Z.ltb_ge; lia).
      simpl. apply IH.
    + replace (message_date m <? e) with true
        by (symmetry; apply Z.ltb_lt; lia).
      simpl.
      destruct (iter_messages_total channel s e stream) as [later E].
      rewrite E in IH |- *. simpl in IH.
      destruct (has_text m); simpl; by rewrite IH.
Qed.

(** An exception raised by the iterator before it reaches a message older
    than the window loses the whole channel: the messages read so far are
    dropped with it. *)
Theorem failure_drops_channel channel start_date end_date
    (read : list tg_message) rest :
  Forall (λ m, date_lt (message_date m) start_date ≠ Some true) read →
  parse_channel channel start_date end_date (map Got read ++ Failed :: rest)
  = [].
Proof.
  intros Hall. unfold parse_channel.
  assert (iter_messages channel start_date end_date
            (map Got read ++ Failed :: rest) = None) as ->; [|done].
  induction Hall as [|m read Hm Hall IH]; simpl; [done|].
  destruct (date_lt (message_date m) start_date) as [[|]|]; [done| |done].
  rewrite IH. by destruct (date_ge (message_date m) end_date) as [[|]|].
Qed.

(** *** The window *)






(** A float number of days gives a window that starts inside a day: a day
    and a half before a midnight is a noon. *)
Example float_days_start_at_noon :
  calculate_date_range (10 * MICROS_PER_DAY + 9 * MICROS_PER_HOUR)
    (DaysFloat false (FloatDelta (36 * MICROS_PER_HOUR))) PyNone
  = Range (8 * MICROS_PER_DAY + 12 * MICROS_PER_HOUR) (10 * MICROS_PER_DAY).
Proof. reflexivity. Qed.

(** A request for the last [n] days (no ["today"] or ["yesterday"]
    period, [n] from 1 to 999999999).  When the [n] days before today's
    midnight are days [datetime] has, it gets these [n] whole days, and no
    channel yields a message dated today for it; when they reach back
    before the first day of [datetime], it raises [OverflowError]. *)
Theorem archive_excludes_today now n period channel stream :
  eq_str period "today" = false → eq_str period "yesterday" = false →
  1 ≤ n ≤ 999999999 →
  0 ≤ now < MAX_READING →
  (n * MICROS_PER_DAY ≤ midnight now →
   ∃ start_date end_date,
     calculate_date_range now (DaysObject (PyInt n)) period
       = Range start_date end_date ∧
     end_date = midnight now ∧
     end_date - start_date = n * MICROS_PER_DAY ∧
     ∀ c, c ∈ parse_channel channel (WithOffset start_date)
                            (WithOffset end_date) stream →
          midnight now - n * MICROS_PER_DAY ≤ publication_date c
          < midnight now) ∧
  (midnight now < n * MICROS_PER_DAY →
   calculate_date_range now (DaysObject (PyInt n)) period
   = RangeOverflowError).
Proof.
  intros Ht Hy Hn Hnow.
  destruct (FileScheduleProofs.midnight_spec now) as [[Hle _] H0].
  assert (0 < MICROS_PER_DAY) as Hday by (by vm_compute).
  unfold calculate_date_range. rewrite Ht, Hy. simpl.
  replace (n =? 0) with false by (symmetry; apply Z.eqb_neq; lia). simpl.
  replace ((-999999999 <=? n) && (n <=? 999999999)) with true
    by (symmetry; apply andb_true_iff; split; apply Z.leb_le; lia).
  unfold minus_timedelta, in_datetime_range, days_delta. split.
  - intros Hfits.
    replace (0 <=? midnight now - n * MICROS_PER_DAY) with true
      by (symmetry; apply Z.leb_le; lia).
    replace (midnight now - n * MICROS_PER_DAY <? MAX_READING) with true
      by (symmetry; apply Z.ltb_lt; nia).
    simpl. eexists _, _. split; [reflexivity|].
    split; [done|]. split; [lia|].
    intros c Hc. unfold parse_channel in Hc.
    destruct (iter_messages _ _ _ _) as [l|] eqn:E; [|set_solver].
    destruct (iter_messages_sound _ _ _ _ _ E c Hc)
      as ((s & e & [= <-] & [= <-] & Hw) & _).
    done.
  - intros Hover.
    replace (0 <=? midnight now - n * MICROS_PER_DAY) with false
      by (symmetry; apply Z.leb_gt; lia).
    done.
Qed.

(** *** Concrete runs *)

(** Yesterday's window on the example stream, read for a source the map
    does not know: the one message of yesterday with text. *)
Lemma parsed_messages_in_window_witness :
  let c := Collected "news" 13 (1 * MICROS_PER_DAY + 20 * MICROS_PER_HOUR) "c" in
  (∃ s e, WithOffset (1 * MICROS_PER_DAY) = WithOffset s
          ∧ WithOffset (2 * MICROS_PER_DAY) = WithOffset e
          ∧ s ≤ publication_date c < e) ∧
  text c ≠ EmptyString ∧
  (∃ channels,
     (λ _ : string, Some (Some ["news"])) (channels_path ∅ "source_9")
       = Some (Some channels) ∧
     channel_name c ∈ channels) ∧
  Got (TgMessage true (collected_id c) (publication_date c) (text c))
    ∈ (λ _ : string, map Got example_stream) (channel_name c).
Proof.
  apply (parsed_messages_in_window ∅ (λ _, Some (Some ["news"])) 12345 "hash"
           (λ _, map Got example_stream)
           (WithOffset (1 * MICROS_PER_DAY)) (WithOffset (2 * MICROS_PER_DAY))
           "source_9"
           [Collected "news" 13 (1 * MICROS_PER_DAY + 20 * MICROS_PER_HOUR) "c"]).
  - reflexivity.
  - apply list_elem_of_here.
Defined.

Lemma parse_channel_complete_witness :
  parse_channel "news" (WithOffset (1 * MICROS_PER_DAY))
                (WithOffset (2 * MICROS_PER_DAY)) (map Got example_stream)
  = textual_in_window "news" (1 * MICROS_PER_DAY) (2 * MICROS_PER_DAY)
                      example_stream
  ∧ ∀ reading bound,
      parse_channel "news" (WithoutOffset reading) bound
                    (map Got example_stream) = []
      ∧ parse_channel "news" bound (WithoutOffset reading)
                      (map Got example_stream) = [].
Proof.
  apply (parse_channel_complete "news" (1 * MICROS_PER_DAY)
           (2 * MICROS_PER_DAY) example_stream).
  simpl. repeat split; repeat constructor; vm_compute; discriminate.
Defined.

Lemma failure_drops_channel_witness :
  parse_channel "news" (WithOffset (1 * MICROS_PER_DAY))
                (WithOffset (2 * MICROS_PER_DAY))
                (map Got (take 2 example_stream) ++ Failed :: [])
  = [].
Proof.
  apply (failure_drops_channel "news" (WithOffset (1 * MICROS_PER_DAY))
           (WithOffset (2 * MICROS_PER_DAY)) (take 2 example_stream) []).
  repeat constructor; vm_compute; discriminate.
Defined.


Lemma archive_excludes_today_witness :
  ∃ start_date end_date,
    calculate_date_range (2 * MICROS_PER_DAY + 10 * MICROS_PER_HOUR)
                         (DaysObject (PyInt 1)) PyNone
      = Range start_date end_date ∧
    end_date = midnight (2 * MICROS_PER_DAY + 10 * MICROS_PER_HOUR) ∧
    end_date - start_date = 1 * MICROS_PER_DAY ∧
    ∀ c, c ∈ parse_channel "news" (WithOffset start_date)
                           (WithOffset end_date) (map Got example_stream) →
         midnight (2 * MICROS_PER_DAY + 10 * MICROS_PER_HOUR)
           - 1 * MICROS_PER_DAY
         ≤ publication_date c
         < midnight (2 * MICROS_PER_DAY + 10 * MICROS_PER_HOUR).
Proof.
  apply (archive_excludes_today (2 * MICROS_PER_DAY + 10 * MICROS_PER_HOUR)
           1 PyNone "news" (map Got example_stream));
    [reflexivity | reflexivity | lia | by vm_compute | by vm_compute].
Defined.

End TelegramParserProofs.

(* ===================================================================== *)
(** ** Further properties of the truncated-JSON fallback                  *)
(* ===================================================================== *)

Module ReportGeneratorMore.
Import ReportGenerator.
Local Open Scope nat_scope.

Lemma drop_cons_inv {A} (l : list A) i x r :
  drop i l = x :: r → l !! i = Some x ∧ drop (S i) l = r.
Proof.
  intros H. split.
  - rewrite <- (Nat.add_0_r i), <- lookup_drop, H. done.
  - replace (S i) with (i + 1) by lia. rewrite <- drop_drop, H. done.
Qed.

Section Soundness.
Context {Value : Type}.
Variable json_loads : text → option Value.
Variable whole : text.
Variable bracket_pos : nat.

(** A value that is the parse of a brace-delimited piece of the text lying
    after the opening bracket. *)
Let parsed_piece (v : Value) : Prop :=
  ∃ start stop,
    bracket_pos < start ∧ start < stop ∧ stop ≤ length whole ∧
    whole !! start = Some lbrace ∧
    whole !! (stop - 1) = Some rbrace ∧
    json_loads (slice whole start stop) = Some v.

Lemma scan_sound rest :
  ∀ i in_string escape brace_depth current_start results,
    drop i whole = rest →
    bracket_pos < i →
    (∀ s, current_start = Some s →
          bracket_pos < s ∧ s < i ∧ whole !! s = Some lbrace) →
    Forall parsed_piece results →
    Forall parsed_piece
      (scan json_loads whole rest i in_string escape brace_depth
            current_start results).
Proof.
  induction rest as [|ch rest IH];
    intros i ins esc d cs res Hdrop Hi Hcs Hres; simpl; [done|].
  apply drop_cons_inv in Hdrop as [Hch Hdrop].
  assert (∀ s, cs = Some s →
               bracket_pos < s ∧ s < S i ∧ whole !! s = Some lbrace) as Hcs'.
  { intros s Hs. destruct (Hcs s Hs) as (? & ? & ?). auto with lia. }
  assert (bracket_pos < S i) as Hi' by lia.
  destruct ins.
  { repeat case_match; apply IH; auto. }
  destruct (Ascii.eqb ch dquote); [apply IH; auto|].
  destruct (Ascii.eqb_spec ch lbrace) as [->|_].
  { apply IH; auto. intros s Hs. destruct (d =? 0).
    - injection Hs as <-. auto with lia.
    - auto. }
  destruct (Ascii.eqb_spec ch rbrace) as [->|_].
  { destruct (0 <? d); [|apply IH; auto].
    destruct (d - 1 =? 0); [|apply IH; auto].
    destruct cs as [s|]; [|apply IH; auto].
    apply IH; auto; [done|].
    destruct (json_loads (slice whole s (i + 1))) as [obj|] eqn:E; [|done].
    apply Forall_app. split; [done|]. apply Forall_singleton.
    destruct (Hcs s eq_refl) as (Hb & Hlt & Hs).
    exists s, (i + 1). repeat split; try done; try lia.
    - apply lookup_lt_Some in Hch. lia.
    - by replace (i + 1 - 1) with i by lia. }
  destruct (Ascii.eqb ch rbracket); [|apply IH; auto].
  destruct (d =? 0); [done|apply IH; auto].
Qed.

End Soundness.

(** Whatever the text looks like, every record the extractor returns is
    what [json.loads] made of a piece of that text which starts with an
    opening brace, ends with a closing brace, and lies after the first
    opening bracket that follows the items key. *)
Theorem extracted_records_come_from_text {Value : Type}
    (json_loads : text → option Value) (whole : text) (v : Value) :
  v ∈ extract_items_from_truncated_json json_loads whole →
  ∃ key_pos bracket_pos start stop,
    str_find whole items_key 0 = Some key_pos ∧
    str_find whole [lbracket] key_pos = Some bracket_pos ∧
    bracket_pos < start ∧ start < stop ∧ stop ≤ length whole ∧
    whole !! start = Some lbrace ∧
    whole !! (stop - 1) = Some rbrace ∧
    json_loads (slice whole start stop) = Some v.
Proof.
  unfold extract_items_from_truncated_json. intros Hv.
  destruct (str_find whole items_key 0) as [key_pos|] eqn:Hkey; [|set_solver].
  destruct (str_find whole [lbracket] key_pos) as [bracket_pos|] eqn:Hbr;
    [|set_solver].
  exists key_pos, bracket_pos.
  pose proof (scan_sound json_loads whole bracket_pos
                (drop (bracket_pos + 1) whole) (bracket_pos + 1)
                false false 0 None [] eq_refl ltac:(lia)
                ltac:(done) ltac:(constructor)) as Hall.
  rewrite Forall_forall in Hall.
  destruct (Hall v Hv) as (start & stop & H).
  exists start, stop. split; [done|]. split; [done|]. tauto.
Qed.

(** The first record of the sample response. *)
Lemma extracted_records_come_from_text_witness :
  ∃ key_pos bracket_pos start stop,
    str_find (sanitize_json_response id id id sample_response) items_key 0
      = Some key_pos ∧
    str_find (sanitize_json_response id id id sample_response) [lbracket] key_pos
      = Some bracket_pos ∧
    bracket_pos < start ∧ start < stop ∧
    stop ≤ length (sanitize_json_response id id id sample_response) ∧
    sanitize_json_response id id id sample_response !! start = Some lbrace ∧
    sanitize_json_response id id id sample_response !! (stop - 1) = Some rbrace ∧
    loads_if_nested (slice (sanitize_json_response id id id sample_response)
                           start stop)
      = Some sample_record_a.
Proof.
  apply (extracted_records_come_from_text loads_if_nested
           (sanitize_json_response id id id sample_response) sample_record_a).
  vm_compute. left.
Defined.

End ReportGeneratorMore.

(* ===================================================================== *)
(** ** Properties of the provider factory                                 *)
(* ===================================================================== *)

Module ProvidersProofs.
Import Py Providers.

Lemma init_alias_known model_alias :
  init_alias model_alias = "flash_2_5" ∨ init_alias model_alias = "flash_3_0".
Proof.
  unfold init_alias.
  set (chosen := match model_alias with
                 | Some a => if String.eqb a EmptyString
                             then DEFAULT_MODEL_ALIAS else a
                 | None => DEFAULT_MODEL_ALIAS
                 end).
  clearbody chosen.
  destruct (mapping_get MODEL_MAPPING chosen) eqn:E; [|auto].
  unfold MODEL_MAPPING in E. cbn [mapping_get] in E.
  destruct (String.eqb_spec "flash_2_5" chosen) as [<-|_]; [auto|].
  destruct (String.eqb_spec "flash_3_0" chosen) as [<-|_]; [auto|done].
Qed.

(** Whatever mode and alias are asked for, a provider the factory returns
    has a model id: the lookup in [MODEL_MAPPING] never misses, the id is
    one of the four of the mapping, and an unknown, empty or missing alias
    gives the id of the default model.  Only the mode ["paid"] gives the
    Polza provider; every other mode gives the Gemini one. *)
Theorem provider_model_id_defined polza_api_key provider_mode model_alias p :
  get_provider polza_api_key provider_mode model_alias = Some p →
  (∃ id, model_id p = Some id ∧
         id ∈ ["gemini-2.5-flash"; "gemini-3-flash-preview";
               "google/gemini-2.5-flash"; "google/gemini-3-flash-preview"]) ∧
  (mapping_get MODEL_MAPPING (default EmptyString model_alias) = None →
     model_id p = Some "gemini-2.5-flash"
     ∨ model_id p = Some "google/gemini-2.5-flash") ∧
  (eq_str provider_mode "paid" = false →
     p = GeminiProvider (init_alias model_alias)).
Proof.
  unfold get_provider. intros H.
  assert (mapping_get MODEL_MAPPING (default EmptyString model_alias) = None →
          init_alias model_alias = "flash_2_5") as Hdefault.
  { unfold init_alias. destruct model_alias as [a|]; [|done].
    intros Hn. change (mapping_get MODEL_MAPPING a = None) in Hn.
    destruct (String.eqb_spec a EmptyString) as [->|_]; [done|].
    by rewrite Hn. }
  destruct (eq_str provider_mode "paid").
  - destruct (String.eqb polza_api_key EmptyString); [done|].
    injection H as <-. split; [|split; [|done]].
    + destruct (init_alias_known model_alias) as [-> | ->]; simpl;
        eexists; (split; [reflexivity|set_solver]).
    + intros Hn. rewrite (Hdefault Hn). auto.
  - injection H as <-. split; [|split; [|done]].
    + destruct (init_alias_known model_alias) as [-> | ->]; simpl;
        eexists; (split; [reflexivity|set_solver]).
    + intros Hn. rewrite (Hdefault Hn). auto.
Qed.

(** The paid mode with a key and an alias the mapping does not know. *)
Lemma provider_model_id_defined_witness :
  (∃ id, model_id (PolzaProvider "flash_2_5") = Some id ∧
         id ∈ ["gemini-2.5-flash"; "gemini-3-flash-preview";
               "google/gemini-2.5-flash"; "google/gemini-3-flash-preview"]) ∧
  (mapping_get MODEL_MAPPING (default EmptyString (Some "pro_9")) = None →
     model_id (PolzaProvider "flash_2_5") = Some "gemini-2.5-flash"
     ∨ model_id (PolzaProvider "flash_2_5") = Some "google/gemini-2.5-flash") ∧
  (eq_str (PyStr "paid") "paid" = false →
     PolzaProvider "flash_2_5" = GeminiProvider (init_alias (Some "pro_9"))).
Proof.
  apply (provider_model_id_defined "key" (PyStr "paid") (Some "pro_9")
           (PolzaProvider "flash_2_5")).
  reflexivity.
Defined.

End ProvidersProofs.

(* ===================================================================== *)
(** ** telegram_bot.py: who may start a dialogue, how fast, and what the
       dialogue sends                                                     *)
(* ===================================================================== *)

Module TelegramBotProofs.
Import Py TelegramBot.

Section AccessProofs.

Variable py_strip : string → string.
Variable py_int : string → option Z.

Lemma read_ids_malformed parts uid :
  uid ∈ parts →
  py_strip uid ≠ EmptyString →
  py_int (py_strip uid) = None →
  read_ids py_strip py_int parts = None.
Proof.
  induction parts as [|part parts IH]; intros Hin Hne Hint.
  - by apply elem_of_nil in Hin.
  - simpl. apply elem_of_cons in Hin as [<-|Hin].
    + destruct (String.eqb_spec (py_strip uid) EmptyString); [done|].
      by rewrite Hint.
    + rewrite (IH Hin Hne Hint).
      destruct (String.eqb (py_strip part) EmptyString); [done|].
      by destruct (py_int (py_strip part)).
Qed.

Lemma read_ids_members parts ids :
  read_ids py_strip py_int parts = Some ids →
  ∀ n, n ∈ ids ↔
       ∃ uid, uid ∈ parts ∧ py_strip uid ≠ EmptyString
              ∧ py_int (py_strip uid) = Some n.
Proof.
  revert ids. induction parts as [|part parts IH]; intros ids H n.
  - injection H as <-. split.
    + intros Hin. by apply elem_of_nil in Hin.
    + intros (uid & Hin & _). by apply elem_of_nil in Hin.
  - simpl in H.
    destruct (String.eqb_spec (py_strip part) EmptyString) as [Hb|Hb].
    + rewrite (IH ids H n). split.
      * intros (uid & Hin & Hne & Hint). exists uid.
        split; [by apply elem_of_cons; right|done].
      * intros (uid & Hin & Hne & Hint). exists uid.
        apply elem_of_cons in Hin as [->|Hin]; [done|done].
    + destruct (py_int (py_strip part)) as [k|] eqn:Hk; [|done].
      destruct (read_ids py_strip py_int parts) as [ids'|] eqn:Hr; [|done].
      injection H as <-. rewrite elem_of_cons, (IH ids' eq_refl n). split.
      * intros [->|(uid & Hin & Hne & Hint)].
        -- exists part. split; [apply list_elem_of_here|done].
        -- exists uid. split; [by apply elem_of_cons; right|done].
      * intros (uid & Hin & Hne & Hint).
        apply elem_of_cons in Hin as [->|Hin].
        -- left. congruence.
        -- right. by exists uid.
Qed.

Lemma read_ids_wellformed parts :
  (∀ uid, uid ∈ parts → py_strip uid ≠ EmptyString →
          is_Some (py_int (py_strip uid))) →
  is_Some (read_ids py_strip py_int parts).
Proof.
  induction parts as [|part parts IH]; intros Hall; [by eexists|].
  simpl. destruct IH as [ids Hids].
  { intros uid Hin. apply Hall, elem_of_cons. by right. }
  rewrite Hids.
  destruct (String.eqb_spec (py_strip part) EmptyString) as [Hb|Hb];
    [by eexists|].
  destruct (Hall part (list_elem_of_here _ _) Hb) as [k ->]. by eexists.
Qed.

(** [is_user_allowed] fails open: one entry of [ALLOWED_USERS] that is
    not blank and that [int] rejects makes [parse_allowed_users] return
    the empty set, and then every user id is let in. *)
Theorem malformed_allow_list_admits_everyone ALLOWED_USERS uid user_id :
  uid ∈ split_comma ALLOWED_USERS →
  py_strip uid ≠ EmptyString →
  py_int (py_strip uid) = None →
  parse_allowed_users py_strip py_int ALLOWED_USERS = []
  ∧ is_user_allowed py_strip py_int ALLOWED_USERS user_id = true.
Proof.
  intros Hin Hne Hint.
  assert (parse_allowed_users py_strip py_int ALLOWED_USERS = []) as Hp.
  { unfold parse_allowed_users.
    destruct (String.eqb ALLOWED_USERS EmptyString); [done|].
    by rewrite (read_ids_malformed _ _ Hin Hne Hint). }
  split; [done|]. unfold is_user_allowed. by rewrite Hp.
Qed.

(** With a list in which every entry that is not blank is a number, and at
    least one such entry, a user is let in exactly when one of the entries
    reads as their id. *)
Theorem allow_list_membership ALLOWED_USERS user_id :
  (∀ uid, uid ∈ split_comma ALLOWED_USERS → py_strip uid ≠ EmptyString →
          is_Some (py_int (py_strip uid))) →
  (∃ uid, uid ∈ split_comma ALLOWED_USERS ∧ py_strip uid ≠ EmptyString) →
  ALLOWED_USERS ≠ EmptyString →
  is_user_allowed py_strip py_int ALLOWED_USERS user_id = true
  ↔ ∃ uid, uid ∈ split_comma ALLOWED_USERS ∧ py_strip uid ≠ EmptyString
           ∧ py_int (py_strip uid) = Some user_id.
Proof.
  intros Hall (uid0 & Hin0 & Hne0) Hnonempty.
  destruct (read_ids_wellformed _ Hall) as [ids Hids].
  pose proof (read_ids_members _ _ Hids) as Hmem.
  unfold is_user_allowed, parse_allowed_users.
  destruct (String.eqb_spec ALLOWED_USERS EmptyString); [done|].
  rewrite Hids. cbn [default].
  destruct (Hall uid0 Hin0 Hne0) as [k Hk].
  assert (k ∈ ids) as Hkin by (apply Hmem; by exists uid0).
  destruct ids as [|i ids]; [by apply elem_of_nil in Hkin|].
  change (id (i :: ids)) with (i :: ids).
  rewrite <- Hmem, existsb_exists. split.
  - intros (x & Hx & Heq). apply Z.eqb_eq in Heq as ->.
    by apply list_elem_of_In.
  - intros Hx. exists user_id. split; [by apply list_elem_of_In|].
    apply Z.eqb_refl.
Qed.

(** Whoever [get_admin_user_id] names is on the list the access check
    uses.  [int] rejects the empty string. *)
Theorem admin_is_allowed ALLOWED_USERS admin :
  py_int EmptyString = None →
  get_admin_user_id py_strip py_int ALLOWED_USERS = Some admin →
  admin ∈ parse_allowed_users py_strip py_int ALLOWED_USERS
  ∧ is_user_allowed py_strip py_int ALLOWED_USERS admin = true.
Proof.
  intros Hempty H. unfold get_admin_user_id in H.
  assert (admin ∈ parse_allowed_users py_strip py_int ALLOWED_USERS) as Hin.
  { unfold parse_allowed_users in *.
    destruct (String.eqb ALLOWED_USERS EmptyString); [done|].
    destruct (split_comma ALLOWED_USERS) as [|first rest]; [done|].
    simpl in *.
    destruct (String.eqb_spec (py_strip first) EmptyString) as [Hb|Hb].
    { destruct (default [] (read_ids py_strip py_int rest)); [done|].
      rewrite Hb, Hempty in H. done. }
    destruct (py_int (py_strip first)) as [k|]; [|done].
    destruct (read_ids py_strip py_int rest) as [ids|]; [|done].
    cbn in H. injection H as ->. apply list_elem_of_here. }
  split; [done|]. unfold is_user_allowed.
  destruct (parse_allowed_users py_strip py_int ALLOWED_USERS) as [|i ids];
    [by apply elem_of_nil in Hin|].
  apply existsb_exists. exists admin.
  split; [by apply list_elem_of_In|apply Z.eqb_refl].
Qed.

End AccessProofs.

(** An entry ["x7"] next to a good one. *)
Lemma malformed_allow_list_admits_everyone_witness :
  parse_allowed_users (λ s, s)
    (λ s, if String.eqb s "42" then Some 42 else None) "42,x7" = []
  ∧ is_user_allowed (λ s, s)
      (λ s, if String.eqb s "42" then Some 42 else None) "42,x7" 1000 = true.
Proof.
  apply (malformed_allow_list_admits_everyone (λ s, s)
           (λ s, if String.eqb s "42" then Some 42 else None)
           "42,x7" "x7" 1000).
  - vm_compute. apply list_elem_of_further, list_elem_of_here.
  - discriminate.
  - reflexivity.
Defined.

Lemma allow_list_membership_witness :
  is_user_allowed (λ s, s)
    (λ s, if String.eqb s "42" then Some 42 else None) "42," 42 = true
  ↔ ∃ uid, uid ∈ split_comma "42," ∧ uid ≠ EmptyString
           ∧ (if String.eqb uid "42" then Some 42 else None) = Some 42.
Proof.
  apply (allow_list_membership (λ s, s)
           (λ s, if String.eqb s "42" then Some 42 else None) "42," 42).
  - intros uid Hin Hne. vm_compute in Hin.
    apply elem_of_cons in Hin as [->|Hin]; [by eexists|].
    apply elem_of_cons in Hin as [->|Hin]; [done|].
    by apply elem_of_nil in Hin.
  - exists "42". split; [vm_compute; apply list_elem_of_here|discriminate].
  - discriminate.
Defined.

Lemma admin_is_allowed_witness :
  42 ∈ parse_allowed_users (λ s, s)
         (λ s, if String.eqb s "42" then Some 42 else None) "42,42"
  ∧ is_user_allowed (λ s, s)
      (λ s, if String.eqb s "42" then Some 42 else None) "42,42" 42 = true.
Proof.
  apply (admin_is_allowed (λ s, s)
           (λ s, if String.eqb s "42" then Some 42 else None) "42,42" 42).
  - reflexivity.
  - reflexivity.
Defined.

(** *** Rate limit *)

Lemma rate_limited_other now user_id user last_action_at :
  user_id ≠ user →
  (rate_limited now user_id last_action_at).2 !! user = last_action_at !! user.
Proof.
  intros Hne. unfold rate_limited.
  destruct (_ <? _); [done|]. simpl. by rewrite lookup_insert_ne.
Qed.

(** The actions of one user that [rate_limited] lets through are at least
    [RATE_LIMIT_SECONDS] apart, whatever the other users do in between;
    the first one is that far from the zero of the clock. *)
Theorem passed_actions_spaced user last_action_at calls :
  spaced (default 0 (last_action_at !! user))
         (passed_times user last_action_at calls).
Proof.
  revert last_action_at.
  induction calls as [|[now user_id] calls IH]; intros st; [done|].
  cbn [passed_times].
  destruct (Z.eqb_spec user_id user) as [->|Hne].
  - unfold rate_limited at 1 2 3.
    destruct (Z.ltb_spec (now - default 0 (st !! user)) RATE_LIMIT) as [Hlt|Hge].
    + simpl. apply IH.
    + simpl. split; [done|].
      specialize (IH (<[user:=now]> st)).
      by rewrite lookup_insert_eq in IH.
  - simpl. rewrite <- (rate_limited_other now user_id user st Hne). apply IH.
Qed.

(** *** Dialogue *)

Section DialogueProofs.

Variable py_strip : string → string.
Variable py_isdigit : string → bool.
Variable py_int : string → option Z.

Local Abbreviation handle := (handle py_strip py_isdigit py_int).
Local Abbreviation converse := (converse py_strip py_isdigit py_int).

Lemma start_report_generation_ok can_start d :
  stored_ok d →
  stored_ok (start_report_generation can_start d).2
  ∧ ∀ p, (start_report_generation can_start d).1 = Some p →
         request_period_ok p.
Proof.
  intros [Hp Hd]. unfold start_report_generation.
  destruct can_start; cbn [negb]; [|by split].
  destruct d as [st dt]. cbn [data] in *.
  unfold period_written in Hp. unfold days_written in Hd.
  destruct (truthy_text (period dt)) eqn:Ht.
  - cbn [orb fst snd]. split.
    + split; [by left|done].
    + intros p [= <-]. left. cbn. split; [|done].
      destruct Hp as [Hp|Hp]; [|done].
      by rewrite Hp in Ht.
  - cbn [orb]. destruct (truthy_days (days dt)) eqn:Hy.
    + cbn [fst snd]. split.
      * split; [by left|done].
      * intros p [= <-]. right. cbn. split; [done|].
        destruct (days dt) as [n|]; [by exists n|done].
    + by split.
Qed.

Lemma handle_ok d u :
  stored_ok d →
  stored_ok (handle d u).2
  ∧ ∀ p, (handle d u).1 = Some p → request_period_ok p.
Proof.
  intros Hok. pose proof Hok as [Hp Hd].
  assert (stored_ok (Dialogue None no_data)) as Hclear.
  { split; [by left|done]. }
  destruct u as [name allowed|callback_data limited message_id can_start
                |message_text]; cbn [TelegramBot.handle].
  - split; [|done]. cbn [snd]. unfold on_command.
    repeat case_match; try done.
  - unfold TelegramBot.on_callback. cbv zeta.
    repeat match goal with
           | |- context [if ?b then _ else _] =>
               lazymatch b with
               | context [if _ then _ else _] => fail
               | _ => destruct b eqn:?
               end
           end;
      try (split; [done|done]);
      try (split; [split; assumption|done]);
      try apply start_report_generation_ok;
      try (split; [split; [|assumption]|done]).
    all: try (split; assumption).
    all: unfold period_written; cbn.
    all: match goal with
         | H : _ || _ = true |- _ =>
             apply orb_true_iff in H as [H|H];
             apply String.eqb_eq in H; rewrite H; auto
         end.
  - split; [|done]. cbn [snd]. unfold on_text.
    repeat case_match; try done.
    split; [done|]. unfold days_written. cbn.
    match goal with
    | H : _ || _ = false |- _ => apply orb_false_iff in H as [Hlo Hhi]
    end.
    apply Z.ltb_ge in Hlo, Hhi. lia.
Qed.

Lemma converse_ok d updates :
  stored_ok d →
  ∀ p, p ∈ (converse d updates).1 → request_period_ok p.
Proof.
  revert d. induction updates as [|u updates IH]; intros d Hok p Hin.
  - by apply elem_of_nil in Hin.
  - cbn [TelegramBot.converse] in Hin. cbv zeta in Hin. cbn [fst] in Hin.
    destruct (handle_ok d u Hok) as [Hok' Hreq].
    destruct (handle d u).1 as [q|] eqn:Hq.
    + apply elem_of_cons in Hin as [->|Hin]; [by apply Hreq|].
      by apply (IH _ Hok').
    + by apply (IH _ Hok').
Qed.

(** Whatever updates arrive after a fresh start, every request the bot
    sends names the day one way: [period] is [today] or [yesterday] and
    there is no [days], or there is no [period] and [days] is within
    1..365. *)
Theorem requests_name_one_period updates p :
  p ∈ (converse cleared updates).1 → request_period_ok p.
Proof.
  apply converse_ok. split; [by left|done].
Qed.

Lemma in_state_inv d s :
  in_state d s = true → state d = Some s.
Proof.
  destruct d as [[st|] dt]; [|done]. by destruct st, s.
Qed.

Lemma step_period d chosen message_id can_start :
  in_state d choosing_period = true →
  chosen = "today" ∨ chosen = "yesterday" →
  on_callback (String.append "period_" chosen) false message_id can_start d
  = (None,
     with_state choosing_model
       (FsmData (provider_mode (data d)) (channel_source (data d))
                (report_type (data d)) (Some chosen) (days (data d))
                (model_alias (data d)) (instruction_message_id (data d)))).
Proof.
  intros Hs%in_state_inv Hc. destruct d as [st dt]. cbn [state] in Hs.
  subst st. by destruct Hc as [-> | ->].
Qed.

Lemma step_back_to_period d message_id can_start :
  on_callback "nav_back_to_period" false message_id can_start d
  = (None, with_state choosing_period (data d)).
Proof.
  destruct d as [[st|] dt]; [by destruct st|done].
Qed.

Lemma step_manual d message_id can_start :
  in_state d choosing_period = true →
  on_callback "period_manual" false message_id can_start d
  = (None,
     with_state entering_days
       (FsmData (provider_mode (data d)) (channel_source (data d))
                (report_type (data d)) (period (data d)) (days (data d))
                (model_alias (data d)) (Some message_id))).
Proof.
  intros Hs%in_state_inv. destruct d as [st dt]. cbn [state] in Hs.
  by subst st.
Qed.

Lemma step_days d message_text n :
  in_state d entering_days = true →
  py_isdigit (py_strip message_text) = true →
  py_int (py_strip message_text) = Some n →
  1 ≤ n ≤ 365 →
  on_text py_strip py_isdigit py_int message_text d
  = with_state choosing_model
      (FsmData (provider_mode (data d)) (channel_source (data d))
               (report_type (data d)) (period (data d)) (Some n)
               (model_alias (data d)) (instruction_message_id (data d))).
Proof.
  intros Hs Hdigit Hint [Hlo Hhi]. unfold on_text.
  rewrite Hs, Hdigit, Hint. cbn [negb].
  destruct (Z.ltb_spec n 1); [lia|].
  destruct (Z.ltb_spec 365 n); [lia|]. done.
Qed.

Lemma step_model d callback_data message_id can_start :
  in_state d choosing_model = true →
  String.prefix "model_" callback_data = true →
  on_callback callback_data false message_id can_start d
  = start_report_generation can_start
      (Dialogue (state d)
         (FsmData (provider_mode (data d)) (channel_source (data d))
                  (report_type (data d)) (period (data d)) (days (data d))
                  (Some (remove_all "model_" 0 callback_data))
                  (instruction_message_id (data d)))).
Proof.
  intros Hs%in_state_inv Hm. destruct d as [st dt]. cbn [state] in Hs.
  subst st. unfold TelegramBot.on_callback.
  cbn [in_state state]. rewrite !andb_false_r, Hm. done.
Qed.

(** A period chosen earlier outlives a later choice of days: after
    [today] or [yesterday], the way back to the period menu, "manual" and
    a valid number of days, the model button sends a request with the old
    period and without the days the user typed. *)
Theorem stale_period_overrides_days d chosen message_text n model
    id1 id2 id3 id4 c1 c2 c3 :
  in_state d choosing_period = true →
  chosen = "today" ∨ chosen = "yesterday" →
  py_isdigit (py_strip message_text) = true →
  py_int (py_strip message_text) = Some n →
  1 ≤ n ≤ 365 →
  String.prefix "model_" model = true →
  ∃ p,
    converse d [Callback (String.append "period_" chosen) false id1 c1;
                Callback "nav_back_to_period" false id2 c2;
                Callback "period_manual" false id3 c3;
                TextMessage message_text;
                Callback model false id4 true]
    = ([p], cleared)
    ∧ params_period p = Some chosen
    ∧ params_days p = None.
Proof.
  intros Hs Hc Hdigit Hint Hn Hm.
  cbn [TelegramBot.converse TelegramBot.handle]. cbv zeta.
  rewrite (step_period _ _ _ _ Hs Hc). cbn [fst snd].
  rewrite step_back_to_period. cbn [fst snd].
  rewrite step_manual by done. cbn [fst snd].
  rewrite (step_days _ _ n) by done. cbn [fst snd].
  rewrite step_model by done.
  unfold start_report_generation. cbn [negb data with_state period].
  assert (truthy_text (Some chosen) = true) as Ht
    by (by destruct Hc as [-> | ->]).
  rewrite Ht. cbn [orb fst snd]. eexists. split; [reflexivity|]. done.
Qed.

End DialogueProofs.

(** The buttons of a whole dialogue, pressed in order. *)
Lemma requests_name_one_period_witness :
  request_period_ok
    (ApiParams (Some "news") (Some "today") None (Some "source_1")
               "flash_2_5" "free").
Proof.
  apply (requests_name_one_period (λ s, s) (λ _, true) (λ _, Some 7)
           [Command "start" true;
            Callback "mode_free" false 10 true;
            Callback "source_source_1" false 10 true;
            Callback "type_news" false 10 true;
            Callback "period_today" false 10 true;
            Callback "model_flash_2_5" false 10 true]).
  vm_compute. apply list_elem_of_here.
Defined.

(** [today], back, manual, ["7"], then the 2.5 model. *)
Lemma stale_period_overrides_days_witness :
  ∃ p,
    converse (λ s, s) (λ _, true) (λ _, Some 7)
      (with_state choosing_period no_data)
      [Callback "period_today" false 10 true;
       Callback "nav_back_to_period" false 10 true;
       Callback "period_manual" false 10 true;
       TextMessage "7";
       Callback "model_flash_2_5" false 10 true]
    = ([p], cleared)
    ∧ params_period p = Some "today"
    ∧ params_days p = None.
Proof.
  apply (stale_period_overrides_days (λ s, s) (λ _, true) (λ _, Some 7)
           (with_state choosing_period no_data) "today" "7" 7
           "model_flash_2_5" 10 10 10 10 true true true).
  - reflexivity.
  - by left.
  - reflexivity.
  - reflexivity.
  - lia.
  - reflexivity.
Defined.

End TelegramBotProofs.

(* ===================================================================== *)
(** ** The retention routine stays inside the target directory            *)
(* ===================================================================== *)

Module TargetWalkProofs.
Import FileCleaner CacheFiles TargetWalk FileCleanerProofs CacheFilesProofs.

(** *** Paths of the walk *)

Lemma append_assoc_string a b c : (a +:+ b) +:+ c = a +:+ (b +:+ c).
Proof.
  induction a as [|x a IH]; [done|].
  change (String x ((a +:+ b) +:+ c) = String x (a +:+ (b +:+ c))).
  by rewrite IH.
Qed.

Lemma join_slash_snoc comps name :
  comps ≠ [] →
  join_slash (comps ++ [name]) = join_slash comps +:+ ("/" +:+ name).
Proof.
  induction comps as [|a comps IH]; [done|]. intros _.
  destruct comps as [|b comps]; [done|].
  change (join_slash ((a :: b :: comps) ++ [name]))
    with (a +:+ ("/" +:+ join_slash ((b :: comps) ++ [name]))).
  rewrite IH by done.
  change (join_slash (a :: b :: comps))
    with (a +:+ ("/" +:+ join_slash (b :: comps))).
  by rewrite !append_assoc_string.
Qed.

Lemma get_append_last s t :
  t ≠ EmptyString →
  String.get (String.length (s +:+ t) - 1) (s +:+ t)
  = String.get (String.length t - 1) t.
Proof.
  intros Ht. induction s as [|c s IH]; [done|].
  change (String c s +:+ t) with (String c (s +:+ t)).
  assert (String.length (s +:+ t) ≠ 0)%nat as Hlen.
  { rewrite append_length. destruct t; [done|]. simpl. lia. }
  simpl String.length.
  destruct (String.length (s +:+ t)) as [|n] eqn:E; [done|].
  rewrite <- IH.
  replace (S (S n) - 1)%nat with (S n) by lia.
  replace (S n - 1)%nat with n by lia.
  reflexivity.
Qed.

Lemma no_slash_get t n c :
  no_slash t = true → String.get n t = Some c → Ascii.eqb c "/" = false.
Proof.
  revert n. induction t as [|x t IH]; intros n Hs Hg; [done|].
  simpl in Hs. apply andb_true_iff in Hs as [Hx Hs].
  destruct n as [|n]; simpl in Hg.
  - injection Hg as <-. by apply negb_true_iff.
  - by apply (IH n).
Qed.

Lemma join_slash_ends comps :
  comps ≠ [] → Forall plain_component comps →
  ∃ pre name, join_slash comps = pre +:+ name ∧ plain_component name.
Proof.
  induction comps as [|a comps IH]; [done|]. intros _ Hall.
  apply Forall_cons in Hall as [Ha Hall].
  destruct comps as [|b comps].
  - by exists EmptyString, a.
  - destruct IH as (pre & name & Heq & Hname); [done|done|].
    exists (a +:+ ("/" +:+ pre)), name. split; [|done].
    change (join_slash (a :: b :: comps))
      with (a +:+ ("/" +:+ join_slash (b :: comps))).
    by rewrite Heq, !append_assoc_string.
Qed.

(** [os.path.join] of a walked directory and an entry name puts one
    separator between them. *)
Lemma path_join_walked comps filename :
  comps ≠ [] → Forall plain_component comps → plain_component filename →
  path_join ("/" +:+ join_slash comps) filename
  = "/" +:+ join_slash (comps ++ [filename]).
Proof.
  intros Hne Hall (Hns & Hn0 & _). unfold path_join.
  assert (String.prefix "/" filename = false) as ->.
  { destruct filename as [|c filename]; [done|].
    simpl in Hns. apply andb_true_iff in Hns as [Hc _].
    apply negb_true_iff in Hc.
    change "/" with (String "/" EmptyString). rewrite prefix_cons.
    by rewrite Ascii.eqb_sym, Hc. }
  change (String.eqb ("/" +:+ join_slash comps) EmptyString) with false.
  cbv iota.
  destruct (join_slash_ends comps Hne Hall) as (pre & name & Heq & Hname).
  destruct Hname as (Hs & H0 & _).
  assert (String.get (String.length ("/" +:+ join_slash comps) - 1)
                     ("/" +:+ join_slash comps)
          = String.get (String.length name - 1) name) as ->.
  { rewrite Heq, <- append_assoc_string. by apply get_append_last. }
  rewrite join_slash_snoc by done.
  destruct (String.get (String.length name - 1) name) as [c|] eqn:Hg.
  - by rewrite (no_slash_get _ _ _ Hs Hg), append_assoc_string.
  - by rewrite append_assoc_string.
Qed.

Lemma target_components dirs :
  Forall plain_component dirs →
  Forall plain_component ("data" :: "raw_parses" :: dirs).
Proof.
  intros H. apply Forall_cons. split; [by apply plain_literal|].
  apply Forall_cons. split; [by apply plain_literal|done].
Qed.

Lemma prefix_append a t : String.prefix a (a +:+ t) = true.
Proof.
  induction a as [|c a IH]; [by destruct t|].
  change (String c a +:+ t) with (String c (a +:+ t)).
  by rewrite prefix_cons, Ascii.eqb_refl.
Qed.

(** Every path the walk of the target directory makes the routine look at
    is its own normal form and lies inside the target directory. *)
Lemma candidate_inside_target walk root files filename :
  walk_of_target walk → (root, files) ∈ walk → filename ∈ files →
  normpath (path_join root filename) = path_join root filename
  ∧ inside_directory TARGET_DIRECTORY (path_join root filename) = true.
Proof.
  intros Hwalk Hin Hf.
  pose proof (proj1 (Forall_forall _ _) Hwalk _ Hin)
    as [(dirs & Hd & Hroot) Hfiles].
  cbn [fst snd] in Hroot, Hfiles. subst root.
  pose proof (proj1 (Forall_forall _ _) Hfiles _ Hf) as Hname.
  rewrite path_join_walked by (try done; by apply target_components).
  split.
  - apply normpath_of_plain_components; [done|].
    apply Forall_app. split; [by apply target_components|].
    by apply Forall_singleton.
  - unfold inside_directory, TARGET_DIRECTORY. apply orb_true_iff. right.
    destruct (dirs ++ [filename]) as [|x rest] eqn:E;
      [by destruct dirs|].
    change (("data" :: "raw_parses" :: dirs) ++ [filename])
      with ("data" :: "raw_parses" :: (dirs ++ [filename])).
    rewrite E.
    change ("/" +:+ join_slash ("data" :: "raw_parses" :: x :: rest))
      with (("/data/raw_parses" +:+ "/") +:+ join_slash (x :: rest)).
    apply prefix_append.
Qed.

Lemma inside_directory_prefix directory normalized_path :
  inside_directory directory normalized_path = true →
  String.prefix directory normalized_path = true.
Proof.
  unfold inside_directory. intros [H|H]%orb_true_iff.
  - apply String.eqb_eq in H as ->.
    induction directory as [|c d IH]; [done|].
    by rewrite prefix_cons, Ascii.eqb_refl.
  - revert normalized_path H. induction directory as [|c d IH];
      intros n H; [by destruct n|].
    destruct n as [|c' n]; [done|].
    change (String c d +:+ "/") with (String c (d +:+ "/")) in H.
    rewrite prefix_cons in *. destruct (Ascii.eqb c c'); [by apply IH|done].
Qed.

(** C5: the routine never removes a file outside [/data/raw_parses].
    Every path the walk of the target directory hands over lies inside
    it, so does every path [os.remove] is called on, and none of them
    lies under a forbidden path; a path that [is_path_safe] rejects is
    never removed, whatever the walk hands over; and [is_path_safe] rejects
    every path under [/data/temp] or [/data/telegram_parser_session] and
    every path whose normal form does not start with the target
    directory. *)
Theorem cleanup_stays_inside_target :
  (∀ walk root files filename,
     walk_of_target walk → (root, files) ∈ walk → filename ∈ files →
     inside_directory TARGET_DIRECTORY (normpath (path_join root filename))
     = true) ∧
  (∀ target_exists walk os_stat os_remove fromtimestamp cutoff p,
     walk_of_target walk →
     p ∈ removed_files (cleanup_old_files target_exists walk os_stat
                                          os_remove fromtimestamp cutoff) →
     inside_directory TARGET_DIRECTORY (normpath p) = true ∧
     existsb (λ forbidden, inside_directory forbidden (normpath p))
             FORBIDDEN_PATHS = false) ∧
  (∀ target_exists walk os_stat os_remove fromtimestamp cutoff p,
     is_path_safe p = false →
     p ∉ removed_files (cleanup_old_files target_exists walk os_stat
                                          os_remove fromtimestamp cutoff)) ∧
  (∀ p forbidden,
     forbidden ∈ FORBIDDEN_PATHS →
     inside_directory forbidden (normpath p) = true →
     is_path_safe p = false) ∧
  (∀ p, String.prefix TARGET_DIRECTORY (normpath p) = false →
        is_path_safe p = false).
Proof.
  split; [|split; [|split; [|split]]].
  - intros walk root files filename Hwalk Hin Hf.
    destruct (candidate_inside_target _ _ _ _ Hwalk Hin Hf) as [-> H]. done.
  - intros target_exists walk os_stat os_remove fromtimestamp cutoff p Hwalk Hp.
    destruct (removed_files_guarded target_exists walk os_stat os_remove
                fromtimestamp cutoff p (or_introl Hp))
      as (Hsafe & _ & root & filename & files & Hin & Hf & ->).
    destruct (candidate_inside_target _ _ _ _ Hwalk Hin Hf) as [Hn Hi].
    rewrite Hn. split; [done|].
    apply is_path_safe_iff in Hsafe. rewrite Hn in Hsafe.
    pose proof (target_prefix_not_forbidden _ Hsafe) as Hforb.
    simpl in Hforb |- *.
    apply orb_false_iff in Hforb as [H1 H2].
    apply orb_false_iff in H2 as [H2 _].
    apply orb_false_iff. split; [|apply orb_false_iff; split; [|done]].
    + destruct (inside_directory "/data/temp" _) eqn:E; [|done].
      apply inside_directory_prefix in E. congruence.
    + destruct (inside_directory "/data/telegram_parser_session" _) eqn:E;
        [|done].
      apply inside_directory_prefix in E. congruence.
  - intros target_exists walk os_stat os_remove fromtimestamp cutoff p Hrej Hp.
    destruct (removed_files_guarded target_exists walk os_stat os_remove
                fromtimestamp cutoff p (or_introl Hp)) as (Hsafe & _).
    congruence.
  - intros p forbidden Hforb Hin. apply is_path_safe_rejects. right.
    apply inside_directory_prefix in Hin.
    apply existsb_exists. exists forbidden.
    split; [by apply list_elem_of_In|done].
  - intros p H. apply is_path_safe_rejects. by left.
Qed.

(** C5 on a walk of the target directory and a subdirectory of it: the
    old file of the subdirectory is removed, and lies inside the target
    directory. *)
Lemma cleanup_stays_inside_target_witness :
  inside_directory TARGET_DIRECTORY
    (normpath "/data/raw_parses/2025/old.json") = true ∧
  existsb (λ forbidden,
             inside_directory forbidden
               (normpath "/data/raw_parses/2025/old.json"))
          FORBIDDEN_PATHS = false.
Proof.
  apply (proj1 (proj2 cleanup_stays_inside_target) true
           [("/data/raw_parses", ["new.json"]);
            ("/data/raw_parses/2025", ["old.json"])]
           (λ p, if String.eqb p "/data/raw_parses/2025/old.json"
                 then Some (StatResult 50 2048)
                 else Some (StatResult 500 4096))
           (λ _, true) (λ _, Rendered) 100).
  - repeat constructor; try discriminate.
    + by exists [].
    + exists ["2025"]. split; [|reflexivity].
      repeat constructor; discriminate.
  - vm_compute. left.
Defined.

End TargetWalkProofs.
